(** * meet2action: transcript parser and action-item extractor

    A shallow embedding of [components/transcript_parser.py] and
    [components/gemini_processor.py], followed by the properties of the
    two components.

    Python text ([str]) is a sequence of Unicode code points; a text is
    modelled as a list of code points, each an [N].  The library
    functions the two modules call ([str.strip], [str.split], [str.join],
    [re.match], [re.sub], [json.loads]) are modelled by executable
    functions of the same name. *)

From Stdlib Require Import List NArith ZArith Bool Arith Lia String Ascii Sorted
  Permutation.
Import ListNotations.

(* ================================================================= *)
(** ** Text *)

Definition char := N.
Definition str := list char.

(** [u "abc"] is the text written [abc], for a literal in ASCII. *)
Definition u (s : string) : str := List.map N_of_ascii (list_ascii_of_string s).

(** [uq] is [u] with every apostrophe of the literal standing for a
    double quote (code point 34); it is used to write JSON documents. *)
Definition uq (s : string) : str :=
  List.map (fun c => if N.eqb c 39 then 34%N else c) (u s).

Definition nl : str := [10%N].

Definition in_range (lo hi c : N) : bool := (N.leb lo c) && (N.leb c hi).

Definition in_ranges (t : list (N * N)) (c : N) : bool :=
  existsb (fun r => in_range (fst r) (snd r) c) t.

(** [str.isspace] on one code point, which is also the class [\s] of
    [re] on text patterns (CPython's [Py_UNICODE_ISSPACE]). *)
Definition space_table : list (N * N) :=
  [ (9, 13); (28, 32); (133, 133); (160, 160); (5760, 5760);
    (8192, 8202); (8232, 8233); (8239, 8239); (8287, 8287);
    (12288, 12288) ]%N.

Definition is_space (c : char) : bool := in_ranges space_table c.

(** The class [\d] of [re] on text patterns: the decimal digits of
    general category Nd (Unicode 14.0). *)
Definition digit_table : list (N * N) :=
  [ (48, 57); (1632, 1641); (1776, 1785); (1984, 1993); (2406, 2415);
    (2534, 2543); (2662, 2671); (2790, 2799); (2918, 2927); (3046, 3055);
    (3174, 3183); (3302, 3311); (3430, 3439); (3558, 3567); (3664, 3673);
    (3792, 3801); (3872, 3881); (4160, 4169); (4240, 4249); (6112, 6121);
    (6160, 6169); (6470, 6479); (6608, 6617); (6784, 6793); (6800, 6809);
    (6992, 7001); (7088, 7097); (7232, 7241); (7248, 7257); (42528, 42537);
    (43216, 43225); (43264, 43273); (43472, 43481); (43504, 43513);
    (43600, 43609); (44016, 44025); (65296, 65305); (66720, 66729);
    (68912, 68921); (69734, 69743); (69872, 69881); (69942, 69951);
    (70096, 70105); (70384, 70393); (70736, 70745); (70864, 70873);
    (71248, 71257); (71360, 71369); (71472, 71481); (71904, 71913);
    (72016, 72025); (72784, 72793); (73040, 73049); (73120, 73129);
    (92768, 92777); (92864, 92873); (93008, 93017); (120782, 120831);
    (123200, 123209); (123632, 123641); (125264, 125273);
    (130032, 130041) ]%N.

Definition is_digit (c : char) : bool := in_ranges digit_table c.

Definition is_upper_az (c : char) : bool := in_range 65 90 c.
Definition is_lower_az (c : char) : bool := in_range 97 122 c.

Definition str_eqb (a b : str) : bool :=
  if list_eq_dec N.eq_dec a b then true else false.

(** Python truthiness of a text, of a list and of an optional text. *)
Definition truthy (s : str) : bool :=
  match s with [] => false | _ :: _ => true end.

Definition nonempty {A} (l : list A) : bool :=
  match l with [] => false | _ :: _ => true end.

Definition truthy_opt (o : option str) : bool :=
  match o with None => false | Some s => truthy s end.

(** [s.strip()]. *)
Fixpoint lstrip (s : str) : str :=
  match s with
  | c :: s' => if is_space c then lstrip s' else s
  | [] => []
  end.

Definition rstrip (s : str) : str := rev (lstrip (rev s)).

Definition strip (s : str) : str := rstrip (lstrip s).

(** [s.startswith(p)]. *)
Fixpoint startswith (p s : str) : bool :=
  match p, s with
  | [], _ => true
  | _ :: _, [] => false
  | a :: p', b :: s' => N.eqb a b && startswith p' s'
  end.

(** [sep in s]. *)
Fixpoint contains (sep s : str) : bool :=
  startswith sep s ||
  match s with
  | [] => false
  | _ :: s' => contains sep s'
  end.

(** [s.split(sep)] for a non-empty separator: the pieces between the
    non-overlapping occurrences of [sep], found from left to right.
    [skip] counts the characters of a separator still to be passed. *)
Fixpoint split_from (sep s : str) (skip : nat) : list str :=
  match s with
  | [] => [[]]
  | c :: s' =>
      match skip with
      | S n => split_from sep s' n
      | O =>
          if startswith sep s
          then [] :: split_from sep s' (List.length sep - 1)
          else match split_from sep s' 0 with
               | p :: ps => (c :: p) :: ps
               | [] => [[c]]
               end
      end
  end.

Definition split (s sep : str) : list str := split_from sep s 0.

(** [sep.join(parts)]. *)
Fixpoint join (sep : str) (parts : list str) : str :=
  match parts with
  | [] => []
  | [p] => p
  | p :: ps => p ++ sep ++ join sep ps
  end.

(** [s.replace(old, new)] for a one-character [old]. *)
Definition replace_char (old : char) (new : str) (s : str) : str :=
  flat_map (fun c => if N.eqb c old then new else [c]) s.

(* ================================================================= *)
(** ** Regular expressions

    The fragment of [re] the parser uses, with the backtracking
    semantics of the library: quantifiers are greedy and give back
    what they took when the rest of the pattern fails. *)

Inductive regex : Type :=
| Cls (p : char -> bool)          (* one character of a class *)
| Cat (a b : regex)               (* a b *)
| Opt (a : regex)                 (* a? *)
| Many (p : char -> bool)         (* [p]* *)
| Grp (i : nat) (a : regex)       (* ( a ), numbered *)
| Bos                             (* ^ *)
| Eos.                            (* $ *)

Definition Some1 (p : char -> bool) : regex := Cat (Cls p) (Many p).

(** A position in an attempt to match: the number of characters the
    attempt has taken, the characters still ahead, and the groups
    matched so far. *)
Record mstate : Type := MState {
  m_pos : nat;
  m_rest : str;
  m_groups : list (nat * str)
}.

Fixpoint many (p : char -> bool) (s : str) (n : nat)
         (k : nat -> str -> option mstate) : option mstate :=
  match s with
  | c :: s' =>
      if p c
      then match many p s' (S n) k with
           | Some x => Some x
           | None => k n s
           end
      else k n s
  | [] => k n s
  end.

(** [rmatch at_start r st k]: [r] is tried from [st] and [k] is the rest
    of the pattern; [at_start] says that the attempt begins at the
    start of the subject. *)
Fixpoint rmatch (at_start : bool) (r : regex) (st : mstate)
         (k : mstate -> option mstate) : option mstate :=
  match r with
  | Cls p =>
      match m_rest st with
      | c :: s' => if p c then k (MState (S (m_pos st)) s' (m_groups st))
                   else None
      | [] => None
      end
  | Cat a b => rmatch at_start a st (fun st' => rmatch at_start b st' k)
  | Opt a =>
      match rmatch at_start a st k with
      | Some x => Some x
      | None => k st
      end
  | Many p =>
      many p (m_rest st) (m_pos st)
           (fun n s' => k (MState n s' (m_groups st)))
  | Grp i a =>
      rmatch at_start a st
        (fun st' =>
           k (MState (m_pos st') (m_rest st')
                ((i, firstn (m_pos st' - m_pos st) (m_rest st))
                   :: m_groups st')))
  | Bos => if at_start && Nat.eqb (m_pos st) 0 then k st else None
  | Eos =>
      match m_rest st with
      | [] => k st
      | [c] => if N.eqb c 10 then k st else None
      | _ => None
      end
  end.

(** The attempt of [r] on the subject from some position on, [s] being
    the subject from there; the result is the state at the end of the
    match, whose [m_pos] is the length of the match. *)
Definition match_at (at_start : bool) (r : regex) (s : str) : option mstate :=
  rmatch at_start r (MState 0 s []) (fun st => Some st).

(** [pattern.match(s)]. *)
Definition re_match (r : regex) (s : str) : option mstate := match_at true r s.

(** [m.group(i)] of a group that took part in the match. *)
Definition group (m : mstate) (i : nat) : str :=
  (fix look (g : list (nat * str)) : str :=
     match g with
     | [] => []
     | (j, t) :: g' => if Nat.eqb i j then t else look g'
     end) (m_groups m).

(** [pattern.sub(repl, s)] for a replacement without escapes: the
    subject is scanned from left to right, every match found is replaced
    and the scan goes on behind it.  [skip] counts the characters of the
    last match still to be passed. *)
Fixpoint sub_from (r : regex) (repl s : str) (at_start : bool) (skip : nat)
  : str :=
  match s with
  | [] =>
      match skip, match_at at_start r [] with
      | O, Some _ => repl
      | _, _ => []
      end
  | c :: s' =>
      match skip with
      | S n => sub_from r repl s' false n
      | O =>
          match match_at at_start r s with
          | Some m =>
              match m_pos m with
              | O => repl ++ c :: sub_from r repl s' false 0
              | S n => repl ++ sub_from r repl s' false n
              end
          | None => c :: sub_from r repl s' false 0
          end
      end
  end.

Definition re_sub (r : regex) (repl s : str) : str := sub_from r repl s true 0.

(* ================================================================= *)
(** ** components/transcript_parser.py *)

Definition colon : char := 58%N.
Definition is_colon (c : char) : bool := N.eqb c colon.
Definition is_dot (c : char) : bool := negb (N.eqb c 10).
Definition is_name_char (c : char) : bool :=
  is_lower_az c || is_upper_az c || is_space c.

(** [\d{1,2}:\d{2}(:\d{2})?\s] *)
Definition timestamp_body : regex :=
  Cat (Cat (Cls is_digit) (Opt (Cls is_digit)))
   (Cat (Cls is_colon)
    (Cat (Cat (Cls is_digit) (Cls is_digit))
     (Cat (Opt (Grp 1 (Cat (Cls is_colon) (Cat (Cls is_digit) (Cls is_digit)))))
          (Cls is_space)))).

(** [^\d{1,2}:\d{2}(:\d{2})?\s] *)
Definition timestamp_pattern : regex := Cat Bos timestamp_body.

(** [^([A-Z][a-zA-Z\s]+):\s*(.+)$] *)
Definition speaker_pattern : regex :=
  Cat Bos
   (Cat (Grp 1 (Cat (Cls is_upper_az) (Some1 is_name_char)))
    (Cat (Cls is_colon)
     (Cat (Many is_space)
      (Cat (Grp 2 (Some1 is_dot)) Eos)))).

(** A conversation turn, the dictionary with keys [speaker] and [text]. *)
Record turn : Type := Turn { speaker : str; text : str }.

(** The variables of the loop of [parse_transcript]. *)
Record pstate : Type := PState {
  parsed : list turn;
  current_speaker : option str;
  current_text : list str
}.

Definition init_pstate : pstate := PState [] None [].

(** [parsed[-1]["text"] += " " + line] *)
Fixpoint extend_last (p : list turn) (line : str) : list turn :=
  match p with
  | [] => []
  | [t] => [Turn (speaker t) (text t ++ u " " ++ line)]
  | t :: p' => t :: extend_last p' line
  end.

(** The turn of the speaker in progress, appended when there is one. *)
Definition flush (st : pstate) : list turn :=
  match current_speaker st with
  | Some sp =>
      if truthy sp && nonempty (current_text st)
      then parsed st ++ [Turn sp (join (u " ") (current_text st))]
      else parsed st
  | None => parsed st
  end.

(** The line as the loop sees it after trimming and after the leading
    timestamp, when there is one, has been removed. *)
Definition drop_timestamp (line : str) : str :=
  match re_match timestamp_pattern line with
  | Some _ => strip (re_sub timestamp_pattern [] line)
  | None => line
  end.

(** One iteration of the loop over the lines. *)
Definition parse_line (st : pstate) (raw_line : str) : pstate :=
  let line := strip raw_line in
  if negb (truthy line) then st
  else
    let line := drop_timestamp line in
    match re_match speaker_pattern line with
    | Some m =>
        PState (flush st)
               (Some (strip (group m 1)))
               [strip (group m 2)]
    | None =>
        if truthy_opt (current_speaker st)
        then PState (parsed st) (current_speaker st)
                    (current_text st ++ [line])
        else if nonempty (parsed st)
        then PState (extend_last (parsed st) line) (current_speaker st)
                    (current_text st)
        else PState (parsed st ++ [Turn (u "Unknown") line])
                    (current_speaker st) (current_text st)
    end.

Definition parse_lines (lines : list str) : pstate :=
  fold_left parse_line lines init_pstate.

(** [parse_transcript(raw_text)]: the empty text gives the empty list;
    otherwise the lines are gone through and the turn in progress is
    appended at the end. *)
Definition parse_transcript (raw_text : str) : list turn :=
  if negb (truthy raw_text) then []
  else flush (parse_lines (split raw_text nl)).

(** [\s+] *)
Definition ws_run : regex := Some1 is_space.

Definition form_feed : char := 12%N.

(** [clean_transcript(raw_text)]: the timestamps are removed, each run
    of white space becomes one space, form feeds become spaces, and the
    result is trimmed. *)
Definition clean_transcript (raw_text : str) : str :=
  if negb (truthy raw_text) then []
  else
    let text := re_sub timestamp_body [] raw_text in
    let text := re_sub ws_run (u " ") text in
    let text := replace_char form_feed (u " ") text in
    strip text.

(** The order of [sorted] on texts: by code point, a prefix first. *)
Fixpoint str_ltb (a b : str) : bool :=
  match a, b with
  | _, [] => false
  | [], _ :: _ => true
  | x :: a', y :: b' =>
      if N.ltb x y then true
      else if N.eqb x y then str_ltb a' b' else false
  end.

(** [speakers.add(x)] on a set held as a list without repetition. *)
Definition set_add (s : list str) (x : str) : list str :=
  if existsb (str_eqb x) s then s else s ++ [x].

(** [sorted(list(s))] for a set of texts. *)
Fixpoint insert_sorted (x : str) (l : list str) : list str :=
  match l with
  | [] => [x]
  | y :: l' => if str_ltb y x then y :: insert_sorted x l' else x :: l
  end.

Definition sorted (l : list str) : list str := fold_right insert_sorted [] l.

Definition extract_speakers (parsed_transcript : list turn) : list str :=
  let speakers :=
    fold_left (fun s entry =>
                 if truthy (speaker entry) then set_add s (speaker entry) else s)
              parsed_transcript [] in
  sorted speakers.

(* ================================================================= *)
(** ** Exceptions and JSON values *)

(** The exceptions derived from [Exception]: [json.JSONDecodeError]
    (with its subclasses) and all the others, given by the name of their
    class.  The second field is [str(e)]. *)
Inductive exn : Type :=
| JSONDecodeError (msg : str)
| PyException (cls : str) (msg : str).

(** What [json.loads] returns.  An integer is a Python [int]; a float is
    kept as the text it was read from; an object is a [dict], an
    association list with distinct keys in insertion order. *)
Unset Elimination Schemes.
Inductive json : Type :=
| JNull
| JBool (b : bool)
| JInt (z : Z)
| JFloat (lexeme : str)
| JStr (s : str)
| JArr (elems : list json)
| JObj (members : list (str * json)).
Set Elimination Schemes.

(** [d[k] = v] *)
Fixpoint dict_set (d : list (str * json)) (k : str) (v : json)
  : list (str * json) :=
  match d with
  | [] => [(k, v)]
  | (k', v') :: d' =>
      if str_eqb k k' then (k', v) :: d' else (k', v') :: dict_set d' k v
  end.

(** [dict(pairs)] *)
Definition dict_of_pairs (pairs : list (str * json)) : list (str * json) :=
  fold_left (fun d kv => dict_set d (fst kv) (snd kv)) pairs [].

(** [d.get(k)] as an option, and [k in d]. *)
Fixpoint dict_lookup (d : list (str * json)) (k : str) : option json :=
  match d with
  | [] => None
  | (k', v) :: d' => if str_eqb k k' then Some v else dict_lookup d' k
  end.

Definition dict_has (d : list (str * json)) (k : str) : bool :=
  match dict_lookup d k with Some _ => true | None => false end.

(** [d.get(k, default)] *)
Definition dict_get (d : list (str * json)) (k : str) (default : json) : json :=
  match dict_lookup d k with Some v => v | None => default end.

(* ================================================================= *)
(** ** json.loads

    The decoder of the [json] module: [scanstring], [JSONObject],
    [JSONArray], the scanner and [decode].  The position that
    [JSONDecodeError] carries is left out. *)

Definition res (A : Type) : Type := (exn + A)%type.

Definition is_json_ws (c : char) : bool :=
  N.eqb c 32 || N.eqb c 9 || N.eqb c 10 || N.eqb c 13.

Fixpoint skip_ws (s : str) : str :=
  match s with
  | c :: s' => if is_json_ws c then skip_ws s' else s
  | [] => []
  end.

Definition is_ascii_digit (c : char) : bool := in_range 48 57 c.

Definition hexval (c : char) : option N :=
  if in_range 48 57 c then Some (c - 48)%N
  else if in_range 65 70 c then Some (c - 55)%N
  else if in_range 97 102 c then Some (c - 87)%N
  else None.

Definition hex4 (a b c d : char) : option N :=
  match hexval a, hexval b, hexval c, hexval d with
  | Some x, Some y, Some z, Some w => Some (((x * 16 + y) * 16 + z) * 16 + w)%N
  | _, _, _, _ => None
  end.

(** The table [BACKSLASH]. *)
Definition backslash (c : char) : option char :=
  if N.eqb c 34 then Some 34%N            (* quote *)
  else if N.eqb c 92 then Some 92%N       (* backslash *)
  else if N.eqb c 47 then Some 47%N       (* / *)
  else if N.eqb c 98 then Some 8%N        (* b *)
  else if N.eqb c 102 then Some 12%N      (* f *)
  else if N.eqb c 110 then Some 10%N      (* n *)
  else if N.eqb c 114 then Some 13%N      (* r *)
  else if N.eqb c 116 then Some 9%N       (* t *)
  else None.

Definition unterminated : exn := JSONDecodeError (u "Unterminated string starting at").
Definition bad_uxxxx : exn := JSONDecodeError (u "Invalid \uXXXX escape").
Definition bad_escape : exn := JSONDecodeError (u "Invalid \escape").
Definition bad_control : exn := JSONDecodeError (u "Invalid control character at").
Definition expecting_value : exn := JSONDecodeError (u "Expecting value").
Definition expecting_comma : exn := JSONDecodeError (u "Expecting ',' delimiter").
Definition expecting_colon : exn := JSONDecodeError (u "Expecting ':' delimiter").
Definition expecting_name : exn :=
  JSONDecodeError (u "Expecting property name enclosed in double quotes").
Definition extra_data : exn := JSONDecodeError (u "Extra data").
Definition unexpected_bom : exn :=
  JSONDecodeError (u "Unexpected UTF-8 BOM (decode using utf-8-sig)").
Definition recursion_error : exn :=
  PyException (u "RecursionError") (u "maximum recursion depth exceeded").

Definition push (c : char) (r : res (str * str)) : res (str * str) :=
  match r with
  | inl e => inl e
  | inr (t, rest) => inr (c :: t, rest)
  end.

(** [scanstring] in strict mode, from behind the opening quote: the
    decoded text and what follows the closing quote. *)
Fixpoint scanstring (s : str) : res (str * str) :=
  match s with
  | [] => inl unterminated
  | c :: s1 =>
      if N.eqb c 34 then inr ([], s1)
      else if N.eqb c 92 then
        match s1 with
        | [] => inl unterminated
        | e :: s2 =>
            if N.eqb e 117 then
              match s2 with
              | h1 :: h2 :: h3 :: h4 :: s3 =>
                  match hex4 h1 h2 h3 h4 with
                  | None => inl bad_uxxxx
                  | Some uni =>
                      if in_range 55296 56319 uni then
                        match s3 with
                        | b :: s4 =>
                            match s4 with
                            | v :: s5 =>
                                if N.eqb b 92 && N.eqb v 117 then
                                  match s5 with
                                  | g1 :: g2 :: g3 :: g4 :: s6 =>
                                      match hex4 g1 g2 g3 g4 with
                                      | None => inl bad_uxxxx
                                      | Some uni2 =>
                                          if in_range 56320 57343 uni2
                                          then push (65536 +
                                                 N.lor (N.shiftl (uni - 55296) 10)
                                                       (uni2 - 56320))%N
                                                 (scanstring s6)
                                          else push uni (scanstring s3)
                                      end
                                  | _ => inl bad_uxxxx
                                  end
                                else push uni (scanstring s3)
                            | [] => push uni (scanstring s3)
                            end
                        | [] => push uni (scanstring s3)
                        end
                      else push uni (scanstring s3)
                  end
              | _ => inl bad_uxxxx
              end
            else
              match backslash e with
              | Some ch => push ch (scanstring s2)
              | None => inl bad_escape
              end
        end
      else if N.leb c 31 then inl bad_control
      else push c (scanstring s1)
  end.

(** The longest run of ASCII digits at the head of a text. *)
Fixpoint digits (s : str) : str * str :=
  match s with
  | c :: s' =>
      if is_ascii_digit c
      then let (d, r) := digits s' in (c :: d, r)
      else ([], s)
  | [] => ([], [])
  end.

(** [NUMBER_RE]: an optional minus sign and either a zero or a digit
    from 1 to 9 with any number of digits behind it; then, when they
    are complete, a fraction (a point and digits) and an exponent (e or
    E, an optional sign, digits).  The three parts and the rest. *)
Definition number_int (s : str) : option (str * str) :=
  match s with
  | c :: s' =>
      if N.eqb c 48 then Some ([c], s')
      else if in_range 49 57 c
           then let (d, r) := digits s' in Some (c :: d, r)
           else None
  | [] => None
  end.

Definition number_frac (s : str) : str * str :=
  match s with
  | c :: s' =>
      if N.eqb c 46 then
        match digits s' with
        | ([], _) => ([], s)
        | (d, r) => (c :: d, r)
        end
      else ([], s)
  | [] => ([], s)
  end.

Definition number_exp (s : str) : str * str :=
  match s with
  | c :: s' =>
      if N.eqb c 101 || N.eqb c 69 then
        match s' with
        | g :: s'' =>
            if N.eqb g 45 || N.eqb g 43 then
              match digits s'' with
              | ([], _) => ([], s)
              | (d, r) => (c :: g :: d, r)
              end
            else
              match digits s' with
              | ([], _) => ([], s)
              | (d, r) => (c :: d, r)
              end
        | [] => ([], s)
        end
      else ([], s)
  | [] => ([], s)
  end.

Definition match_number (s : str) : option (str * str * str * str) :=
  let signed :=
    match s with
    | c :: s' =>
        if N.eqb c 45
        then match number_int s' with
             | Some (i, r) => Some (c :: i, r)
             | None => None
             end
        else number_int s
    | [] => None
    end in
  match signed with
  | None => None
  | Some (i, r) =>
      let (f, r1) := number_frac r in
      let (e, r2) := number_exp r1 in
      Some (i, f, e, r2)
  end.

(** [int(text)] for the integer part of a number. *)
Definition nat_value (d : str) : Z :=
  fold_left (fun acc c => (acc * 10 + (Z.of_N c - 48))%Z) d 0%Z.

Definition int_value (i : str) : Z :=
  match i with
  | c :: d => if N.eqb c 45 then (- nat_value d)%Z else nat_value i
  | [] => 0%Z
  end.

Definition fuel_spent : exn := PyException (u "fuel") [].

Section Containers.

(** The scanner one level of nesting further down. *)
Variable scan_once : str -> res (json * str).

(** The loop of [JSONArray], from the position of a value. *)
Fixpoint array_loop (fuel : nat) (s : str) : res (list json * str) :=
  match fuel with
  | O => inl fuel_spent
  | S f =>
      match scan_once s with
      | inl e => inl e
      | inr (v, r) =>
          match skip_ws r with
          | c :: r' =>
              if N.eqb c 93 then inr ([v], r')
              else if N.eqb c 44 then
                match array_loop f (skip_ws r') with
                | inl e => inl e
                | inr (vs, r'') => inr (v :: vs, r'')
                end
              else inl expecting_comma
          | [] => inl expecting_comma
          end
      end
  end.

(** [JSONArray], from behind the opening bracket. *)
Definition JSONArray (s : str) : res (json * str) :=
  match skip_ws s with
  | c :: r =>
      if N.eqb c 93 then inr (JArr [], r)
      else match array_loop (S (List.length s)) (skip_ws s) with
           | inl e => inl e
           | inr (vs, r') => inr (JArr vs, r')
           end
  | [] => inl expecting_value
  end.

(** The loop of [JSONObject], from behind the opening quote of a key. *)
Fixpoint object_loop (fuel : nat) (s : str) : res (list (str * json) * str) :=
  match fuel with
  | O => inl fuel_spent
  | S f =>
      match scanstring s with
      | inl e => inl e
      | inr (key, r) =>
          match skip_ws r with
          | c :: r1 =>
              if N.eqb c 58 then
                match scan_once (skip_ws r1) with
                | inl e => inl e
                | inr (v, r2) =>
                    match skip_ws r2 with
                    | c2 :: r3 =>
                        if N.eqb c2 125 then inr ([(key, v)], r3)
                        else if N.eqb c2 44 then
                          match skip_ws r3 with
                          | q :: r4 =>
                              if N.eqb q 34 then
                                match object_loop f r4 with
                                | inl e => inl e
                                | inr (kvs, r5) => inr ((key, v) :: kvs, r5)
                                end
                              else inl expecting_name
                          | [] => inl expecting_name
                          end
                        else inl expecting_comma
                    | [] => inl expecting_comma
                    end
                end
              else inl expecting_colon
          | [] => inl expecting_colon
          end
      end
  end.

(** [JSONObject], from behind the opening brace. *)
Definition JSONObject (s : str) : res (json * str) :=
  match skip_ws s with
  | c :: r =>
      if N.eqb c 125 then inr (JObj [], r)
      else if N.eqb c 34 then
        match object_loop (S (List.length s)) r with
        | inl e => inl e
        | inr (kvs, r') => inr (JObj (dict_of_pairs kvs), r')
        end
      else inl expecting_name
  | [] => inl expecting_name
  end.

End Containers.

(** The end of the scanner: the three names, a number, the three
    constants. *)
Definition scan_atom (s : str) : res (json * str) :=
  if startswith (u "null") s then inr (JNull, skipn 4 s)
  else if startswith (u "true") s then inr (JBool true, skipn 4 s)
  else if startswith (u "false") s then inr (JBool false, skipn 5 s)
  else
    match match_number s with
    | Some (i, f, e, r) =>
        if nonempty f || nonempty e
        then inr (JFloat (i ++ f ++ e), r)
        else inr (JInt (int_value i), r)
    | None =>
        if startswith (u "NaN") s then inr (JFloat (u "NaN"), skipn 3 s)
        else if startswith (u "Infinity") s
        then inr (JFloat (u "Infinity"), skipn 8 s)
        else if startswith (u "-Infinity") s
        then inr (JFloat (u "-Infinity"), skipn 9 s)
        else inl expecting_value
    end.

(** The scanner.  [depth] is the number of nested containers the
    interpreter can still enter before it raises [RecursionError]. *)
Fixpoint scan_once (depth : nat) (s : str) : res (json * str) :=
  match s with
  | [] => inl expecting_value
  | c :: s' =>
      if N.eqb c 34 then
        match scanstring s' with
        | inl e => inl e
        | inr (t, r) => inr (JStr t, r)
        end
      else if N.eqb c 123 then
        match depth with
        | O => inl recursion_error
        | S d => JSONObject (scan_once d) s'
        end
      else if N.eqb c 91 then
        match depth with
        | O => inl recursion_error
        | S d => JSONArray (scan_once d) s'
        end
      else scan_atom s
  end.

(** [json.loads(s)] for a text [s]. *)
Definition json_loads (depth : nat) (s : str) : res json :=
  if startswith [65279%N] s then inl unexpected_bom
  else
    match scan_once depth (skip_ws s) with
    | inl e => inl e
    | inr (v, r) =>
        match skip_ws r with
        | [] => inr v
        | _ :: _ => inl extra_data
        end
    end.

(* ================================================================= *)
(** ** components/gemini_processor.py *)

(** What the function works with from outside: [initialize_gemini]
    (the API key, [genai.configure] and the model), the call
    [model.generate_content(prompt)] together with [response.text], each
    of which returns or raises, and the nesting depth left to the
    interpreter. *)
Record environment : Type := Environment {
  initialize_gemini : res unit;
  generate_content : str -> res str;
  recursion_headroom : nat
}.

(** What Streamlit shows: [st.spinner(msg)], [st.error(prefix + str(e))]
    and [st.code(body)]. *)
Inductive ui_event : Type :=
| st_spinner (msg : str)
| st_error (prefix : str) (e : exn)
| st_code (body : str).

(** The local variable [response_text], bound or not, and what has been
    shown so far. *)
Record frame : Type := Frame {
  response_text : option str;
  ui : list ui_event
}.

(** A computation either returns or raises, and changes the frame. *)
Definition M (A : Type) : Type := frame -> res A * frame.

Definition ret {A} (v : A) : M A := fun fr => (inr v, fr).

Definition bind {A B} (m : M A) (f : A -> M B) : M B :=
  fun fr =>
    match m fr with
    | (inl e, fr') => (inl e, fr')
    | (inr v, fr') => f v fr'
    end.

Notation "x <- m ;; f" := (bind m (fun x => f))
  (at level 61, m at next level, right associativity).

Definition lift {A} (r : res A) : M A := fun fr => (r, fr).

Definition show (ev : ui_event) : M unit :=
  fun fr => (inr tt, Frame (response_text fr) (ui fr ++ [ev])).

Definition assign (t : str) : M unit :=
  fun fr => (inr tt, Frame (Some t) (ui fr)).

(** [try: body except C1 as e: h1 ... except Cn as e: hn]: the first
    clause whose class the exception belongs to handles it; with no
    such clause the exception goes on to the caller. *)
Definition try_except {A} (body : M A)
           (clauses : list ((exn -> bool) * (exn -> M A))) : M A :=
  fun fr =>
    match body fr with
    | (inr v, fr') => (inr v, fr')
    | (inl e, fr') =>
        match find (fun cl => fst cl e) clauses with
        | Some cl => snd cl e fr'
        | None => (inl e, fr')
        end
    end.

Definition isinstance_JSONDecodeError (e : exn) : bool :=
  match e with JSONDecodeError _ => true | PyException _ _ => false end.

Definition isinstance_Exception (e : exn) : bool := true.

(** An action item, the dictionary with keys [assignee], [task] and
    [priority]. *)
Record action_item : Type := ActionItem {
  assignee : json;
  task : json;
  priority : json
}.

Definition prompt_head : list str :=
  [ u "You are a meeting assistant. Analyze the following meeting transcript and extract all action items.";
    [];
    u "For each action item, identify:";
    u "1. The task/action to be completed";
    u "2. The assignee name (who is responsible)";
    u "3. The priority level (High, Medium, Low) if mentioned, otherwise default to Medium";
    [];
    u "Return the results as a JSON array with the following structure:";
    u "[";
    uq "  {'assignee': 'Name', 'task': 'Task description', 'priority': 'High/Medium/Low'},";
    u "  ...";
    u "]";
    [];
    u "If no action items are found, return an empty array [].";
    [];
    u "Transcript:" ].

Definition make_prompt (transcript_text : str) : str :=
  join nl (prompt_head ++ [transcript_text; []; u "JSON Response:"]).

Definition fence_json : str := u "```json".
Definition fence : str := u "```".

(** The payload inside the code fence of the response, when it has one. *)
Definition unwrap (response_text : str) : str :=
  if contains fence_json response_text
  then strip (nth 0 (split (nth 1 (split response_text fence_json) []) fence) [])
  else if contains fence response_text
  then strip (nth 0 (split (nth 1 (split response_text fence) []) fence) [])
  else response_text.

Definition not_iterable (cls : string) : exn :=
  PyException (u "TypeError") (u "'" ++ u cls ++ u "' object is not iterable").

(** What [for item in v] goes through: the elements of a list, the keys
    of a dictionary, the characters of a text; the other values are not
    iterable. *)
Definition py_iter (v : json) : res (list json) :=
  match v with
  | JArr elems => inr elems
  | JObj members => inr (List.map (fun kv => JStr (fst kv)) members)
  | JStr s => inr (List.map (fun c => JStr [c]) s)
  | JInt _ => inl (not_iterable "int")
  | JFloat _ => inl (not_iterable "float")
  | JBool _ => inl (not_iterable "bool")
  | JNull => inl (not_iterable "NoneType")
  end.

(** One iteration of the validation loop. *)
Definition validate_step (validated_items : list action_item) (item : json)
  : list action_item :=
  match item with
  | JObj d =>
      if dict_has d (u "task")
      then validated_items ++
           [ActionItem (dict_get d (u "assignee") (JStr (u "Unassigned")))
                       (dict_get d (u "task") (JStr []))
                       (dict_get d (u "priority") (JStr (u "Medium")))]
      else validated_items
  | _ => validated_items
  end.

Definition validate (action_items : list json) : list action_item :=
  fold_left validate_step action_items [].

Definition spinner : ui_event :=
  st_spinner (u "Processing transcript with Gemini...").

Definition parse_failed : str := u "Failed to parse Gemini response as JSON: ".
Definition call_failed : str := u "Error processing transcript with Gemini: ".

(** The body of the [try] statement. *)
Definition extract_body (env : environment) (transcript_text : str)
  : M (list action_item) :=
  _ <- lift (initialize_gemini env) ;;
  let prompt := make_prompt transcript_text in
  _ <- show spinner ;;
  response <- lift (generate_content env prompt) ;;
  let response_text := strip response in
  _ <- assign response_text ;;
  let response_text := unwrap response_text in
  _ <- assign response_text ;;
  action_items <- lift (json_loads (recursion_headroom env) response_text) ;;
  items <- lift (py_iter action_items) ;;
  ret (validate items).

(** [except json.JSONDecodeError as e] and [except Exception as e]. *)
Definition on_json_error (e : exn) : M (list action_item) :=
  _ <- show (st_error parse_failed e) ;;
  fun fr =>
    match response_text fr with
    | Some t => (_ <- show (st_code t) ;; ret []) fr
    | None => ret [] fr
    end.

Definition on_error (e : exn) : M (list action_item) :=
  _ <- show (st_error call_failed e) ;;
  ret [].

(** [extract_action_items(transcript_text)]: the empty text gives the
    empty list without any call; otherwise the body runs under the two
    [except] clauses. *)
Definition extract_action_items (env : environment) (transcript_text : str)
  : M (list action_item) :=
  if negb (truthy transcript_text) then ret []
  else
    try_except (extract_body env transcript_text)
      [ (isinstance_JSONDecodeError, on_json_error);
        (isinstance_Exception, on_error) ].

Definition process_transcript (env : environment) (transcript_text : str)
  : M (list action_item) :=
  extract_action_items env transcript_text.

(** The frame at the call. *)
Definition fresh : frame := Frame None [].

Definition missing_key : exn :=
  PyException (u "ValueError")
              (u "Environment variable GEMINI_API_KEY is not set").

Definition connection_error : exn :=
  PyException (u "ConnectionError") (u "network is unreachable").

(** An environment without the API key, and one without network. *)
Definition no_api_key : environment :=
  Environment (inl missing_key) (fun _ => inr []) 1000.

Definition offline : environment :=
  Environment (inr tt) (fun _ => inl connection_error) 1000.

(** An environment whose model answers every prompt with [response]. *)
Definition mocked (response : str) : environment :=
  Environment (inr tt) (fun _ => inr response) 1000.

Definition sample_transcript : str :=
  u "00:01 Alice: Let's discuss the budget." ++ nl ++
  u "We need more funding." ++ nl ++
  u "00:02 Bob: I disagree.".


(** [app.py], the button of step 3: the transcript is cleaned and the
    cleaned text goes to [extract_action_items]. *)
Definition process_with_gemini (env : environment) (transcript_content : str)
  : M (list action_item) :=
  let cleaned_text := clean_transcript transcript_content in
  extract_action_items env cleaned_text.

(* ================================================================= *)
(** ** Python values as keys *)

(** What a Python value is as a key of a dictionary or a member of a
    set.  [None] is a key of its own; the numbers, which are the
    values of [bool], [int] and [float], are equal as keys when their
    values are, so [True], [1] and [1.0] are one key; every [int] and
    every finite [float] is a whole multiple of 2^-1074, and [KNum]
    holds the value times 2^1074. *)
Inductive pykey : Type :=
| KNone
| KNum (scaled : Z)
| KInf (negative : bool)
| KNaN
| KStr (s : str).

Definition pykey_eqb (a b : pykey) : bool :=
  match a, b with
  | KNone, KNone => true
  | KNum x, KNum y => Z.eqb x y
  | KInf x, KInf y => Bool.eqb x y
  | KNaN, KNaN => true
  | KStr x, KStr y => str_eqb x y
  | _, _ => false
  end.

(** The quotient [num / den] rounded to the nearest integer, a tie to
    the even one. *)
Definition round_half_even (num den : Z) : Z :=
  let n := (num / den)%Z in
  let r := (num mod den)%Z in
  if (den <? 2 * r)%Z then (n + 1)%Z
  else if (2 * r =? den)%Z && Z.odd n then (n + 1)%Z
  else n.

(** The largest [k] with [2^k <= a / b], for positive [a] and [b]. *)
Definition floor_log2 (a b : Z) : Z :=
  let k0 := (Z.log2 a - Z.log2 b)%Z in
  if (0 <=? k0)%Z
  then (if (a <? b * 2 ^ k0)%Z then k0 - 1 else k0)%Z
  else (if (a * 2 ^ (- k0) <? b)%Z then k0 - 1 else k0)%Z.

(** The double nearest to [a / b], for [a >= 0] and [b > 0], times
    2^1074; [None] when it is beyond the largest double.  A double has
    53 significant bits and no bit below 2^-1074. *)
Definition double_of_ratio (a b : Z) : option Z :=
  if (a =? 0)%Z then Some 0%Z
  else
    let k := floor_log2 a b in
    let p := Z.max (k - 52) (-1074) in
    let n := if (0 <=? p)%Z
             then round_half_even a (b * 2 ^ p)
             else round_half_even (a * 2 ^ (- p)) b in
    let scaled := (n * 2 ^ (p + 1074))%Z in
    if (2 ^ 2098 <=? scaled)%Z then None else Some scaled.

(** The exponent of a float: a sign, when there is one, and digits. *)
Definition exponent_value (s : str) : Z :=
  match s with
  | c :: r =>
      if N.eqb c 45 then (- nat_value (fst (digits r)))%Z
      else if N.eqb c 43 then nat_value (fst (digits r))
      else nat_value (fst (digits s))
  | [] => 0%Z
  end.

(** [float(lexeme)] as a key, for the text of a JSON number with a
    fraction or an exponent and for the three constants. *)
Definition float_key (lexeme : str) : pykey :=
  if str_eqb lexeme (u "NaN") then KNaN
  else if str_eqb lexeme (u "Infinity") then KInf false
  else if str_eqb lexeme (u "-Infinity") then KInf true
  else
    let (negative, body) :=
      match lexeme with
      | c :: r => if N.eqb c 45 then (true, r) else (false, lexeme)
      | [] => (false, [])
      end in
    let (int_digits, r1) := digits body in
    let (frac_digits, r2) :=
      match r1 with
      | c :: r => if N.eqb c 46 then digits r else ([], r1)
      | [] => ([], [])
      end in
    let e :=
      match r2 with
      | c :: r => if N.eqb c 101 || N.eqb c 69 then exponent_value r else 0%Z
      | [] => 0%Z
      end in
    let m := nat_value (int_digits ++ frac_digits) in
    let e10 := (e - Z.of_nat (List.length frac_digits))%Z in
    let value := if (0 <=? e10)%Z
                 then double_of_ratio (m * 10 ^ e10) 1
                 else double_of_ratio m (10 ^ (- e10)) in
    match value with
    | Some scaled => KNum (if negative then - scaled else scaled)
    | None => KInf negative
    end.

(** [hash(v)], which a dictionary or a set asks of a key: a list and a
    dictionary have none. *)
Definition unhashable (cls : string) : exn :=
  PyException (u "TypeError") (u "unhashable type: '" ++ u cls ++ u "'").

Definition py_hash (v : json) : res pykey :=
  match v with
  | JNull => inr KNone
  | JBool b => inr (KNum (if b then 2 ^ 1074 else 0))
  | JInt z => inr (KNum (z * 2 ^ 1074))
  | JFloat lexeme => inr (float_key lexeme)
  | JStr s => inr (KStr s)
  | JArr _ => inl (unhashable "list")
  | JObj _ => inl (unhashable "dict")
  end.

(** A dictionary with Python values as keys: its entries in the order
    of insertion, each with the key as [hash] and [==] see it, the key
    object it was inserted with, and the value. *)
Definition pydict (V : Type) : Type := list (pykey * (json * V)).

Fixpoint pd_lookup {V} (d : pydict V) (k : pykey) : option V :=
  match d with
  | [] => None
  | (k', (_, v)) :: d' => if pykey_eqb k k' then Some v else pd_lookup d' k
  end.

(** [d.get(key, default)] and [d[key]] behind the hash of the key.  The
    text of a [KeyError] is left out. *)
Definition pd_get {V} (d : pydict V) (k : pykey) (default : V) : V :=
  match pd_lookup d k with Some v => v | None => default end.

Definition key_error : exn := PyException (u "KeyError") [].

Definition pd_item {V} (d : pydict V) (k : pykey) : res V :=
  match pd_lookup d k with Some v => inr v | None => inl key_error end.

(** [d[key] = v]: an entry that is there keeps its place and its key
    object. *)
Fixpoint pd_set {V} (d : pydict V) (k : pykey) (key : json) (v : V)
  : pydict V :=
  match d with
  | [] => [(k, (key, v))]
  | (k', (key', v')) :: d' =>
      if pykey_eqb k k' then (k', (key', v)) :: d'
      else (k', (key', v')) :: pd_set d' k key v
  end.

(** A loop whose body can raise. *)
Fixpoint fold_res {A B} (step : A -> B -> res A) (l : list B) (acc : A)
  : res A :=
  match l with
  | [] => inr acc
  | x :: l' =>
      match step acc x with
      | inl e => inl e
      | inr acc' => fold_res step l' acc'
      end
  end.

(* ================================================================= *)
(** ** components/kanban_board.py *)

(** A text as an f-string puts it together: the literal parts, and for
    every value, exception or number that is formatted into it the
    value, not its rendering. *)
Inductive part : Type :=
| Text (s : str)
| Value (v : json)
| Error (e : exn)
| Count (n : nat).

(** What Streamlit is asked to draw, and where: at the top level or in
    the column [cols[idx]]. *)
Inductive widget : Type :=
| w_header (body : list part)
| w_subheader (body : list part)
| w_markdown (body : list part)
| w_spinner (body : list part)
| w_info (body : list part)
| w_success (body : list part)
| w_warning (body : list part)
| w_error (body : list part)
| w_columns (n : nat)
| w_card (border icon : str) (priority task : json)
| w_metric (label : str) (value : nat).

Definition shown : Type := (option nat * widget)%type.

(** A computation on a state of type [S] that returns or raises. *)
Definition Run (S A : Type) : Type := S -> res A * S.

Definition pure {S A} (v : A) : Run S A := fun s => (inr v, s).

Definition and_then {S A B} (m : Run S A) (f : A -> Run S B) : Run S B :=
  fun s =>
    match m s with
    | (inl e, s') => (inl e, s')
    | (inr v, s') => f v s'
    end.

Notation "x <~ m ;; f" := (and_then m (fun x => f))
  (at level 61, m at next level, right associativity).

Definition raise_or {S A} (r : res A) : Run S A := fun s => (r, s).

Fixpoint for_each {S A} (l : list A) (body : A -> Run S unit) : Run S unit :=
  match l with
  | [] => pure tt
  | x :: l' => _ <~ body x ;; for_each l' body
  end.

(** A computation that draws. *)
Definition Screen (A : Type) : Type := Run (list shown) A.

Definition draw (col : option nat) (w : widget) : Screen unit :=
  fun scr => (inr tt, scr ++ [(col, w)]).

Definition enumerate {A} (l : list A) : list (nat * A) :=
  combine (seq 0 (List.length l)) l.

(** A task, the dictionary with keys [assignee], [task] and
    [priority]. *)
Definition task_dict : Type := list (str * json).

Definition get_assignee (task : task_dict) : json :=
  dict_get task (u "assignee") (JStr (u "Unassigned")).

Definition get_priority (task : task_dict) : json :=
  dict_get task (u "priority") (JStr (u "Medium")).

(** One iteration of the loop that groups the tasks. *)
Definition group_step (tasks_by_assignee : pydict (list task_dict))
           (task : task_dict) : res (pydict (list task_dict)) :=
  let assignee := get_assignee task in
  match py_hash assignee with
  | inl e => inl e
  | inr k =>
      let tasks_by_assignee :=
        match pd_lookup tasks_by_assignee k with
        | Some _ => tasks_by_assignee
        | None => pd_set tasks_by_assignee k assignee []
        end in
      match pd_item tasks_by_assignee k with
      | inl e => inl e
      | inr l => inr (pd_set tasks_by_assignee k assignee (l ++ [task]))
      end
  end.

Definition red_circle : str := [128308%N].
Definition yellow_circle : str := [128993%N].
Definition green_circle : str := [128994%N].
Definition white_circle : str := [9898%N].

Definition priority_colors : pydict str :=
  [ (KStr (u "High"), (JStr (u "High"), red_circle));
    (KStr (u "Medium"), (JStr (u "Medium"), yellow_circle));
    (KStr (u "Low"), (JStr (u "Low"), green_circle)) ].

(** [v == s] for a text [s]. *)
Definition eq_text (v : json) (s : str) : bool :=
  match v with
  | JStr t => str_eqb t s
  | _ => false
  end.

Definition border_color (priority : json) : str :=
  if eq_text priority (u "High") then u "#ff4444"
  else if eq_text priority (u "Medium") then u "#ffaa00"
  else u "#44ff44".

(** The card of a task in the column [idx]. *)
Definition show_task (idx : nat) (task : task_dict) : Screen unit :=
  let priority := get_priority task in
  k <~ raise_or (py_hash priority) ;;
  let priority_icon := pd_get priority_colors k white_circle in
  draw (Some idx)
       (w_card (border_color priority) priority_icon priority
               (dict_get task (u "task") (JStr (u "No task description")))).

Definition person : str := [128100%N; 32%N].

(** The column of an assignee. *)
Definition show_column (tasks_by_assignee : pydict (list task_dict))
           (column : nat * json) : Screen unit :=
  let (idx, assignee) := column in
  _ <~ draw (Some idx) (w_subheader [Text person; Value assignee]) ;;
  _ <~ draw (Some idx) (w_markdown [Text (u "---")]) ;;
  k <~ raise_or (py_hash assignee) ;;
  assignee_tasks <~ raise_or (pd_item tasks_by_assignee k) ;;
  for_each assignee_tasks (show_task idx).

Definition display_kanban_board (tasks : list task_dict) (allow_edit : bool)
  : Screen unit :=
  if negb (nonempty tasks)
  then draw None (w_info [Text (u "No tasks to display. Process a transcript to generate action items.")])
  else
    tasks_by_assignee <~ raise_or (fold_res group_step tasks []) ;;
    let assignees := List.map (fun entry => fst (snd entry)) tasks_by_assignee in
    if negb (nonempty assignees)
    then draw None (w_warning [Text (u "No assignees found in tasks.")])
    else
      _ <~ draw None (w_columns (List.length assignees)) ;;
      for_each (enumerate assignees) (show_column tasks_by_assignee).

(** One iteration of the loop that counts. *)
Definition count_step (counts : pydict nat * pydict nat) (task : task_dict)
  : res (pydict nat * pydict nat) :=
  let (assignee_counts, priority_counts) := counts in
  let assignee := get_assignee task in
  match py_hash assignee with
  | inl e => inl e
  | inr ka =>
      let assignee_counts :=
        pd_set assignee_counts ka assignee (pd_get assignee_counts ka 0 + 1) in
      let priority := get_priority task in
      match py_hash priority with
      | inl e => inl e
      | inr kp =>
          inr (assignee_counts,
               pd_set priority_counts kp priority
                      (pd_get priority_counts kp 0 + 1))
      end
  end.

Definition chart : str := [128202%N].

Definition no_assignees : pydict nat := [].

Definition no_counts : pydict nat :=
  [ (KStr (u "High"), (JStr (u "High"), 0));
    (KStr (u "Medium"), (JStr (u "Medium"), 0));
    (KStr (u "Low"), (JStr (u "Low"), 0)) ].

Definition display_tasks_summary (tasks : list task_dict) : Screen unit :=
  if negb (nonempty tasks) then pure tt
  else
    _ <~ draw None (w_subheader [Text (chart ++ u " Task Summary")]) ;;
    counts <~ raise_or (fold_res count_step tasks (no_assignees, no_counts)) ;;
    let (assignee_counts, priority_counts) := counts in
    _ <~ draw None (w_columns 3) ;;
    _ <~ draw (Some 0) (w_metric (u "Total Tasks") (List.length tasks)) ;;
    _ <~ draw (Some 1) (w_metric (u "Assignees") (List.length assignee_counts)) ;;
    high <~ raise_or (pd_item priority_counts (KStr (u "High"))) ;;
    draw (Some 2) (w_metric (u "High Priority") high).

(** An action item as the dictionary that [extract_action_items]
    builds. *)
Definition item_dict (a : action_item) : task_dict :=
  [ (u "assignee", assignee a); (u "task", task a); (u "priority", priority a) ].

(** [app.py], step 4: the summary and the board of the action items of
    the session, when there are some. *)
Definition show_board (action_items : list task_dict) : Screen unit :=
  if nonempty action_items
  then
    _ <~ draw None (w_header [Text (u "Step 4: Kanban Board")]) ;;
    _ <~ display_tasks_summary action_items ;;
    _ <~ draw None (w_markdown [Text (u "---")]) ;;
    display_kanban_board action_items true
  else pure tt.

(* ================================================================= *)
(** ** Python values in conditions and calls *)

(** [type(v).__name__] *)
Definition class_name (v : json) : string :=
  match v with
  | JNull => "NoneType"
  | JBool _ => "bool"
  | JInt _ => "int"
  | JFloat _ => "float"
  | JStr _ => "str"
  | JArr _ => "list"
  | JObj _ => "dict"
  end.

(** [bool(v)], the value as a condition. *)
Definition py_truthy (v : json) : bool :=
  match v with
  | JNull => false
  | JBool b => b
  | JInt z => negb (Z.eqb z 0)
  | JFloat lexeme => negb (pykey_eqb (float_key lexeme) (KNum 0))
  | JStr s => nonempty s
  | JArr elems => nonempty elems
  | JObj members => nonempty members
  end.

Definition no_attribute (v : json) (name : string) : exn :=
  PyException (u "AttributeError")
              (u "'" ++ u (class_name v) ++ u "' object has no attribute '"
                 ++ u name ++ u "'").

(** [v.get(key, default)]: only a dictionary has the method. *)
Definition py_get (v : json) (key : str) (default : json) : res json :=
  match v with
  | JObj d => inr (dict_get d key default)
  | _ => inl (no_attribute v "get")
  end.

(** A comprehension whose element expression can raise. *)
Fixpoint map_res {A B} (f : A -> res B) (l : list A) : res (list B) :=
  match l with
  | [] => inr []
  | x :: l' =>
      match f x with
      | inl e => inl e
      | inr y =>
          match map_res f l' with
          | inl e => inl e
          | inr ys => inr (y :: ys)
          end
      end
  end.

(** [try: body except Exception as e: handler] *)
Definition try_catch {S A} (body : Run S A) (handler : exn -> Run S A)
  : Run S A :=
  fun s =>
    match body s with
    | (inl e, s') => handler e s'
    | (inr v, s') => (inr v, s')
    end.

(* ================================================================= *)
(** ** utils/supabase_client.py *)

(** What the functions work with from outside: [get_supabase_client],
    which reads the environment and builds the client, the insertion of
    rows into the table tasks, and the data of the selection of the
    rows of a user; each of them returns or raises. *)
Record supabase : Type := Supabase {
  get_supabase_client : res unit;
  table_insert : list task_dict -> res unit;
  table_select : str -> res json
}.

(** The row of a task. *)
Definition task_row (user_id : str) (task : task_dict) : task_dict :=
  [ (u "user_id", JStr user_id);
    (u "assignee", dict_get task (u "assignee") (JStr (u "Unassigned")));
    (u "task", dict_get task (u "task") (JStr []));
    (u "priority", dict_get task (u "priority") (JStr (u "Medium"))) ].

Definition save_tasks (db : supabase) (user_id : str)
           (tasks_list : list task_dict) : Screen bool :=
  try_catch
    (_ <~ raise_or (get_supabase_client db) ;;
     let tasks_to_insert :=
       fold_left (fun rows task => rows ++ [task_row user_id task])
                 tasks_list [] in
     _ <~ raise_or (table_insert db tasks_to_insert) ;;
     pure true)
    (fun e =>
       _ <~ draw None (w_error [Text (u "Error saving tasks: "); Error e]) ;;
       pure false).

Definition fetch_tasks (db : supabase) (user_id : str) : Screen json :=
  try_catch
    (_ <~ raise_or (get_supabase_client db) ;;
     data <~ raise_or (table_select db user_id) ;;
     pure (if py_truthy data then data else JArr []))
    (fun e =>
       _ <~ draw None (w_error [Text (u "Error fetching tasks: "); Error e]) ;;
       pure (JArr [])).

(* ================================================================= *)
(** ** app.py: the button that loads the saved tasks *)

(** The action items of the session, and the page. *)
Record session : Type := Session {
  action_items : list task_dict;
  page : list shown
}.

Definition on_page {A} (m : Screen A) : Run session A :=
  fun s =>
    match m (page s) with
    | (r, page') => (r, Session (action_items s) page')
    end.

Definition set_action_items (items : list task_dict) : Run session unit :=
  fun s => (inr tt, Session items (page s)).

(** The dictionary that the comprehension makes of a row. *)
Definition to_action_item (task : json) : res task_dict :=
  match py_get task (u "assignee") (JStr (u "Unassigned")) with
  | inl e => inl e
  | inr a =>
      match py_get task (u "task") (JStr []) with
      | inl e => inl e
      | inr t =>
          match py_get task (u "priority") (JStr (u "Medium")) with
          | inl e => inl e
          | inr p => inr [ (u "assignee", a); (u "task", t); (u "priority", p) ]
          end
      end
  end.

(** What the button does, up to the rerun of the script. *)
Definition load_saved_tasks (db : supabase) (user_id : str)
  : Run session unit :=
  user_tasks <~ on_page (fetch_tasks db user_id) ;;
  if py_truthy user_tasks
  then
    rows <~ raise_or (py_iter user_tasks) ;;
    items <~ raise_or (map_res to_action_item rows) ;;
    _ <~ set_action_items items ;;
    on_page (draw None (w_success [ Text (u "Loaded ");
                                    Count (List.length rows);
                                    Text (u " saved task(s)") ]))
  else on_page (draw None (w_info [Text (u "No saved tasks found.")])).

(** The button that saves: [app.py], step 5. *)
Definition save_to_supabase (db : supabase) (user_id : str)
  : Run session unit :=
  fun s =>
    (saved <~ on_page (save_tasks db user_id (action_items s)) ;;
     if saved : bool
     then on_page (draw None (w_success [Text ([9989%N] ++ u " Tasks saved to Supabase!")]))
     else on_page (draw None (w_error [Text ([10060%N] ++ u " Failed to save tasks.")]))) s.

(* ================================================================= *)
(** ** utils/google_auth.py: the search of [list_drive_files] *)

Definition not_subscriptable (v : json) : exn :=
  PyException (u "TypeError")
              (u "'" ++ u (class_name v) ++ u "' object is not subscriptable").

(** [v[key]] for a text [key], and [v[0]]. *)
Definition py_item (v : json) (key : str) : res json :=
  match v with
  | JObj d =>
      match dict_lookup d key with
      | Some x => inr x
      | None => inl (PyException (u "KeyError") (u "'" ++ key ++ u "'"))
      end
  | JStr _ =>
      inl (PyException (u "TypeError")
             (u "string indices must be integers, not 'str'"))
  | JArr _ =>
      inl (PyException (u "TypeError")
             (u "list indices must be integers or slices, not str"))
  | _ => inl (not_subscriptable v)
  end.

Definition py_first (v : json) : res json :=
  match v with
  | JArr (x :: _) => inr x
  | JArr [] => inl (PyException (u "IndexError") (u "list index out of range"))
  | JStr (c :: _) => inr (JStr [c])
  | JStr [] => inl (PyException (u "IndexError") (u "string index out of range"))
  | JObj _ => inl (PyException (u "KeyError") (u "0"))
  | _ => inl (not_subscriptable v)
  end.

(** A part of a query.  The parts are joined with [and]; a part that is
    formatted from values stands with the values. *)
Inductive clause : Type :=
| q_text (body : str)
| q_name (meeting_code code_clean : str)
| q_from (start_date : str)
| q_until (end_date : str)
| q_parent (folder_id : json).

(** The arguments of [service.files().list]. *)
Record request : Type := Request {
  rq_query : list clause;
  rq_page_size : nat;
  rq_fields : str;
  rq_order_by : option str
}.

(** The Drive service: what [execute] returns or raises for a request.
    The state of the search is its two variables, the requests sent so
    far and what has been drawn. *)
Record drive : Type := Drive {
  drive_execute : request -> res json
}.

Record search_state : Type := SearchState {
  all_files : list json;
  seen_file_ids : list pykey;
  sent : list request;
  drawn : list shown
}.

Definition files_list (service : drive) (rq : request) : Run search_state json :=
  fun s =>
    (drive_execute service rq,
     SearchState (all_files s) (seen_file_ids s) (sent s ++ [rq]) (drawn s)).

Definition warn (body : list part) : Run search_state unit :=
  fun s =>
    (inr tt,
     SearchState (all_files s) (seen_file_ids s) (sent s)
                 (drawn s ++ [(None, w_warning body)])).

(** The body of the two loops over the files found. *)
Definition add_file (file : json) : Run search_state unit :=
  id <~ raise_or (py_item file (u "id")) ;;
  k <~ raise_or (py_hash id) ;;
  fun s =>
    if existsb (pykey_eqb k) (seen_file_ids s) then (inr tt, s)
    else (inr tt,
          SearchState (all_files s ++ [file]) (seen_file_ids s ++ [k])
                      (sent s) (drawn s)).

Definition collect (results : json) : Run search_state unit :=
  found_files <~ raise_or (py_get results (u "files") (JArr [])) ;;
  files <~ raise_or (py_iter found_files) ;;
  for_each files add_file.

Definition mime_document : clause :=
  q_text (u "mimeType='application/vnd.google-apps.document'").

Definition not_trashed : clause := q_text (u "trashed=false").

(** The filters of the meeting code and of the dates. *)
Definition filters (meeting_code start_date end_date : option str)
  : list clause :=
  match meeting_code with
  | Some code =>
      if truthy code && truthy (strip code)
      then [q_name code (replace_char 45%N [] (strip code))]
      else []
  | None => []
  end ++
  match start_date with
  | Some d => if truthy d then [q_from d] else []
  | None => []
  end ++
  match end_date with
  | Some d => if truthy d then [q_until d] else []
  | None => []
  end.

Definition file_fields : str := u "files(id, name, modifiedTime, mimeType)".

Definition global_request (meeting_code start_date end_date : option str)
  : request :=
  Request ([mime_document; not_trashed]
             ++ filters meeting_code start_date end_date)
          100 file_fields (Some (u "modifiedTime desc")).

Definition folder_lookup : request :=
  Request [q_text (u "name='Meet Recordings' and mimeType='application/vnd.google-apps.folder' and trashed=false")]
          10 (u "files(id, name)") None.

Definition folder_request (folder_id : json)
           (meeting_code start_date end_date : option str) : request :=
  Request ([q_parent folder_id; mime_document; not_trashed]
             ++ filters meeting_code start_date end_date)
          100 file_fields (Some (u "modifiedTime desc")).

(** The first [try] statement: the search in all of the drive. *)
Definition global_search (service : drive)
           (meeting_code start_date end_date : option str)
  : Run search_state unit :=
  try_catch
    (results <~ files_list service
                  (global_request meeting_code start_date end_date) ;;
     collect results)
    (fun e => warn [Text (u "Global search failed: "); Error e]).

(** The second one: the search in the folder Meet Recordings. *)
Definition folder_search (service : drive)
           (meeting_code start_date end_date : option str)
  : Run search_state unit :=
  try_catch
    (folder_results <~ files_list service folder_lookup ;;
     folders <~ raise_or (py_get folder_results (u "files") (JArr [])) ;;
     if py_truthy folders
     then
       folder <~ raise_or (py_first folders) ;;
       folder_id <~ raise_or (py_item folder (u "id")) ;;
       folder_results <~ files_list service
                           (folder_request folder_id meeting_code
                                           start_date end_date) ;;
       collect folder_results
     else pure tt)
    (fun e s =>
       if negb (nonempty (all_files s))
       then warn [Text (u "Search in 'Meet Recordings' folder failed: ");
                  Error e] s
       else pure tt s).

(** [list_drive_files] from the service on: what its [try] statement
    does once [build] has returned. *)
Definition search_files (service : drive)
           (meeting_code start_date end_date : option str)
  : Run search_state (list json) :=
  fun s0 =>
    (_ <~ global_search service meeting_code start_date end_date ;;
     fun s =>
       (_ <~ (if negb (nonempty (all_files s)) || truthy_opt meeting_code
              then folder_search service meeting_code start_date end_date
              else pure tt) ;;
        fun s' => (inr (all_files s'), s')) s)
      (SearchState [] [] (sent s0) (drawn s0)).

(* ================================================================= *)
(** ** utils/google_auth.py: [list_drive_files] *)

(** [build], which returns the service or raises, and the two
    attributes of an [HttpError] that the function reads:
    [error_details] and [resp.status]. *)
Record drive_api : Type := DriveApi {
  build : res drive;
  error_details : exn -> json;
  resp_status : exn -> Z
}.

Definition isinstance_HttpError (e : exn) : bool :=
  match e with
  | PyException cls _ => str_eqb cls (u "HttpError")
  | JSONDecodeError _ => false
  end.

Definition note (w : widget) : Run search_state unit :=
  fun s =>
    (inr tt,
     SearchState (all_files s) (seen_file_ids s) (sent s)
                 (drawn s ++ [(None, w)])).

(** [try: body except C1 as e: h1 ... except Cn as e: hn] *)
Definition try_clauses {S A} (body : Run S A)
           (clauses : list ((exn -> bool) * (exn -> Run S A))) : Run S A :=
  fun s =>
    match body s with
    | (inr v, s') => (inr v, s')
    | (inl e, s') =>
        match find (fun cl => fst cl e) clauses with
        | Some cl => snd cl e s'
        | None => (inl e, s')
        end
    end.

(** The two characters that the source file has where a cross mark was
    meant, and the four where a light bulb was. *)
Definition cross : str := [226%N; 338%N].
Definition bulb : str := [240%N; 376%N; 8217%N; 161%N].

(** [error_details.get('message', str(error))] as a part of a text. *)
Definition message_of (error_details : json) (error : exn) : res part :=
  match error_details with
  | JObj d =>
      inr (match dict_lookup d (u "message") with
           | Some v => Value v
           | None => Error error
           end)
  | _ => inl (no_attribute error_details "get")
  end.

(** [except HttpError as error] *)
Definition on_http_error (api : drive_api) (error : exn)
  : Run search_state (option (list json)) :=
  error_details <~ raise_or (if py_truthy (error_details api error)
                             then py_first (error_details api error)
                             else inr (JObj [])) ;;
  error_reason <~ raise_or (py_get error_details (u "reason")
                                   (JStr (u "unknown"))) ;;
  error_message <~ raise_or (message_of error_details error) ;;
  _ <~ (if Z.eqb (resp_status api error) 403
        then
          _ <~ note (w_error [Text (cross ++ u " Access Denied (403): ");
                              error_message]) ;;
          _ <~ note (w_error [Text (u "Reason: "); Value error_reason]) ;;
          note (w_info [Text (bulb ++ u " Please ensure you have granted the necessary permissions to access Google Drive.")])
        else
          note (w_error [Text (cross ++ u " Error fetching files: ");
                         error_message;
                         Text (u " (Status: ");
                         Value (JInt (resp_status api error));
                         Text (u ")")])) ;;
  pure None.

(** [except Exception as error] *)
Definition on_unexpected (error : exn)
  : Run search_state (option (list json)) :=
  _ <~ note (w_error [Text (cross ++ u " Unexpected error: "); Error error]) ;;
  pure None.

Definition list_drive_files (api : drive_api)
           (meeting_code start_date end_date : option str)
  : Run search_state (option (list json)) :=
  try_clauses
    (service <~ raise_or (build api) ;;
     files <~ search_files service meeting_code start_date end_date ;;
     pure (Some files))
    [ (isinstance_HttpError, on_http_error api);
      (isinstance_Exception, on_unexpected) ].

(* ================================================================= *)
(** ** components/drive_connector.py *)

Definition check_mark : str := [9989%N].
Definition warning_sign : str := [9888%N; 65039%N].
Definition light_bulb : str := [128161%N].

(** [fetch_transcripts]; [creds] says whether there are credentials. *)
Definition fetch_transcripts (api : drive_api) (creds : bool)
           (meeting_code start_date end_date : option str)
  : Run search_state (list json) :=
  if negb creds
  then raise_or (inl (PyException (u "ValueError")
                        (u "Please connect to Google Drive first.")))
  else
    _ <~ note (w_spinner [Text (u "Searching for transcripts...")]) ;;
    files <~ list_drive_files api meeting_code start_date end_date ;;
    match files with
    | None =>
        raise_or (inl (PyException (u "Exception")
                         (u "Failed to fetch transcripts. See error message above.")))
    | Some files =>
        if nonempty files
        then
          _ <~ note (w_success [Text (check_mark ++ u " Found ");
                                Count (List.length files);
                                Text (u " transcript(s)")]) ;;
          pure files
        else
          _ <~ note (w_warning [Text (warning_sign ++ u " No transcripts found matching your criteria.")]) ;;
          _ <~ (match meeting_code with
                | Some code =>
                    if truthy code
                    then note (w_info [Text (light_bulb ++ u " No transcripts found with meeting code: ");
                                       Text code])
                    else pure tt
                | None => pure tt
                end) ;;
          _ <~ (if truthy_opt start_date || truthy_opt end_date
                then note (w_info [Text (light_bulb ++ u " Try adjusting the date range or removing date filters.")])
                else pure tt) ;;
          pure []
    end.

(* ================================================================= *)
(** ** app.py: the button that searches *)

(** The transcripts of the session, and the state of the search. *)
Record search_page : Type := SearchPage {
  transcripts : list json;
  search : search_state
}.

Definition on_search {A} (m : Run search_state A) : Run search_page A :=
  fun pg =>
    match m (search pg) with
    | (r, s') => (r, SearchPage (transcripts pg) s')
    end.

Definition set_transcripts (files : list json) : Run search_page unit :=
  fun pg => (inr tt, SearchPage files (search pg)).

(** What leaves a statement of the script: an exception derived from
    [Exception], or the [RerunException] that [st.rerun()] raises.
    This one is derived from [BaseException] and not from [Exception],
    so [except Exception] does not catch it. *)
Inductive raised : Type :=
| Raised (e : exn)
| RerunException.

(** A statement of the script returns, or something leaves it. *)
Definition Script (S A : Type) : Type := S -> (raised + A) * S.

Definition done {S A} (v : A) : Script S A := fun s => (inr v, s).

Definition script {S A} (m : Run S A) : Script S A :=
  fun s =>
    match m s with
    | (inl e, s') => (inl (Raised e), s')
    | (inr v, s') => (inr v, s')
    end.

Definition next {S A B} (m : Script S A) (f : A -> Script S B) : Script S B :=
  fun s =>
    match m s with
    | (inl x, s') => (inl x, s')
    | (inr v, s') => f v s'
    end.

(** [st.rerun()] *)
Definition st_rerun {S} : Script S unit := fun s => (inl RerunException, s).

(** [try: body except Exception as e: handler] in the script. *)
Definition except_Exception {S A} (body : Script S A)
           (handler : exn -> Script S A) : Script S A :=
  fun s =>
    match body s with
    | (inl (Raised e), s') => handler e s'
    | (inl RerunException, s') => (inl RerunException, s')
    | (inr v, s') => (inr v, s')
    end.

(** What the button does. *)
Definition search_transcripts (api : drive_api) (google_creds : bool)
           (meeting_code : str) (start_datetime_str end_datetime_str : option str)
  : Script search_page unit :=
  except_Exception
    (next (script (on_search
                     (fetch_transcripts api google_creds
                        (if truthy meeting_code
                         then Some (strip meeting_code) else None)
                        start_datetime_str end_datetime_str)))
       (fun transcripts =>
          next (script (set_transcripts transcripts))
            (fun _ => if nonempty transcripts then st_rerun else done tt)))
    (fun e => done tt).

(* ================================================================= *)
(** ** Vocabulary of the properties *)

(** A text ends in a character which is not white space. *)
Definition ends_solid (s : str) : Prop :=
  exists r c, s = r ++ [c] /\ is_space c = false.

(** What it means for a pattern to match from one state to another,
    without any order among the alternatives. *)
Inductive matches (at_start : bool) : regex -> mstate -> mstate -> Prop :=
| M_Cls p c s n g :
    p c = true ->
    matches at_start (Cls p) (MState n (c :: s) g) (MState (S n) s g)
| M_Cat a b st1 st2 st3 :
    matches at_start a st1 st2 -> matches at_start b st2 st3 ->
    matches at_start (Cat a b) st1 st3
| M_Opt_taken a st st' :
    matches at_start a st st' -> matches at_start (Opt a) st st'
| M_Opt_skipped a st : matches at_start (Opt a) st st
| M_Many p w s n g :
    forallb p w = true ->
    matches at_start (Many p) (MState n (w ++ s) g)
            (MState (n + List.length w) s g)
| M_Grp i a st st' :
    matches at_start a st st' ->
    matches at_start (Grp i a) st
            (MState (m_pos st') (m_rest st')
               ((i, firstn (m_pos st' - m_pos st) (m_rest st)) :: m_groups st'))
| M_Bos st : at_start = true -> m_pos st = 0 -> matches at_start Bos st st
| M_Eos st :
    m_rest st = [] \/ m_rest st = [10%N] -> matches at_start Eos st st.

(** A turn as the parser is to emit it, and the two invariants of the
    loop. *)
Definition turn_ok (t : turn) : Prop :=
  speaker t <> [] /\ text t <> [] /\
  (speaker t = u "Unknown" \/
   exists c r, speaker t = c :: r /\ is_upper_az c = true).

Definition pstate_ok (st : pstate) : Prop :=
  Forall turn_ok (parsed st) /\
  forall sp, current_speaker st = Some sp ->
    (exists c r, sp = c :: r /\ is_upper_az c = true) /\
    exists t ts, current_text st = t :: ts /\ t <> [].

Definition has_content (st : pstate) : Prop :=
  truthy_opt (current_speaker st) && nonempty (current_text st) = true \/
  parsed st <> [].

(** The forms [H:MM], [HH:MM], [H:MM:SS] and [HH:MM:SS]. *)
Inductive hours : str -> Prop :=
| hours_1 d : is_digit d = true -> hours [d]
| hours_2 d e : is_digit d = true -> is_digit e = true -> hours [d; e].

Inductive clock : str -> Prop :=
| clock_hm h m1 m2 :
    hours h -> is_digit m1 = true -> is_digit m2 = true ->
    clock (h ++ [colon; m1; m2])
| clock_hms h m1 m2 s1 s2 :
    hours h -> is_digit m1 = true -> is_digit m2 = true ->
    is_digit s1 = true -> is_digit s2 = true ->
    clock (h ++ [colon; m1; m2; colon; s1; s2]).

(** A text contains a timestamp; a text has no two white space
    characters in a row. *)
Definition has_timestamp (s : str) : Prop :=
  exists a t b, s = a ++ t ++ b /\ clock t.

Definition no_space_run (s : str) : Prop :=
  forall a c1 c2 b, s = a ++ c1 :: c2 :: b ->
                    is_space c1 = true -> is_space c2 = true -> False.

(** A pattern without [^]; the length of the white space at the head of
    a text; a text whose white space is single spaces between other
    characters. *)
Fixpoint bos_free (r : regex) : bool :=
  match r with
  | Cat a b => bos_free a && bos_free b
  | Opt a => bos_free a
  | Grp _ a => bos_free a
  | Bos => false
  | _ => true
  end.

Fixpoint lead (s : str) : nat :=
  match s with
  | c :: s' => if is_space c then S (lead s') else 0
  | [] => 0
  end.

Fixpoint tidy (s : str) : bool :=
  match s with
  | [] => true
  | c :: s' =>
      (if is_space c
       then N.eqb c 32 &&
            match s' with [] => true | d :: _ => negb (is_space d) end
       else true) && tidy s'
  end.

(** A timestamp with a white space character behind it. *)
Definition stamp (ts : str) : Prop :=
  exists t w, clock t /\ is_space w = true /\ ts = t ++ [w].

(** The pass that removes the timestamps, said without the pattern: from
    left to right, a timestamp with the white space character behind it
    is left out where one starts, and the character is kept where none
    starts. *)
Inductive stamps_removed : str -> str -> Prop :=
| removed_nil : stamps_removed [] []
| removed_stamp ts rest out :
    stamp ts -> stamps_removed rest out -> stamps_removed (ts ++ rest) out
| removed_keep c rest out :
    (forall ts rest', stamp ts -> c :: rest <> ts ++ rest') ->
    stamps_removed rest out -> stamps_removed (c :: rest) (c :: out).

Definition solid_head (s : str) : Prop :=
  match s with [] => True | c :: _ => is_space c = false end.

(** The three passes of [clean_transcript]. *)
Definition clean_passes (raw_text : str) : str :=
  strip (replace_char form_feed (u " ")
           (re_sub ws_run (u " ") (re_sub timestamp_body [] raw_text))).

(** The element passes validation. *)
Definition kept (item : json) : bool :=
  match item with
  | JObj d => dict_has d (u "task")
  | _ => false
  end.

(** What a kept element is emitted as. *)
Definition emitted (item : json) : action_item :=
  match item with
  | JObj d =>
      ActionItem
        (match dict_lookup d (u "assignee") with
         | Some v => v
         | None => JStr (u "Unassigned")
         end)
        (match dict_lookup d (u "task") with
         | Some v => v
         | None => JStr []
         end)
        (match dict_lookup d (u "priority") with
         | Some v => v
         | None => JStr (u "Medium")
         end)
  | _ => ActionItem JNull JNull JNull
  end.

(** What is raised inside the [try] statement of
    [extract_action_items] on the text [t]: by [initialize_gemini], by
    the call of the model, by [json.loads] on the payload, or by the
    loop over a value that is not iterable. *)
Inductive raised_inside (env : environment) (t : str) : exn -> Prop :=
| by_setup e :
    initialize_gemini env = inl e -> raised_inside env t e
| by_call e :
    initialize_gemini env = inr tt ->
    generate_content env (make_prompt t) = inl e ->
    raised_inside env t e
| by_parser resp e :
    initialize_gemini env = inr tt ->
    generate_content env (make_prompt t) = inr resp ->
    json_loads (recursion_headroom env) (unwrap (strip resp)) = inl e ->
    raised_inside env t e
| by_loop resp v e :
    initialize_gemini env = inr tt ->
    generate_content env (make_prompt t) = inr resp ->
    json_loads (recursion_headroom env) (unwrap (strip resp)) = inr v ->
    py_iter v = inl e ->
    raised_inside env t e.

(** The words that stand before an exception in the diagnostic. *)
Definition shown_as (e : exn) : str :=
  if isinstance_JSONDecodeError e then parse_failed else call_failed.

(** A response of 1500 opening brackets. *)
Definition deep_response : str := repeat 91%N 1500.

(** [sep] occurs in [s] at index [j]; its first occurrence; no
    occurrence; the part of [s] before the first occurrence, or all of
    [s] when there is none. *)
Definition occurs_at (sep s : str) (j : nat) : Prop :=
  startswith sep (skipn j s) = true.

Definition first_occ (sep s : str) (i : nat) : Prop :=
  occurs_at sep s i /\ forall j, j < i -> ~ occurs_at sep s j.

Definition absent (sep s : str) : Prop := forall j, ~ occurs_at sep s j.

Definition cut (sep s q : str) : Prop :=
  (exists i, first_occ sep s i /\ q = firstn i s) \/ (absent sep s /\ q = s).

(** A scanner takes at least one character when it returns a value,
    and does not use up the fuel of the loops. *)
Definition well_behaved (scan : str -> res (json * str)) : Prop :=
  (forall s v r, scan s = inr (v, r) -> List.length r < List.length s) /\
  (forall s, scan s <> inl fuel_spent).

(** [s.find(sep)], with [None] for -1. *)
Fixpoint find_sub (sep s : str) : option nat :=
  if startswith sep s then Some 0
  else match s with
       | [] => None
       | _ :: s' => option_map S (find_sub sep s')
       end.

Definition str_lt (a b : str) : Prop := str_ltb a b = true.

(** The lines as the loop of [parse_transcript] works on them: trimmed,
    not blank, and without their leading timestamp. *)
Definition seen_lines (raw_text : str) : list str :=
  List.map drop_timestamp (filter truthy (List.map strip (split raw_text nl))).

(** The name and the text of a speaker header, for a line that is one. *)
Definition header (line : str) : option (str * str) :=
  match re_match speaker_pattern line with
  | Some m => Some (strip (group m 1), strip (group m 2))
  | None => None
  end.

(** The turns read off the lines from the last line to the first: a
    header closes a turn with the lines that follow it; the lines before
    the first header make the turn of Unknown. *)
Definition attach (line : str) (acc : list str * list turn)
  : list str * list turn :=
  match header line with
  | Some (name, t) => ([], Turn name (join (u " ") (t :: fst acc)) :: snd acc)
  | None => (line :: fst acc, snd acc)
  end.

Definition blocks (lines : list str) : list turn :=
  match fold_right attach ([], []) lines with
  | ([], turns) => turns
  | (loose, turns) => Turn (u "Unknown") (join (u " ") loose) :: turns
  end.

(** What the loop does with a line it works on. *)
Definition see (st : pstate) (line : str) : pstate :=
  match re_match speaker_pattern line with
  | Some m =>
      PState (flush st) (Some (strip (group m 1))) [strip (group m 2)]
  | None =>
      if truthy_opt (current_speaker st)
      then PState (parsed st) (current_speaker st) (current_text st ++ [line])
      else if nonempty (parsed st)
      then PState (extend_last (parsed st) line) (current_speaker st)
                  (current_text st)
      else PState (parsed st ++ [Turn (u "Unknown") line])
                  (current_speaker st) (current_text st)
  end.

(** The speakers and the text a list of lines has to give. *)
Definition header_names (lines : list str) : list str :=
  flat_map (fun l => match header l with
                     | Some (name, _) => [name]
                     | None => []
                     end) lines.

Definition leading_unknown (lines : list str) : list str :=
  match lines with
  | [] => []
  | l :: _ => match header l with
              | Some _ => []
              | None => [u "Unknown"]
              end
  end.

Definition content (line : str) : str :=
  match header line with
  | Some (_, t) => t
  | None => line
  end.

(** The texts of the turns, from the state of the reading. *)
Definition pieces (acc : list str * list turn) : list str :=
  match fst acc with
  | [] => List.map text (snd acc)
  | loose => join (u " ") loose :: List.map text (snd acc)
  end.

(** A character that is not white space; a text without digits; a text
    in which no timestamp with white space behind it starts. *)
Definition is_solid (c : char) : bool := negb (is_space c).

Definition no_digit (s : str) : bool := forallb (fun c => negb (is_digit c)) s.

Definition no_stamp (s : str) : Prop :=
  forall pre ts post, s = pre ++ ts ++ post -> ~ stamp ts.

(** No match of the timestamp pattern from any position of the text. *)
Fixpoint stamp_free (s : str) : bool :=
  match match_at false timestamp_body s with
  | Some _ => false
  | None => match s with
            | [] => true
            | _ :: s' => stamp_free s'
            end
  end.

(** The backquote, and a text without one. *)
Definition tick : char := 96%N.

Definition no_tick (s : str) : bool := forallb (fun c => negb (N.eqb c tick)) s.

(** A value that can be a key; the key of the assignee of a task. *)
Definition hashable (v : json) : bool :=
  match v with
  | JArr _ | JObj _ => false
  | _ => true
  end.

Definition key_of (v : json) : pykey :=
  match py_hash v with
  | inr k => k
  | inl _ => KNone
  end.

Definition akey (task : task_dict) : pykey := key_of (get_assignee task).

Definition presentable (task : task_dict) : bool :=
  hashable (get_assignee task) && hashable (get_priority task).

(** The keys of a list in the order in which they come first. *)
Definition first_seen (keys : list pykey) : list pykey :=
  fold_left (fun seen k => if existsb (pykey_eqb k) seen then seen
                           else seen ++ [k]) keys [].

(** The columns of the board: for every assignee, in the order in which
    the assignees come first, the assignee as the first of its tasks
    has it and its tasks in their order. *)
Definition with_key (k : pykey) (tasks : list task_dict) : list task_dict :=
  filter (fun t => pykey_eqb (akey t) k) tasks.

Definition column_of (tasks : list task_dict) (k : pykey)
  : pykey * (json * list task_dict) :=
  (k, (match with_key k tasks with
       | t :: _ => get_assignee t
       | [] => JNull
       end,
       with_key k tasks)).

Definition columns (tasks : list task_dict) : pydict (list task_dict) :=
  List.map (column_of tasks) (first_seen (List.map akey tasks)).

(** The widgets of a card and of a column. *)
Definition card (idx : nat) (task : task_dict) : shown :=
  (Some idx,
   w_card (border_color (get_priority task))
          (pd_get priority_colors (key_of (get_priority task)) white_circle)
          (get_priority task)
          (dict_get task (u "task") (JStr (u "No task description")))).

Definition column_widgets (column : nat * (pykey * (json * list task_dict)))
  : list shown :=
  let idx := fst column in
  (Some idx, w_subheader [Text person; Value (fst (snd (snd column)))])
    :: (Some idx, w_markdown [Text (u "---")])
    :: List.map (card idx) (snd (snd (snd column))).

Definition board (tasks : list task_dict) : list shown :=
  (None, w_columns (List.length (columns tasks)))
    :: List.concat (List.map column_widgets (enumerate (columns tasks))).

(** A task of high priority. *)
Definition is_high (task : task_dict) : bool :=
  eq_text (get_priority task) (u "High").

(** What the summary draws. *)
Definition summary (tasks : list task_dict) : list shown :=
  [ (None, w_subheader [Text (chart ++ u " Task Summary")]);
    (None, w_columns 3);
    (Some 0, w_metric (u "Total Tasks") (List.length tasks));
    (Some 1, w_metric (u "Assignees") (List.length (columns tasks)));
    (Some 2, w_metric (u "High Priority") (List.length (filter is_high tasks))) ].

(** Four tasks: two of Ann, and two whose assignees are equal as
    numbers. *)
Definition sample_tasks : list task_dict :=
  [ item_dict (ActionItem (JStr (u "Ann")) (JStr (u "Book room"))
                          (JStr (u "High")));
    item_dict (ActionItem (JInt 1) (JStr (u "Send notes")) (JStr (u "Low")));
    item_dict (ActionItem (JStr (u "Ann")) (JStr (u "Call Bob")) JNull);
    item_dict (ActionItem (JFloat (u "1.0")) (JStr (u "Pay"))
                          (JStr (u "High"))) ].

(** A response of the model whose one action item has two assignees. *)
Definition shared_task_response : str :=
  uq "[{'task': 'Call the client', 'assignee': ['Ann', 'Bob']}]".

(** A row that the table gives back for a row that was inserted: a
    dictionary with the three columns as they were inserted, and any
    other columns. *)
Definition gives_back (fetched : json) (inserted : task_dict) : Prop :=
  exists d, fetched = JObj d /\
            dict_lookup d (u "assignee") = dict_lookup inserted (u "assignee") /\
            dict_lookup d (u "task") = dict_lookup inserted (u "task") /\
            dict_lookup d (u "priority") = dict_lookup inserted (u "priority").

(** A database that takes every row and adds an [id] to it. *)
Definition sample_db (stored : list json) : supabase :=
  Supabase (inr tt) (fun _ => inr tt) (fun _ => inr (JArr stored)).

(** A database that cannot be reached. *)
Definition no_db : supabase :=
  Supabase (inl (PyException (u "ValueError")
                   (u "Environment variable SUPABASE_URL is not set")))
           (fun _ => inr tt) (fun _ => inr (JArr [])).

(** The identifier of a file as a key, and the files of a list whose
    identifier has not come before. *)
Definition id_key (file : json) : pykey :=
  match py_item file (u "id") with
  | inr id => key_of id
  | inl _ => KNone
  end.

Definition has_id (file : json) : Prop :=
  exists id, py_item file (u "id") = inr id /\ hashable id = true.

Definition dedupe (files : list json) : list json :=
  fold_left (fun kept file =>
               if existsb (pykey_eqb (id_key file)) (List.map id_key kept)
               then kept else kept ++ [file])
            files [].

(** What the search has established at any moment. *)
Definition search_ok (s : search_state) : Prop :=
  List.map id_key (all_files s) = seen_file_ids s /\
  NoDup (seen_file_ids s) /\
  Forall has_id (all_files s).

(** The files kept when the files found are added to those kept so
    far. *)
Definition extend (kept found : list json) : list json :=
  fold_left (fun kept file =>
               if existsb (pykey_eqb (id_key file)) (List.map id_key kept)
               then kept else kept ++ [file])
            found kept.

(** The service answers a request with the files [found]. *)
Definition answers (service : drive) (rq : request) (found : list json)
  : Prop :=
  exists d, drive_execute service rq = inr (JObj d) /\
            dict_get d (u "files") (JArr []) = JArr found.

(** A computation that keeps what the search has established, and one
    that does not raise. *)
Definition keeps {A} (m : Run search_state A) : Prop :=
  forall s, search_ok s -> search_ok (snd (m s)).

Definition calm {S A} (m : Run S A) : Prop :=
  forall s, exists v, fst (m s) = inr v.

(** A drive with two documents, one of them also in the folder Meet
    Recordings together with a third. *)
Definition doc (id name : string) : json :=
  JObj [(u "id", JStr (u id)); (u "name", JStr (u name))].

Definition sample_drive : drive :=
  Drive (fun rq =>
           match rq_query rq with
           | q_parent _ :: _ =>
               inr (JObj [(u "files",
                           JArr [doc "b" "Standup"; doc "c" "Retro"])])
           | [q_text _] =>
               inr (JObj [(u "files", JArr [doc "f1" "Meet Recordings"])])
           | _ =>
               inr (JObj [(u "files",
                           JArr [doc "a" "Kickoff"; doc "b" "Standup";
                                 doc "a" "Kickoff"])])
           end).

(** An API whose service is [service], and one whose [build] raises
    [e], an [HttpError] with the details [details] and the status
    [status]. *)
Definition api_of (service : drive) : drive_api :=
  DriveApi (inr service) (fun _ => JStr []) (fun _ => 200%Z).

Definition failing_api (e : exn) (details : json) (status : Z) : drive_api :=
  DriveApi (inl e) (fun _ => details) (fun _ => status).

Definition quota_error : exn :=
  PyException (u "HttpError") (u "<HttpError 403 Rate Limit Exceeded>").

(* ================================================================= *)
(** ** Properties of the text functions *)

Arguments is_space : simpl never.
Arguments is_digit : simpl never.

Lemma lstrip_split (s : str) :
  exists p, s = p ++ lstrip s /\ forallb is_space p = true.
Proof.
  induction s as [|c s IH]; simpl.
  - exists []. auto.
  - destruct (is_space c) eqn:E.
    + destruct IH as [p [H1 H2]]. exists (c :: p). simpl.
      rewrite E, H2. split; [congruence | reflexivity].
    + exists []. auto.
Qed.

Lemma lstrip_head (s : str) (c : char) (r : str) :
  lstrip s = c :: r -> is_space c = false.
Proof.
  induction s as [|a s IH]; simpl; [discriminate|].
  destruct (is_space a) eqn:E; [exact IH|].
  intros H. injection H as <- _. exact E.
Qed.

Lemma lstrip_nil (s : str) : lstrip s = [] <-> forallb is_space s = true.
Proof.
  induction s as [|a s IH]; simpl; [tauto|].
  destruct (is_space a); simpl; [exact IH|].
  split; discriminate.
Qed.

Lemma lstrip_fixed (s : str) (c : char) (r : str) :
  s = c :: r -> is_space c = false -> lstrip s = s.
Proof. intros -> H. simpl. now rewrite H. Qed.

Lemma rstrip_split (s : str) :
  exists q, s = rstrip s ++ q /\ forallb is_space q = true.
Proof.
  unfold rstrip. destruct (lstrip_split (rev s)) as [p [H1 H2]].
  exists (rev p). split.
  - rewrite <- rev_app_distr, <- H1. now rewrite rev_involutive.
  - rewrite forallb_forall in *. intros x Hx. apply H2. now apply in_rev.
Qed.

Lemma rstrip_last (s r : str) (c : char) :
  rstrip s = r ++ [c] -> is_space c = false.
Proof.
  unfold rstrip. intros H.
  apply (f_equal (@rev char)) in H.
  rewrite rev_involutive, rev_app_distr in H. simpl in H.
  eapply lstrip_head; eauto.
Qed.

Lemma rstrip_nil (s : str) : rstrip s = [] <-> forallb is_space s = true.
Proof.
  unfold rstrip. split; intros H.
  - apply (f_equal (@rev char)) in H. rewrite rev_involutive in H. simpl in H.
    apply lstrip_nil in H. rewrite forallb_forall in *.
    intros x Hx. apply H. now apply in_rev in Hx.
  - assert (lstrip (rev s) = []) as ->; [|reflexivity].
    apply lstrip_nil. rewrite forallb_forall in *.
    intros x Hx. apply H. now apply in_rev.
Qed.

Lemma strip_split (s : str) :
  exists p q, s = p ++ strip s ++ q /\
              forallb is_space p = true /\ forallb is_space q = true.
Proof.
  destruct (lstrip_split s) as [p [H1 H2]].
  destruct (rstrip_split (lstrip s)) as [q [H3 H4]].
  exists p, q. unfold strip. rewrite <- H3. auto.
Qed.

Lemma strip_nil (s : str) : strip s = [] <-> forallb is_space s = true.
Proof.
  unfold strip. rewrite rstrip_nil. split; intros H.
  - destruct (lstrip_split s) as [p [H1 H2]].
    rewrite H1, forallb_app, H2, H. reflexivity.
  - destruct (lstrip_split s) as [p [H1 H2]].
    rewrite H1, forallb_app in H. now apply andb_prop in H.
Qed.

Lemma strip_last (s r : str) (c : char) :
  strip s = r ++ [c] -> is_space c = false.
Proof. unfold strip. apply rstrip_last. Qed.

Lemma strip_head (s : str) (c : char) (r : str) :
  strip s = c :: r -> is_space c = false.
Proof.
  unfold strip. intros H.
  destruct (rstrip_split (lstrip s)) as [q [H1 _]].
  rewrite H in H1. simpl in H1. eapply lstrip_head; eauto.
Qed.

(** A text that contains a character which is not white space does not
    trim to the empty text. *)
Lemma strip_keeps (a b : str) (c : char) :
  is_space c = false -> strip (a ++ c :: b) <> [].
Proof.
  intros H E. apply strip_nil in E.
  rewrite forallb_app in E. simpl in E. rewrite H in E.
  rewrite andb_false_r in E. discriminate.
Qed.

Lemma last_cases {A} (l : list A) : l = [] \/ exists r x, l = r ++ [x].
Proof.
  destruct l as [|a l]; [now left|right].
  destruct (exists_last (l:=a :: l)) as [r [x E]]; [discriminate|eauto].
Qed.

Lemma strip_ends_solid (s : str) : strip s <> [] -> ends_solid (strip s).
Proof.
  intros H. destruct (last_cases (strip s)) as [E | [r [c E]]]; [contradiction|].
  exists r, c. split; [exact E|]. eapply strip_last; eauto.
Qed.

Lemma ends_solid_strip (s : str) : ends_solid s -> strip s <> [].
Proof. intros [r [c [-> H]]]. now apply strip_keeps. Qed.

Lemma ends_solid_suffix (a b : str) :
  ends_solid (a ++ b) -> b <> [] -> ends_solid b.
Proof.
  intros [r [c [E H]]] Hb.
  destruct (last_cases b) as [-> | [r' [c' ->]]]; [contradiction|].
  rewrite app_assoc in E. apply app_inj_tail in E. destruct E as [_ ->].
  exists r', c. auto.
Qed.

(* ================================================================= *)
(** ** Properties of the matcher *)

Ltac inv H := inversion H; subst; clear H.

Lemma many_sound p s n k x :
  many p s n k = Some x ->
  exists w s', s = w ++ s' /\ forallb p w = true /\
               k (n + List.length w) s' = Some x.
Proof.
  revert n. induction s as [|c s IH]; intros n H; simpl in H.
  - exists [], []. simpl. rewrite Nat.add_0_r. auto.
  - destruct (p c) eqn:E.
    + destruct (many p s (S n) k) eqn:E2.
      * inv H. apply IH in E2. destruct E2 as [w [s' [-> [Hw Hk]]]].
        exists (c :: w), s'. simpl. rewrite E, Hw.
        rewrite <- Nat.add_succ_comm. auto.
      * exists [], (c :: s). simpl. rewrite Nat.add_0_r. auto.
    + exists [], (c :: s). simpl. rewrite Nat.add_0_r. auto.
Qed.

(** Whatever the matcher finds is a match. *)
Lemma rmatch_sound b r :
  forall st k x, rmatch b r st k = Some x ->
  exists st', matches b r st st' /\ k st' = Some x.
Proof.
  induction r as [p | a IHa c IHc | a IHa | p | i a IHa | | ];
    intros st k x H; simpl in H.
  - destruct st as [n s g]; simpl in H.
    destruct s as [|c s]; [discriminate|].
    destruct (p c) eqn:E; [|discriminate].
    eexists. split; [constructor; exact E | exact H].
  - apply IHa in H. destruct H as [st1 [H1 H2]].
    apply IHc in H2. destruct H2 as [st2 [H2 H3]].
    exists st2. split; [econstructor; eauto | exact H3].
  - destruct (rmatch b a st k) eqn:E.
    + inv H. apply IHa in E. destruct E as [st' [H1 H2]].
      exists st'. split; [now constructor | exact H2].
    + exists st. split; [apply M_Opt_skipped | exact H].
  - destruct st as [n s g]; simpl in H.
    apply many_sound in H. destruct H as [w [s' [-> [Hw Hk]]]].
    eexists. split; [constructor; exact Hw | exact Hk].
  - apply IHa in H. destruct H as [st' [H1 H2]].
    eexists. split; [constructor; exact H1 | exact H2].
  - destruct b; simpl in H; [|discriminate].
    destruct (Nat.eqb (m_pos st) 0) eqn:E; [|discriminate].
    exists st. split; [constructor; [reflexivity | now apply Nat.eqb_eq] | exact H].
  - exists st. split; [|destruct (m_rest st) as [|c [|]]; try discriminate;
                        [exact H | destruct (N.eqb c 10); [exact H | discriminate]]].
    constructor. destruct (m_rest st) as [|c [|]]; try discriminate; [now left|].
    destruct (N.eqb c 10) eqn:E; [|discriminate].
    apply N.eqb_eq in E. subst. now right.
Qed.

(** A match takes a prefix of what is ahead and counts it. *)
Lemma matches_taken b r st st' :
  matches b r st st' ->
  exists w, m_rest st = w ++ m_rest st' /\
            m_pos st' = m_pos st + List.length w.
Proof.
  induction 1; simpl.
  - exists [c]. simpl. split; [reflexivity | lia].
  - destruct IHmatches1 as [w1 [E1 P1]]. destruct IHmatches2 as [w2 [E2 P2]].
    exists (w1 ++ w2). rewrite E1, E2, P2, P1, <- app_assoc, length_app.
    split; [reflexivity | lia].
  - exact IHmatches.
  - exists []. simpl. split; [reflexivity | lia].
  - exists w. auto.
  - exact IHmatches.
  - exists []. simpl. split; [reflexivity | lia].
  - exists []. simpl. split; [reflexivity | lia].
Qed.

Lemma firstn_taken (w s : str) (n : nat) :
  firstn (n + List.length w - n) (w ++ s) = w.
Proof.
  replace (n + List.length w - n) with (List.length w + 0) by lia.
  rewrite firstn_app_2. simpl. apply app_nil_r.
Qed.

Lemma match_at_sound b r s m :
  match_at b r s = Some m ->
  matches b r (MState 0 s []) m.
Proof.
  unfold match_at. intros H. apply rmatch_sound in H.
  destruct H as [st' [H1 H2]]. now inv H2.
Qed.

Ltac inv_cat H H1 H2 :=
  inversion H as [| ? ? ? ? ? H1 H2 | | | | | | ]; subst; clear H.

Lemma matches_assoc b a c d st m :
  matches b (Cat a (Cat c d)) st m -> matches b (Cat (Cat a c) d) st m.
Proof.
  intros H. inv_cat H H1 H2. inv_cat H2 H3 H4.
  econstructor; [econstructor|]; eauto.
Qed.

Lemma matches_then_cls b a p st m :
  matches b (Cat a (Cls p)) st m ->
  exists pre w, m_rest st = pre ++ w :: m_rest m /\ p w = true /\
                m_pos m = S (m_pos st + List.length pre).
Proof.
  intros H. inv_cat H H1 H2.
  apply matches_taken in H1. destruct H1 as [w1 [E1 P1]].
  inv H2. simpl in *. exists w1, c. auto.
Qed.

Lemma timestamp_body_sound b s m :
  match_at b timestamp_body s = Some m ->
  exists pre w, s = pre ++ w :: m_rest m /\ is_space w = true /\
                m_pos m = S (List.length pre).
Proof.
  intros H. apply match_at_sound in H. unfold timestamp_body in H.
  do 3 apply matches_assoc in H.
  apply matches_then_cls in H. exact H.
Qed.

Lemma timestamp_pattern_sound s m :
  re_match timestamp_pattern s = Some m ->
  exists pre w, s = pre ++ w :: m_rest m /\ is_space w = true /\
                m_pos m = S (List.length pre).
Proof.
  intros H. apply (timestamp_body_sound true). exact H.
Qed.

(** Behind the start of the subject a pattern that begins with [^]
    finds nothing. *)
Lemma sub_from_anchored r repl s :
  sub_from (Cat Bos r) repl s false 0 = s.
Proof.
  induction s as [|c s IH]; simpl; [reflexivity|].
  unfold match_at; simpl. now rewrite IH.
Qed.

Lemma sub_from_skip r repl s n b :
  n <= List.length s -> (0 < n \/ b = false) ->
  sub_from r repl s b n = sub_from r repl (skipn n s) false 0.
Proof.
  revert n b. induction s as [|c s IH]; intros n b Hn Hb; simpl in Hn.
  - assert (n = 0) by lia. subst. destruct Hb; [lia|]. now subst.
  - destruct n as [|n].
    + destruct Hb; [lia|]. now subst.
    + simpl. apply IH; [lia|]. now right.
Qed.

(** [timestamp_pattern.sub('', line)] removes the match at the start. *)
Lemma sub_timestamp s m :
  re_match timestamp_pattern s = Some m ->
  re_sub timestamp_pattern [] s = m_rest m.
Proof.
  intros H. destruct (timestamp_pattern_sound _ _ H) as [pre [w [E [_ P]]]].
  unfold re_sub. destruct s as [|c s]; [destruct pre; discriminate|].
  unfold re_match in H. simpl. rewrite H, P. simpl.
  assert (List.length pre <= List.length s) as L.
  { apply (f_equal (@List.length char)) in E.
    rewrite length_app in E. simpl in E. lia. }
  unfold timestamp_pattern at 1.
  destruct (Nat.eq_dec (List.length pre) 0) as [Z|Z].
  - rewrite Z. destruct pre; [|discriminate]. simpl in E. inv E.
    apply sub_from_anchored.
  - rewrite sub_from_skip by (auto; left; lia).
    rewrite sub_from_anchored.
    change (skipn (S (List.length pre)) (c :: s) = m_rest m).
    rewrite E.
    replace (S (List.length pre)) with (List.length (pre ++ [w]))
      by (rewrite length_app; simpl; lia).
    replace (pre ++ w :: m_rest m) with ((pre ++ [w]) ++ m_rest m)
      by (now rewrite <- app_assoc).
    rewrite skipn_app, skipn_all, Nat.sub_diag. reflexivity.
Qed.

(** What the loop goes on with after the timestamp is gone. *)
Lemma drop_timestamp_solid (line : str) :
  ends_solid line -> ends_solid (drop_timestamp line).
Proof.
  intros H. unfold drop_timestamp.
  destruct (re_match timestamp_pattern line) as [m|] eqn:E; [|exact H].
  rewrite (sub_timestamp _ _ E).
  destruct (timestamp_pattern_sound _ _ E) as [pre [w [L [W _]]]].
  apply strip_ends_solid, ends_solid_strip.
  replace (pre ++ w :: m_rest m) with ((pre ++ [w]) ++ m_rest m) in L
    by (now rewrite <- app_assoc).
  rewrite L in H. apply ends_solid_suffix in H; [exact H|].
  intros Z. rewrite Z, app_nil_r in H.
  destruct H as [r [c [E1 E2]]].
  apply app_inj_tail in E1. destruct E1 as [_ <-]. congruence.
Qed.


Ltac inv_matches := repeat match goal with
  | H : matches _ (Cat _ _) _ _ |- _ => inv H
  | H : matches _ (Cls _) _ _ |- _ => inv H
  | H : matches _ (Many _) _ _ |- _ => inv H
  | H : matches _ (Grp _ _) _ _ |- _ => inv H
  | H : matches _ Bos _ _ |- _ => inv H
  | H : matches _ Eos _ _ |- _ => inv H
  end.

Lemma firstn_exact (w s : str) (n : nat) :
  n = List.length w -> firstn n (w ++ s) = w.
Proof.
  intros ->. replace (List.length w) with (List.length w + 0) by lia.
  rewrite firstn_app_2. simpl. apply app_nil_r.
Qed.

Lemma speaker_pattern_sound line m :
  re_match speaker_pattern line = Some m ->
  exists c g1 ws g2 tail,
    line = (c :: g1) ++ colon :: ws ++ g2 ++ tail /\
    is_upper_az c = true /\ g2 <> [] /\ (tail = [] \/ tail = [10%N]) /\
    group m 1 = c :: g1 /\ group m 2 = g2.
Proof.
  intros H. apply match_at_sound in H. unfold speaker_pattern, Some1 in H.
  inv_matches. cbn [m_pos m_rest m_groups] in *. subst.
  match goal with H : is_colon ?c = true |- _ =>
    apply N.eqb_eq in H; subst c end.
  exists c2, (c1 :: w1), w, (c0 :: w0), s0.
  unfold group. cbn [m_pos m_rest m_groups Nat.eqb].
  split; [reflexivity|]. split; [assumption|]. split; [discriminate|].
  split; [assumption|]. split.
  - apply (firstn_exact (c2 :: c1 :: w1)). cbn [List.length]. lia.
  - apply (firstn_exact (c0 :: w0)). cbn [List.length]. lia.
Qed.

Lemma upper_not_space (c : char) : is_upper_az c = true -> is_space c = false.
Proof.
  unfold is_upper_az, is_space, in_ranges, space_table, in_range. simpl.
  intros H. apply andb_prop in H. destruct H as [H1 H2].
  apply N.leb_le in H1, H2.
  repeat (apply orb_false_intro); try reflexivity;
    apply andb_false_iff; rewrite !N.leb_gt; lia.
Qed.

Lemma strip_solid_head (c : char) (s : str) :
  is_space c = false -> exists r, strip (c :: s) = c :: r.
Proof.
  intros H. unfold strip. rewrite (lstrip_fixed (c :: s) c s eq_refl H).
  destruct (rstrip_split (c :: s)) as [q [E _]].
  destruct (rstrip (c :: s)) as [|a r] eqn:R.
  - apply rstrip_nil in R. simpl in R. rewrite H in R. discriminate.
  - simpl in E. injection E as -> _. eauto.
Qed.

Lemma join_nonempty (sep t : str) (ts : list str) :
  t <> [] -> join sep (t :: ts) <> [].
Proof.
  intros H. simpl. destruct ts; [exact H|].
  destruct t; [contradiction | discriminate].
Qed.

Lemma flush_ok (st : pstate) : pstate_ok st -> Forall turn_ok (flush st).
Proof.
  intros [H1 H2]. unfold flush.
  destruct (current_speaker st) as [sp|] eqn:E; [|exact H1].
  destruct (truthy sp && nonempty (current_text st)); [|exact H1].
  destruct (H2 sp eq_refl) as [[c [r [-> U]]] [t [ts [-> T]]]].
  apply Forall_app. split; [exact H1|]. constructor; [|constructor].
  repeat split; cbn [speaker text].
  - discriminate.
  - now apply join_nonempty.
  - right. eauto.
Qed.

Lemma extend_last_ok (p : list turn) (line : str) :
  Forall turn_ok p -> Forall turn_ok (extend_last p line).
Proof.
  induction p as [|t p IH]; intros H; simpl; [constructor|].
  inv H. destruct p as [|t' p].
  - constructor; [|constructor].
    destruct H2 as [A [B C]]. repeat split; simpl; auto.
    destruct (text t); [contradiction | discriminate].
  - constructor; [assumption|]. now apply IH.
Qed.

Lemma extend_last_snoc (p : list turn) (t : turn) (line : str) :
  extend_last (p ++ [t]) line =
  p ++ [Turn (speaker t) (text t ++ u " " ++ line)].
Proof.
  induction p as [|a p IH]; [reflexivity|].
  change (extend_last (a :: (p ++ [t])) line = a :: (p ++ [Turn (speaker t) (text t ++ u " " ++ line)])).
  rewrite <- IH. simpl. destruct (p ++ [t]) eqn:E; [|reflexivity].
  destruct p; discriminate.
Qed.

(** What a header line leaves in the loop variables. *)
Lemma header_groups (line : str) (m : mstate) :
  ends_solid line ->
  re_match speaker_pattern line = Some m ->
  (exists c r, strip (group m 1) = c :: r /\ is_upper_az c = true) /\
  strip (group m 2) <> [].
Proof.
  intros S H. apply speaker_pattern_sound in H.
  destruct H as [c [g1 [ws [g2 [tail [L [U [G [T [-> ->]]]]]]]]]].
  split.
  - destruct (strip_solid_head c g1 (upper_not_space c U)) as [r E]. eauto.
  - assert (ends_solid (g2 ++ tail)) as S'.
    { rewrite L in S.
      replace ((c :: g1) ++ colon :: ws ++ g2 ++ tail)
        with (((c :: g1) ++ colon :: ws) ++ g2 ++ tail) in S
        by (now rewrite <- app_assoc).
      apply ends_solid_suffix in S; [exact S|].
      destruct g2; [contradiction | discriminate]. }
    destruct T as [-> | ->].
    + rewrite app_nil_r in S'. now apply ends_solid_strip.
    + exfalso. destruct S' as [r [x [E X]]].
      apply app_inj_tail in E. destruct E as [_ <-]. discriminate.
Qed.

Lemma line_solid (raw_line : str) :
  truthy (strip raw_line) = true ->
  ends_solid (drop_timestamp (strip raw_line)).
Proof.
  intros H. apply drop_timestamp_solid, strip_ends_solid.
  destruct (strip raw_line); [discriminate | discriminate].
Qed.

Lemma ends_solid_nonempty (s : str) : ends_solid s -> s <> [].
Proof. intros [r [c [-> _]]]. now destruct r. Qed.

Lemma parse_line_ok (st : pstate) (raw_line : str) :
  pstate_ok st -> pstate_ok (parse_line st raw_line).
Proof.
  intros Hst. unfold parse_line.
  destruct (truthy (strip raw_line)) eqn:B; simpl; [|exact Hst].
  pose proof (line_solid _ B) as S.
  set (line := drop_timestamp (strip raw_line)) in *.
  destruct (re_match speaker_pattern line) as [m|] eqn:E.
  - destruct (header_groups _ _ S E) as [Hsp Htx].
    split; simpl.
    + now apply flush_ok.
    + intros sp [= <-]. split; [exact Hsp|]. eauto.
  - destruct Hst as [H1 H2].
    destruct (truthy_opt (current_speaker st)) eqn:T.
    + split; simpl; [exact H1|].
      intros sp Hsp. destruct (H2 sp Hsp) as [A [t [ts [-> Ht]]]].
      split; [exact A|]. exists t, (ts ++ [line]). auto.
    + destruct (nonempty (parsed st)) eqn:N.
      * split; simpl; [now apply extend_last_ok | exact H2].
      * split; simpl; [|exact H2].
        apply Forall_app. split; [exact H1|]. constructor; [|constructor].
        repeat split; simpl.
        -- discriminate.
        -- now apply ends_solid_nonempty.
        -- now left.
Qed.

Lemma init_ok : pstate_ok init_pstate.
Proof. split; simpl; [constructor | discriminate]. Qed.

Lemma fold_parse_ok (lines : list str) (st : pstate) :
  pstate_ok st -> pstate_ok (fold_left parse_line lines st).
Proof.
  revert st. induction lines as [|l lines IH]; intros st H; simpl; [exact H|].
  apply IH. now apply parse_line_ok.
Qed.

(** C9.  Every turn [parse_transcript] returns has a speaker that is not
    empty, which is the text Unknown or starts with an upper-case
    letter, and a text that is not empty; the same holds of every turn
    in the list [parsed] after any number of lines of the input has been
    processed. *)
Theorem parse_turns_nonempty (raw_text : str) :
  Forall turn_ok (parse_transcript raw_text) /\
  forall k, Forall turn_ok
              (parsed (parse_lines (firstn k (split raw_text nl)))).
Proof.
  split.
  - unfold parse_transcript. destruct (truthy raw_text); simpl; [|constructor].
    apply flush_ok, fold_parse_ok, init_ok.
  - intros k. apply fold_parse_ok, init_ok.
Qed.

Lemma parse_line_blank (st : pstate) (l : str) :
  strip l = [] -> parse_line st l = st.
Proof. intros H. unfold parse_line. now rewrite H. Qed.

Lemma parse_line_content (st : pstate) (l : str) :
  strip l <> [] -> has_content (parse_line st l).
Proof.
  intros H. unfold parse_line.
  assert (truthy (strip l) = true) as B by (destruct (strip l); [contradiction | reflexivity]).
  rewrite B. simpl negb. cbv iota.
  pose proof (line_solid _ B) as S.
  set (line := drop_timestamp (strip l)) in *.
  destruct (re_match speaker_pattern line) as [m|] eqn:E.
  - destruct (header_groups _ _ S E) as [[c [r [-> _]]] _]. now left.
  - destruct (truthy_opt (current_speaker st)) eqn:T.
    + left. simpl. rewrite T. now destruct (current_text st).
    + destruct (nonempty (parsed st)) eqn:N; right; simpl.
      * destruct (parsed st) as [|t [|t' p]]; [discriminate | discriminate |].
        discriminate.
      * now destruct (parsed st).
Qed.

Lemma parse_line_keeps (st : pstate) (l : str) :
  has_content st -> has_content (parse_line st l).
Proof.
  intros H. destruct (list_eq_dec N.eq_dec (strip l) []) as [E|E].
  - now rewrite parse_line_blank.
  - now apply parse_line_content.
Qed.

Lemma fold_keeps (lines : list str) (st : pstate) :
  has_content st -> has_content (fold_left parse_line lines st).
Proof.
  revert st. induction lines as [|l lines IH]; intros st H; simpl; [exact H|].
  now apply IH, parse_line_keeps.
Qed.

Lemma fold_blank (lines : list str) (st : pstate) :
  Forall (fun l => strip l = []) lines -> fold_left parse_line lines st = st.
Proof.
  induction 1 as [|l lines Hl _ IH]; simpl; [reflexivity|].
  now rewrite parse_line_blank.
Qed.

Lemma fold_content (lines : list str) (st : pstate) :
  Exists (fun l => strip l <> []) lines ->
  has_content (fold_left parse_line lines st).
Proof.
  intros H. revert st. induction H as [l lines Hl | l lines _ IH]; intros st; simpl.
  - now apply fold_keeps, parse_line_content.
  - apply IH.
Qed.

Lemma flush_content (st : pstate) : has_content st -> flush st <> [].
Proof.
  unfold has_content, flush. intros [H | H].
  - destruct (current_speaker st) as [sp|]; [|discriminate].
    simpl in H. rewrite H. now destruct (parsed st).
  - destruct (current_speaker st) as [sp|]; [|exact H].
    destruct (truthy sp && nonempty (current_text st)); [|exact H].
    now destruct (parsed st).
Qed.

(** C10.  [parse_transcript] returns the empty list exactly when every
    line of the input is blank after trimming, which is the case of the
    empty text; an input with a line that is not blank yields at least
    one turn. *)
Theorem parse_empty_iff (raw_text : str) :
  (parse_transcript raw_text = [] <->
   Forall (fun l => strip l = []) (split raw_text nl)) /\
  (Exists (fun l => strip l <> []) (split raw_text nl) ->
   1 <= List.length (parse_transcript raw_text)) /\
  parse_transcript [] = [].
Proof.
  assert (Exists (fun l => strip l <> []) (split raw_text nl) ->
          parse_transcript raw_text <> []) as K.
  { intros H. unfold parse_transcript.
    destruct raw_text as [|c r]; simpl negb; cbv iota.
    - inv H; [now contradiction H1 | inv H1].
    - now apply flush_content, fold_content. }
  split; [split|split; [|reflexivity]].
  - intros H.
    destruct (Forall_Exists_dec (fun l => strip l = [])
                (fun l => list_eq_dec N.eq_dec (strip l) [])
                (split raw_text nl)) as [F | X]; [exact F|].
    now apply K in X.
  - intros H. unfold parse_transcript.
    destruct (truthy raw_text); simpl negb; cbv iota; [|reflexivity].
    unfold parse_lines. now rewrite fold_blank.
  - intros H. apply K in H.
    destruct (parse_transcript raw_text); [contradiction | simpl; lia].
Qed.

Lemma parse_empty_iff_witness :
  Exists (fun l => strip l <> []) (split (u "hello") nl) /\
  1 <= List.length (parse_transcript (u "hello")).
Proof.
  assert (Exists (fun l => strip l <> []) (split (u "hello") nl)) as X.
  { apply Exists_cons_hd. vm_compute. discriminate. }
  split; [exact X | exact (proj1 (proj2 (parse_empty_iff (u "hello"))) X)].
Defined.

(** C8.  A line that is not blank and is not a speaker header, met while
    no speaker is active: when no turn has been emitted it is emitted as
    a turn of the speaker Unknown; when a turn has been emitted its text
    is appended, behind a space, to the text of the last emitted turn,
    and no new turn is started. *)
Theorem unattributed_line :
  (forall st raw_line,
      truthy_opt (current_speaker st) = false ->
      strip raw_line <> [] ->
      re_match speaker_pattern (drop_timestamp (strip raw_line)) = None ->
      parsed st = [] ->
      parse_line st raw_line =
      PState [Turn (u "Unknown") (drop_timestamp (strip raw_line))]
             (current_speaker st) (current_text st)) /\
  (forall st raw_line p t,
      truthy_opt (current_speaker st) = false ->
      strip raw_line <> [] ->
      re_match speaker_pattern (drop_timestamp (strip raw_line)) = None ->
      parsed st = p ++ [t] ->
      parse_line st raw_line =
      PState (p ++ [Turn (speaker t)
                         (text t ++ u " " ++ drop_timestamp (strip raw_line))])
             (current_speaker st) (current_text st)) /\
  parse_transcript (u "Agenda" ++ nl ++ u "for today" ++ nl ++ u "Alice: Hello")
  = [ Turn (u "Unknown") (u "Agenda for today");
      Turn (u "Alice") (u "Hello") ].
Proof.
  assert (forall st raw_line,
      truthy_opt (current_speaker st) = false ->
      strip raw_line <> [] ->
      re_match speaker_pattern (drop_timestamp (strip raw_line)) = None ->
      parse_line st raw_line =
      if nonempty (parsed st)
      then PState (extend_last (parsed st) (drop_timestamp (strip raw_line)))
                  (current_speaker st) (current_text st)
      else PState (parsed st ++
                     [Turn (u "Unknown") (drop_timestamp (strip raw_line))])
                  (current_speaker st) (current_text st)) as K.
  { intros st raw_line A B M. unfold parse_line.
    assert (truthy (strip raw_line) = true) as ->
        by (destruct (strip raw_line); [contradiction | reflexivity]).
    simpl negb. cbv iota. now rewrite M, A. }
  split; [|split].
  - intros st raw_line A B M E. rewrite (K st raw_line A B M), E. reflexivity.
  - intros st raw_line p t A B M E. rewrite (K st raw_line A B M), E.
    rewrite extend_last_snoc. now destruct p.
  - vm_compute. reflexivity.
Qed.

Lemma unattributed_line_witness :
  parse_line init_pstate (u "Agenda") =
  PState [Turn (u "Unknown") (u "Agenda")] None [] /\
  parse_line (PState [Turn (u "Unknown") (u "Agenda")] None []) (u "for today") =
  PState [Turn (u "Unknown") (u "Agenda for today")] None [].
Proof.
  split.
  - apply (proj1 unattributed_line init_pstate (u "Agenda")).
    + reflexivity.
    + vm_compute. discriminate.
    + vm_compute. reflexivity.
    + reflexivity.
  - apply (proj1 (proj2 unattributed_line)
             (PState [Turn (u "Unknown") (u "Agenda")] None [])
             (u "for today") [] (Turn (u "Unknown") (u "Agenda"))).
    + reflexivity.
    + vm_compute. discriminate.
    + vm_compute. reflexivity.
    + reflexivity.
Defined.



Lemma many_ext p s n k k' :
  (forall n s, k n s = k' n s) -> many p s n k = many p s n k'.
Proof.
  intros H. revert n. induction s as [|c s IH]; intros n; simpl; [apply H|].
  rewrite IH, H. reflexivity.
Qed.

Lemma rmatch_flag b b' r :
  bos_free r = true ->
  forall st k k', (forall st, k st = k' st) ->
                  rmatch b r st k = rmatch b' r st k'.
Proof.
  induction r as [p | a IHa c IHc | a IHa | p | i a IHa | | ];
    intros F st k k' H; simpl in *.
  - destruct (m_rest st); [reflexivity|]. now rewrite H.
  - apply andb_prop in F. destruct F as [Fa Fc].
    apply IHa; [exact Fa|]. intros st'. now apply IHc.
  - rewrite (IHa F st k k' H), H. reflexivity.
  - apply many_ext. intros. apply H.
  - apply IHa; [exact F|]. intros st'. apply H.
  - discriminate.
  - destruct (m_rest st) as [|c [|]]; try reflexivity; [apply H|].
    now rewrite H.
Qed.

Lemma match_at_flag b b' r s :
  bos_free r = true -> match_at b r s = match_at b' r s.
Proof. intros F. unfold match_at. now apply rmatch_flag. Qed.

Lemma sub_from_flag r repl s b b' skip :
  bos_free r = true -> sub_from r repl s b skip = sub_from r repl s b' skip.
Proof.
  intros F. destruct s as [|c s]; simpl.
  - now rewrite (match_at_flag b b').
  - destruct skip; [|reflexivity]. now rewrite (match_at_flag b b').
Qed.

Lemma colon_not_digit : is_digit colon = false.
Proof. vm_compute. reflexivity. Qed.

Lemma space_not_colon (w : char) : is_space w = true -> is_colon w = false.
Proof.
  intros H. unfold is_colon. destruct (N.eqb w colon) eqn:E; [|reflexivity].
  apply N.eqb_eq in E. subst. vm_compute in H. discriminate.
Qed.

Lemma colon_is_colon : is_colon colon = true.
Proof. reflexivity. Qed.

Ltac run_match :=
  repeat (cbn [rmatch m_rest m_pos m_groups app];
          rewrite ?colon_not_digit, ?colon_is_colon;
          repeat match goal with
                 | H : is_digit ?d = true |- context [is_digit ?d] => rewrite H
                 | H : is_space ?d = true |- context [is_space ?d] => rewrite H
                 | H : is_colon ?d = false |- context [is_colon ?d] => rewrite H
                 end).

Lemma stamp_match (ts post : str) (b : bool) :
  stamp ts ->
  exists m, match_at b timestamp_body (ts ++ post) = Some m /\
            m_pos m = List.length ts.
Proof.
  intros [t [w [C [W ->]]]].
  pose proof (space_not_colon w W) as NC.
  unfold match_at, timestamp_body.
  destruct C as [h m1 m2 Hh H1 H2 | h m1 m2 s1 s2 Hh H1 H2 H3 H4];
    destruct Hh as [d Hd | d e Hd He]; run_match;
    eexists; (split; [reflexivity|reflexivity]).
Qed.

Lemma timestamp_needs_digit (b : bool) (c : char) (s : str) :
  is_digit c = false -> match_at b timestamp_body (c :: s) = None.
Proof.
  intros H. unfold match_at, timestamp_body.
  cbn [rmatch m_rest]. now rewrite H.
Qed.

Lemma timestamp_nil (b : bool) : match_at b timestamp_body [] = None.
Proof. reflexivity. Qed.

Lemma strip_ts_prefix (pre rest : str) (b : bool) :
  forallb (fun c => negb (is_digit c)) pre = true ->
  sub_from timestamp_body [] (pre ++ rest) b 0 =
  pre ++ sub_from timestamp_body [] rest false 0.
Proof.
  revert b. induction pre as [|c pre IH]; intros b H.
  - apply sub_from_flag. reflexivity.
  - simpl in H. apply andb_prop in H. destruct H as [Hc Hp].
    apply negb_true_iff in Hc.
    change (sub_from timestamp_body [] (c :: (pre ++ rest)) b 0 =
            c :: (pre ++ sub_from timestamp_body [] rest false 0)).
    cbn [sub_from]. rewrite timestamp_needs_digit by exact Hc.
    now rewrite IH.
Qed.

Lemma strip_ts_stamp (ts post : str) (b : bool) :
  stamp ts ->
  sub_from timestamp_body [] (ts ++ post) b 0 =
  sub_from timestamp_body [] post false 0.
Proof.
  intros H. destruct (stamp_match ts post b H) as [m [E P]].
  destruct ts as [|c ts].
  { destruct H as [t [w [_ [_ H]]]]. destruct t; discriminate. }
  change (sub_from timestamp_body [] (c :: (ts ++ post)) b 0 =
          sub_from timestamp_body [] post false 0).
  cbn [sub_from]. change (c :: ts ++ post) with ((c :: ts) ++ post).
  rewrite E, P. cbn [List.length app].
  rewrite sub_from_skip;
    [ now rewrite skipn_app, skipn_all, Nat.sub_diag
    | rewrite length_app; lia
    | now right ].
Qed.

Ltac inv_opt :=
  repeat match goal with
  | H : matches _ (Cat _ _) _ _ |- _ => inv H
  | H : matches _ (Cls _) _ _ |- _ => inv H
  | H : matches _ (Grp _ _) _ _ |- _ => inv H
  | H : matches _ (Opt _) _ _ |- _ => inv H
  end.

Lemma stamp_shapes :
  (forall d m1 m2 w,
      is_digit d = true -> is_digit m1 = true -> is_digit m2 = true ->
      is_space w = true -> stamp [d; colon; m1; m2; w]) /\
  (forall d e m1 m2 w,
      is_digit d = true -> is_digit e = true ->
      is_digit m1 = true -> is_digit m2 = true ->
      is_space w = true -> stamp [d; e; colon; m1; m2; w]) /\
  (forall d m1 m2 s1 s2 w,
      is_digit d = true -> is_digit m1 = true -> is_digit m2 = true ->
      is_digit s1 = true -> is_digit s2 = true ->
      is_space w = true -> stamp [d; colon; m1; m2; colon; s1; s2; w]) /\
  (forall d e m1 m2 s1 s2 w,
      is_digit d = true -> is_digit e = true ->
      is_digit m1 = true -> is_digit m2 = true ->
      is_digit s1 = true -> is_digit s2 = true ->
      is_space w = true -> stamp [d; e; colon; m1; m2; colon; s1; s2; w]).
Proof.
  repeat split; intros.
  - exists [d; colon; m1; m2], w. repeat split; auto.
    apply (clock_hm [d]); auto using hours_1.
  - exists [d; e; colon; m1; m2], w. repeat split; auto.
    apply (clock_hm [d; e]); auto using hours_2.
  - exists [d; colon; m1; m2; colon; s1; s2], w. repeat split; auto.
    apply (clock_hms [d]); auto using hours_1.
  - exists [d; e; colon; m1; m2; colon; s1; s2], w. repeat split; auto.
    apply (clock_hms [d; e]); auto using hours_2.
Qed.

Ltac prefix_of l r :=
  match l with
  | r => constr:(@nil char)
  | ?c :: ?l' => let p := prefix_of l' r in constr:(c :: p)
  end.

Lemma timestamp_body_stamp (b : bool) (s : str) (m : mstate) :
  match_at b timestamp_body s = Some m ->
  exists ts, stamp ts /\ s = ts ++ m_rest m /\ m_pos m = List.length ts.
Proof.
  intros H. apply match_at_sound in H. unfold timestamp_body in H.
  destruct stamp_shapes as [S1 [S2 [S3 S4]]].
  inv_opt; cbn [m_pos m_rest m_groups] in *; subst;
    repeat match goal with
           | H : is_colon ?c = true |- _ => apply N.eqb_eq in H; subst c
           end;
    match goal with
    | |- exists ts, _ /\ ?l = _ ++ ?r /\ _ =>
        let p := prefix_of l r in exists p
    end;
    (split; [|split; reflexivity]);
    first [apply S1 | apply S2 | apply S3 | apply S4]; assumption.
Qed.

Lemma no_stamp_here (b : bool) (c : char) (rest : str) :
  match_at b timestamp_body (c :: rest) = None ->
  forall ts rest', stamp ts -> c :: rest <> ts ++ rest'.
Proof.
  intros N ts rest' S E.
  destruct (stamp_match ts rest' b S) as [m [M _]].
  rewrite <- E in M. congruence.
Qed.

Lemma strip_ts_removed (n : nat) :
  forall s b, List.length s <= n ->
              stamps_removed s (sub_from timestamp_body [] s b 0).
Proof.
  induction n as [|n IH]; intros s b L.
  - destruct s; [|simpl in L; lia]. cbn. constructor.
  - destruct s as [|c s]; [cbn; constructor|].
    simpl in L. cbn [sub_from].
    destruct (match_at b timestamp_body (c :: s)) as [m|] eqn:M.
    + destruct (timestamp_body_stamp b _ m M) as [ts [S [E P]]].
      rewrite P. destruct ts as [|c' ts].
      { destruct S as [t [w [_ [_ X]]]]. destruct t; discriminate. }
      cbn [List.length app]. injection E as <- E. subst s.
      rewrite length_app in L.
      rewrite sub_from_skip; [|rewrite length_app; lia | now right].
      rewrite skipn_app, skipn_all, Nat.sub_diag. cbn [skipn app].
      apply (removed_stamp (c :: ts)); [exact S|].
      apply IH. lia.
    + apply removed_keep; [now apply (no_stamp_here b)|].
      apply IH. lia.
Qed.

Lemma stamp_nonempty (ts : str) : stamp ts -> ts <> [].
Proof. intros [t [w [_ [_ ->]]]]. now destruct t. Qed.

Lemma stamp_prefix_unique (ts1 ts2 r1 r2 : str) :
  stamp ts1 -> stamp ts2 -> ts1 ++ r1 = ts2 ++ r2 -> ts1 = ts2 /\ r1 = r2.
Proof.
  intros S1 S2 E.
  destruct (stamp_match ts1 r1 true S1) as [m1 [M1 P1]].
  destruct (stamp_match ts2 r2 true S2) as [m2 [M2 P2]].
  rewrite E in M1. rewrite M1 in M2. injection M2 as <-.
  assert (List.length ts1 = List.length ts2) as L by congruence.
  pose proof (f_equal (firstn (List.length ts1)) E) as F.
  rewrite L in F at 2.
  rewrite !firstn_app, !Nat.sub_diag, !firstn_all in F.
  cbn [firstn] in F. rewrite !app_nil_r in F.
  split; [exact F|]. subst ts2. now apply app_inv_head in E.
Qed.

Lemma stamps_removed_unique (s o1 o2 : str) :
  stamps_removed s o1 -> stamps_removed s o2 -> o1 = o2.
Proof.
  intros H. revert o2.
  induction H as [| ts rest out S _ IH | c rest out N _ IH]; intros o2 H2.
  - remember (@nil char) as s eqn:E.
    destruct H2 as [| ts' rest' out' S' H2 | c rest' out' N' H2].
    + reflexivity.
    + apply stamp_nonempty in S'. destruct ts'; [contradiction | discriminate].
    + discriminate.
  - remember (ts ++ rest) as s eqn:E.
    destruct H2 as [| ts' rest' out' S' H2 | c rest' out' N' H2].
    + apply stamp_nonempty in S. destruct ts; [contradiction | discriminate].
    + destruct (stamp_prefix_unique ts' ts rest' rest S' S E) as [-> ->].
      now apply IH.
    + exfalso. now apply (N' ts rest S).
  - remember (c :: rest) as s eqn:E.
    destruct H2 as [| ts' rest' out' S' H2 | c' rest' out' N' H2].
    + discriminate.
    + exfalso. now apply (N ts' rest' S').
    + injection E as -> ->. f_equal. now apply IH.
Qed.

Lemma lead_many (s : str) (n : nat) (g : list (nat * str)) :
  many is_space s n (fun n' s' => Some (MState n' s' g)) =
  Some (MState (n + lead s) (skipn (lead s) s) g).
Proof.
  revert n. induction s as [|c s IH]; intros n; simpl.
  - now rewrite Nat.add_0_r.
  - destruct (is_space c) eqn:E; simpl.
    + rewrite IH. now rewrite Nat.add_succ_r.
    + now rewrite Nat.add_0_r.
Qed.

Lemma ws_run_match (b : bool) (c : char) (s : str) :
  match_at b ws_run (c :: s) =
  if is_space c then Some (MState (S (lead s)) (skipn (lead s) s) [])
  else None.
Proof.
  unfold match_at, ws_run, Some1. cbn [rmatch m_rest m_pos m_groups].
  destruct (is_space c); [|reflexivity].
  apply (lead_many s 1 []).
Qed.

Lemma tidy_cons_space (s : str) :
  tidy s = true -> solid_head s -> tidy (32%N :: s) = true.
Proof.
  intros T H. cbn [tidy]. rewrite T.
  replace (is_space 32%N) with true by (symmetry; vm_compute; reflexivity).
  destruct s as [|d s]; [reflexivity|]. simpl in H. now rewrite H.
Qed.

Lemma tidy_cons_solid (c : char) (s : str) :
  tidy s = true -> is_space c = false -> tidy (c :: s) = true.
Proof. intros T H. cbn [tidy]. now rewrite H, T. Qed.

Lemma collapse_tidy (s : str) :
  forall b skip,
    skip = 0 \/ skip = lead s ->
    let out := sub_from ws_run (u " ") s b skip in
    tidy out = true /\ (0 < skip \/ lead s = 0 -> solid_head out).
Proof.
  induction s as [|c s IH]; intros b skip H.
  - assert (skip = 0) as -> by (destruct H; [assumption | simpl in *; assumption]).
    cbn. auto.
  - destruct skip as [|n].
    + cbn [sub_from]. rewrite ws_run_match. cbn [lead] in *.
      destruct (is_space c) eqn:E.
      * cbn [m_pos]. destruct (IH false (lead s) (or_intror eq_refl)) as [T Hd].
        cbn zeta in *. split.
        -- apply tidy_cons_space; [exact T|]. apply Hd.
           destruct (lead s); [now right | left; lia].
        -- intros [Z | Z]; [lia | discriminate].
      * destruct (IH false 0 (or_introl eq_refl)) as [T _]. cbn zeta in *. split.
        -- now apply tidy_cons_solid.
        -- intros _. exact E.
    + cbn [sub_from]. destruct H as [H | H]; [discriminate|].
      cbn [lead] in H. destruct (is_space c) eqn:E; [|discriminate].
      injection H as ->.
      destruct (IH false (lead s) (or_intror eq_refl)) as [T Hd].
      cbn zeta in *. split; [exact T|]. intros _. apply Hd.
      destruct (lead s); [now right | left; lia].
Qed.

Lemma tidy_suffix (a b : str) : tidy (a ++ b) = true -> tidy b = true.
Proof.
  induction a as [|c a IH]; [auto|]. intros H.
  cbn [app tidy] in H. apply andb_prop in H. now apply IH.
Qed.

Lemma tidy_prefix (a b : str) : tidy (a ++ b) = true -> tidy a = true.
Proof.
  induction a as [|c a IH]; [auto|]. intros H.
  cbn [app tidy] in H. apply andb_prop in H. destruct H as [H1 H2].
  cbn [tidy]. rewrite (IH H2), andb_true_r.
  destruct (is_space c); [|reflexivity].
  apply andb_prop in H1. destruct H1 as [H1 H3]. rewrite H1.
  destruct a; [reflexivity | exact H3].
Qed.

Lemma tidy_no_run (s : str) : tidy s = true -> no_space_run s.
Proof.
  intros T a c1 c2 b -> H1 H2.
  apply tidy_suffix in T. cbn [tidy] in T. rewrite H1, H2 in T.
  rewrite andb_false_r in T. discriminate.
Qed.

Lemma tidy_replace (s : str) :
  tidy s = true -> replace_char form_feed (u " ") s = s.
Proof.
  induction s as [|c s IH]; [reflexivity|]. intros T.
  cbn [tidy] in T. apply andb_prop in T. destruct T as [T1 T2].
  cbn [replace_char flat_map]. fold (replace_char form_feed (u " ") s).
  rewrite (IH T2).
  destruct (N.eqb c form_feed) eqn:E; [|reflexivity].
  apply N.eqb_eq in E. subst. vm_compute in T1. discriminate.
Qed.

Lemma tidy_strip (s : str) : tidy s = true -> tidy (strip s) = true.
Proof.
  intros T. destruct (strip_split s) as [p [q [E _]]].
  rewrite E in T. apply tidy_suffix in T. now apply tidy_prefix in T.
Qed.

Lemma clean_unfold (t : str) : clean_transcript t = clean_passes t.
Proof. destruct t; reflexivity. Qed.

Lemma clean_tidy (t : str) : tidy (clean_transcript t) = true.
Proof.
  rewrite clean_unfold. unfold clean_passes.
  pose proof (collapse_tidy (re_sub timestamp_body [] t) true 0
                (or_introl eq_refl)) as [T _].
  cbn zeta in T. unfold re_sub at 1.
  rewrite (tidy_replace _ T). now apply tidy_strip.
Qed.

(** C4, counterexample.  A timestamp at the end of the text, with no
    white space behind it, stays in the output of [clean_transcript]. *)
Lemma clean_keeps_final_timestamp :
  clean_transcript (u "Call at 10:30") = u "Call at 10:30" /\
  has_timestamp (clean_transcript (u "Call at 10:30")).
Proof.
  split; [vm_compute; reflexivity|].
  exists (u "Call at "), (u "10:30"), [].
  split; [vm_compute; reflexivity|].
  apply (clock_hm [49; 48]%N 51%N 48%N).
  - apply hours_2; vm_compute; reflexivity.
  - vm_compute; reflexivity.
  - vm_compute; reflexivity.
Qed.

(** A deletion can also put a timestamp together from what was on its
    two sides. *)
Lemma clean_joins_timestamp :
  clean_transcript (u "112:34 :00 x") = u "1:00 x".
Proof. vm_compute. reflexivity. Qed.

(** C4, amended.  The output of [clean_transcript] has no two white
    space characters in a row and no white space at its start or end.
    Its first pass goes through the whole text from left to right and
    leaves out each timestamp that has a white space character behind
    it, with that character, where one starts; so such a timestamp is
    removed wherever it stands in the text when no digit stands before
    it. *)
Theorem clean_normalises (t : str) :
  no_space_run (clean_transcript t) /\
  (forall c r, clean_transcript t = c :: r -> is_space c = false) /\
  (forall r c, clean_transcript t = r ++ [c] -> is_space c = false) /\
  (exists mid,
      stamps_removed t mid /\
      (forall mid', stamps_removed t mid' -> mid' = mid) /\
      clean_transcript t = strip (re_sub ws_run (u " ") mid)) /\
  (forall pre ts post,
      t = pre ++ ts ++ post ->
      forallb (fun c => negb (is_digit c)) pre = true ->
      stamp ts ->
      clean_transcript t = clean_transcript (pre ++ post)).
Proof.
  split; [apply tidy_no_run, clean_tidy|].
  split; [|split; [|split]].
  - intros c r. rewrite clean_unfold. apply strip_head.
  - intros r c. rewrite clean_unfold. apply strip_last.
  - exists (re_sub timestamp_body [] t).
    pose proof (strip_ts_removed (List.length t) t true (le_n _)) as R.
    split; [exact R|]. split.
    + intros mid' R'. exact (stamps_removed_unique t mid' _ R' R).
    + rewrite clean_unfold. unfold clean_passes. f_equal.
      apply tidy_replace.
      exact (proj1 (collapse_tidy (re_sub timestamp_body [] t) true 0
                      (or_introl eq_refl))).
  - intros pre ts post -> D S. rewrite !clean_unfold. unfold clean_passes.
    do 3 f_equal. unfold re_sub.
    rewrite (strip_ts_prefix pre (ts ++ post) true D).
    rewrite (strip_ts_prefix pre post true D).
    now rewrite (strip_ts_stamp ts post false S).
Qed.

Lemma clean_normalises_witness :
  is_space 111%N = false /\
  is_space 101%N = false /\
  clean_transcript (u "ok 12:30:05 then 9:15 done") =
  clean_transcript (u "ok " ++ u "then 9:15 done").
Proof.
  pose proof (clean_normalises (u "ok 12:30:05 then 9:15 done"))
    as [_ [H [L [_ R]]]].
  split; [|split].
  - apply (H 111%N (u "k then done")). vm_compute. reflexivity.
  - apply (L (u "ok then don") 101%N). vm_compute. reflexivity.
  - apply (R (u "ok ") (u "12:30:05 ") (u "then 9:15 done")).
    + reflexivity.
    + vm_compute. reflexivity.
    + exists (u "12:30:05"), 32%N. split; [|split; vm_compute; reflexivity].
      apply (clock_hms [49; 50]%N 51%N 48%N 48%N 53%N).
      * apply hours_2; vm_compute; reflexivity.
      * vm_compute; reflexivity.
      * vm_compute; reflexivity.
      * vm_compute; reflexivity.
      * vm_compute; reflexivity.
Defined.

Lemma drop_timestamp_stamp (ts rest : str) :
  stamp ts -> drop_timestamp (ts ++ rest) = strip rest.
Proof.
  intros H. unfold drop_timestamp.
  destruct (stamp_match ts rest true H) as [m [E P]].
  assert (re_match timestamp_pattern (ts ++ rest) = Some m) as E' by exact E.
  rewrite E', (sub_timestamp _ _ E').
  destruct (timestamp_pattern_sound _ _ E') as [pre [w [L [_ Q]]]].
  f_equal. apply (f_equal (skipn (List.length ts))) in L.
  rewrite skipn_app, skipn_all, Nat.sub_diag in L. simpl in L.
  rewrite L. rewrite P in Q.
  replace (pre ++ w :: m_rest m) with ((pre ++ [w]) ++ m_rest m)
    by (now rewrite <- app_assoc).
  rewrite skipn_app, skipn_all2 by (rewrite length_app; simpl; lia).
  rewrite length_app. simpl.
  replace (List.length ts - (List.length pre + 1)) with 0 by lia.
  reflexivity.
Qed.

(** C2.  The three-line sample parses into the two turns of Alice and
    Bob.  A timestamp at the start of a line is removed before the line
    is tested for a speaker header, and a line that is no header is
    added to the lines of the active speaker, which are joined with
    single spaces when the turn is emitted. *)
Theorem parse_sample_transcript :
  parse_transcript sample_transcript =
  [ Turn (u "Alice") (u "Let's discuss the budget. We need more funding.");
    Turn (u "Bob") (u "I disagree.") ] /\
  (forall ts rest, stamp ts -> drop_timestamp (ts ++ rest) = strip rest) /\
  (forall st raw_line,
      truthy_opt (current_speaker st) = true ->
      strip raw_line <> [] ->
      re_match speaker_pattern (drop_timestamp (strip raw_line)) = None ->
      parse_line st raw_line =
      PState (parsed st) (current_speaker st)
             (current_text st ++ [drop_timestamp (strip raw_line)])) /\
  (forall p sp t ts,
      truthy sp = true ->
      flush (PState p (Some sp) (t :: ts)) =
      p ++ [Turn sp (join (u " ") (t :: ts))]).
Proof.
  split; [vm_compute; reflexivity|].
  split; [exact drop_timestamp_stamp|].
  split.
  - intros st raw_line A B M. unfold parse_line.
    assert (truthy (strip raw_line) = true) as ->
        by (destruct (strip raw_line); [contradiction | reflexivity]).
    simpl negb. cbv iota. now rewrite M, A.
  - intros p sp t ts T. unfold flush. cbn [current_speaker current_text parsed].
    now rewrite T.
Qed.

Lemma parse_sample_transcript_witness :
  drop_timestamp (u "00:01 " ++ u "Alice: Let's discuss the budget.") =
  u "Alice: Let's discuss the budget." /\
  parse_line (PState [] (Some (u "Alice")) [u "Let's discuss the budget."])
             (u "We need more funding.") =
  PState [] (Some (u "Alice"))
         [u "Let's discuss the budget."; u "We need more funding."] /\
  flush (PState [] (Some (u "Alice"))
                [u "Let's discuss the budget."; u "We need more funding."]) =
  [Turn (u "Alice") (u "Let's discuss the budget. We need more funding.")].
Proof.
  destruct parse_sample_transcript as [_ [D [C F]]].
  split; [|split].
  - apply (D (u "00:01 ") (u "Alice: Let's discuss the budget.")).
    exists (u "00:01"), 32%N. split; [|split; vm_compute; reflexivity].
    apply (clock_hm [48; 48]%N 48%N 49%N).
    + apply hours_2; vm_compute; reflexivity.
    + vm_compute; reflexivity.
    + vm_compute; reflexivity.
  - apply (C (PState [] (Some (u "Alice")) [u "Let's discuss the budget."])
             (u "We need more funding.")).
    + reflexivity.
    + vm_compute. discriminate.
    + vm_compute. reflexivity.
  - apply (F [] (u "Alice") (u "Let's discuss the budget.")
             [u "We need more funding."]).
    reflexivity.
Defined.


(* ================================================================= *)
(** ** Properties of the decoder *)

Lemma skip_ws_length (s : str) : List.length (skip_ws s) <= List.length s.
Proof.
  induction s as [|c s IH]; simpl; [lia|].
  destruct (is_json_ws c); simpl; lia.
Qed.

Lemma push_inr c x t r :
  push c x = inr (t, r) -> exists t', x = inr (t', r).
Proof.
  destruct x as [e | [t' r']]; simpl; [discriminate|].
  intros H. inv H. eauto.
Qed.

Lemma push_inl c x e : push c x = inl e -> x = inl e.
Proof. destruct x as [e' | [t' r']]; simpl; [congruence | discriminate]. Qed.

Ltac break_match H :=
  match type of H with
  | context [match ?x with _ => _ end] => destruct x eqn:?
  | context [if ?x then _ else _] => destruct x eqn:?
  end.

Ltac scan_leaf IH H L :=
  first
    [ discriminate H
    | apply push_inr in H; destruct H as [? H]; apply IH in H;
      [ subst; cbn [List.length] in *; lia
      | subst; cbn [List.length] in *; lia ]
    | injection H as ? ?; subst; cbn [List.length] in *; lia ].

Lemma scanstring_shorter (n : nat) :
  forall s t r, List.length s <= n ->
                scanstring s = inr (t, r) -> List.length r < List.length s.
Proof.
  induction n as [|n IH]; intros s t r L H.
  - destruct s; [discriminate | simpl in L; lia].
  - destruct s as [|c s]; [discriminate|].
    cbn [scanstring] in H.
    repeat (break_match H; try discriminate H); scan_leaf IH H L.
Qed.

Ltac error_leaf IH H :=
  first
    [ discriminate H
    | injection H as <-; reflexivity
    | apply push_inl in H; apply IH in H;
      [ exact H | subst; cbn [List.length] in *; lia ] ].

Lemma scanstring_error (n : nat) :
  forall s e, List.length s <= n ->
              scanstring s = inl e -> isinstance_JSONDecodeError e = true.
Proof.
  induction n as [|n IH]; intros s e L H.
  - destruct s; [now inv H | simpl in L; lia].
  - destruct s as [|c s]; [now inv H|].
    cbn [scanstring] in H.
    repeat (break_match H; try discriminate H); error_leaf IH H.
Qed.

Lemma digits_length (s d r : str) :
  digits s = (d, r) -> List.length s = List.length d + List.length r.
Proof.
  revert d r. induction s as [|c s IH]; intros d r H; simpl in H.
  - now inv H.
  - destruct (is_ascii_digit c).
    + destruct (digits s) as [d' r'] eqn:E. inv H.
      specialize (IH d' r eq_refl). simpl. lia.
    + inv H. reflexivity.
Qed.

Lemma number_int_shorter (s i r : str) :
  number_int s = Some (i, r) -> List.length r < List.length s.
Proof.
  unfold number_int. destruct s as [|c s]; [discriminate|].
  destruct (N.eqb c 48); [intros H; inv H; simpl; lia|].
  destruct (in_range 49 57 c); [|discriminate].
  destruct (digits s) as [d r'] eqn:E. intros H. inv H.
  apply digits_length in E. simpl. lia.
Qed.

Lemma number_frac_length (s f r : str) :
  number_frac s = (f, r) -> List.length r <= List.length s.
Proof.
  unfold number_frac. destruct s as [|c s]; [intros H; now inv H|].
  destruct (N.eqb c 46); [|intros H; now inv H].
  destruct (digits s) as [d r'] eqn:E. apply digits_length in E.
  destruct d; intros H; inv H; simpl in *; lia.
Qed.

Lemma number_exp_length (s e r : str) :
  number_exp s = (e, r) -> List.length r <= List.length s.
Proof.
  unfold number_exp. destruct s as [|c s]; [intros H; now inv H|].
  destruct (N.eqb c 101 || N.eqb c 69); [|intros H; now inv H].
  destruct s as [|g s]; [intros H; now inv H|].
  destruct (N.eqb g 45 || N.eqb g 43).
  - destruct (digits s) as [d r'] eqn:E. apply digits_length in E.
    destruct d; intros H; inv H; simpl in *; lia.
  - destruct (digits (g :: s)) as [d r'] eqn:E. apply digits_length in E.
    destruct d; intros H; inv H; simpl in *; lia.
Qed.

Lemma match_number_shorter (s i f e r : str) :
  match_number s = Some (i, f, e, r) -> List.length r < List.length s.
Proof.
  unfold match_number. intros H.
  assert (forall j q,
    match s with
    | [] => None
    | c :: s' =>
        if N.eqb c 45
        then match number_int s' with
             | Some (i0, r0) => Some (c :: i0, r0)
             | None => None
             end
        else number_int s
    end = Some (j, q) -> List.length q < List.length s) as K.
  { intros j q. destruct s as [|c s']; [discriminate|].
    destruct (N.eqb c 45).
    - destruct (number_int s') as [[i0 r0]|] eqn:E; [|discriminate].
      intros X. inv X. apply number_int_shorter in E. simpl. lia.
    - apply number_int_shorter. }
  destruct (match s with [] => None | _ :: _ => _ end) as [[j q]|];
    [|discriminate].
  specialize (K j q eq_refl).
  destruct (number_frac q) as [f' r1] eqn:F.
  destruct (number_exp r1) as [e' r2] eqn:X.
  inv H. apply number_frac_length in F. apply number_exp_length in X. lia.
Qed.

Section Fuel.

Variable scan : str -> res (json * str).
Hypothesis scan_ok : well_behaved scan.

Lemma array_loop_fuel (fuel : nat) :
  forall s, List.length s < fuel ->
  (forall vs r, array_loop scan fuel s = inr (vs, r) ->
                List.length r < List.length s) /\
  array_loop scan fuel s <> inl fuel_spent.
Proof.
  destruct scan_ok as [Sh Sf].
  induction fuel as [|f IH]; intros s L; [lia|].
  cbn [array_loop].
  destruct (scan s) as [e | [v r]] eqn:E.
  { split; [discriminate|]. intros X. inv X. now apply (Sf s). }
  apply Sh in E. pose proof (skip_ws_length r) as W.
  destruct (skip_ws r) as [|c r'] eqn:K; [split; discriminate|].
  simpl in W. destruct (N.eqb c 93).
  { split; [|discriminate]. intros vs q H. inv H. lia. }
  destruct (N.eqb c 44); [|split; discriminate].
  pose proof (skip_ws_length r') as W'.
  destruct (IH (skip_ws r')) as [A B]; [lia|].
  destruct (array_loop scan f (skip_ws r')) as [e | [vs q]] eqn:X.
  - split; [discriminate | intros Z; inv Z; now apply B].
  - split; [|discriminate]. intros vs' q' H. inv H.
    specialize (A _ _ eq_refl). lia.
Qed.

Lemma JSONArray_fuel :
  forall s,
  (forall v r, JSONArray scan s = inr (v, r) -> List.length r <= List.length s) /\
  JSONArray scan s <> inl fuel_spent.
Proof.
  intros s. unfold JSONArray. pose proof (skip_ws_length s) as W.
  destruct (skip_ws s) as [|c r] eqn:K; [split; discriminate|].
  destruct (N.eqb c 93).
  { split; [|discriminate]. intros v q H. inv H. simpl in W. lia. }
  destruct (array_loop_fuel (S (List.length s)) (c :: r)) as [A B]; [lia|].
  destruct (array_loop scan (S (List.length s)) (c :: r)) as [e | [vs q]].
  - split; [discriminate | intros Z; inv Z; now apply B].
  - split; [|discriminate]. intros v q' H. inv H.
    specialize (A _ _ eq_refl). lia.
Qed.

Lemma object_loop_fuel (fuel : nat) :
  forall s, List.length s < fuel ->
  (forall kvs r, object_loop scan fuel s = inr (kvs, r) ->
                 List.length r < List.length s) /\
  object_loop scan fuel s <> inl fuel_spent.
Proof.
  destruct scan_ok as [Sh Sf].
  induction fuel as [|f IH]; intros s L; [lia|].
  cbn [object_loop].
  destruct (scanstring s) as [e | [key r]] eqn:E.
  { split; [discriminate|]. intros X. inv X.
    apply (scanstring_error _ _ _ (le_n _)) in E. discriminate. }
  apply (scanstring_shorter _ _ _ _ (le_n _)) in E.
  pose proof (skip_ws_length r) as W.
  destruct (skip_ws r) as [|c r1] eqn:K; [split; discriminate|].
  simpl in W. destruct (N.eqb c 58); [|split; discriminate].
  pose proof (skip_ws_length r1) as W1.
  destruct (scan (skip_ws r1)) as [e | [v r2]] eqn:V.
  { split; [discriminate|]. intros X. inv X. now apply (Sf (skip_ws r1)). }
  apply Sh in V. pose proof (skip_ws_length r2) as W2.
  destruct (skip_ws r2) as [|c2 r3] eqn:K2; [split; discriminate|].
  simpl in W2. destruct (N.eqb c2 125).
  { split; [|discriminate]. intros kvs q H. inv H. lia. }
  destruct (N.eqb c2 44); [|split; discriminate].
  pose proof (skip_ws_length r3) as W3.
  destruct (skip_ws r3) as [|q r4] eqn:K3; [split; discriminate|].
  simpl in W3. destruct (N.eqb q 34); [|split; discriminate].
  destruct (IH r4) as [A B]; [lia|].
  destruct (object_loop scan f r4) as [e | [kvs r5]] eqn:X.
  - split; [discriminate | intros Z; inv Z; now apply B].
  - split; [|discriminate]. intros kvs' q' H. inv H.
    specialize (A _ _ eq_refl). lia.
Qed.

Lemma JSONObject_fuel :
  forall s,
  (forall v r, JSONObject scan s = inr (v, r) -> List.length r <= List.length s) /\
  JSONObject scan s <> inl fuel_spent.
Proof.
  intros s. unfold JSONObject. pose proof (skip_ws_length s) as W.
  destruct (skip_ws s) as [|c r] eqn:K; [split; discriminate|].
  simpl in W. destruct (N.eqb c 125).
  { split; [|discriminate]. intros v q H. inv H. lia. }
  destruct (N.eqb c 34); [|split; discriminate].
  destruct (object_loop_fuel (S (List.length s)) r) as [A B]; [lia|].
  destruct (object_loop scan (S (List.length s)) r) as [e | [kvs q]].
  - split; [discriminate | intros Z; inv Z; now apply B].
  - split; [|discriminate]. intros v q' H. inv H.
    specialize (A _ _ eq_refl). lia.
Qed.

End Fuel.

Lemma scan_atom_shorter (c : char) (s : str) (v : json) (r : str) :
  scan_atom (c :: s) = inr (v, r) -> List.length r < List.length (c :: s).
Proof.
  unfold scan_atom.
  assert (forall n, List.length (skipn (S n) (c :: s)) < List.length (c :: s)) as K.
  { intros n. rewrite length_skipn. simpl. lia. }
  destruct (startswith (u "null") (c :: s));
    [intros H; injection H as _ <-; exact (K 3)|].
  destruct (startswith (u "true") (c :: s));
    [intros H; injection H as _ <-; exact (K 3)|].
  destruct (startswith (u "false") (c :: s));
    [intros H; injection H as _ <-; exact (K 4)|].
  destruct (match_number (c :: s)) as [[[[i f] e] q]|] eqn:E.
  - apply match_number_shorter in E.
    destruct (nonempty f || nonempty e); intros H; inv H; exact E.
  - destruct (startswith (u "NaN") (c :: s));
    [intros H; injection H as _ <-; exact (K 2)|].
    destruct (startswith (u "Infinity") (c :: s));
    [intros H; injection H as _ <-; exact (K 7)|].
    destruct (startswith (u "-Infinity") (c :: s));
    [intros H; injection H as _ <-; exact (K 8)|].
    discriminate.
Qed.

Lemma scan_atom_error (s : str) : scan_atom s <> inl fuel_spent.
Proof.
  unfold scan_atom.
  repeat match goal with
         | |- context [if ?x then _ else _] => destruct x
         | |- context [match ?x with _ => _ end] => destruct x as [[[[? ?] ?] ?]|]
         end; discriminate.
Qed.

Lemma scan_once_fuel (depth : nat) : well_behaved (scan_once depth).
Proof.
  induction depth as [|d IH].
  - split.
    + intros s v r H. destruct s as [|c s]; [discriminate|].
      cbn [scan_once] in H.
      destruct (N.eqb c 34).
      { destruct (scanstring s) as [e | [t q]] eqn:E; [discriminate|].
        inv H. apply (scanstring_shorter _ _ _ _ (le_n _)) in E. simpl. lia. }
      destruct (N.eqb c 123); [discriminate|].
      destruct (N.eqb c 91); [discriminate|].
      now apply (scan_atom_shorter c s v r).
    + intros s. destruct s as [|c s]; [discriminate|].
      cbn [scan_once].
      destruct (N.eqb c 34).
      { destruct (scanstring s) as [e | [t q]] eqn:E; [|discriminate].
        intros X. inv X.
        apply (scanstring_error _ _ _ (le_n _)) in E. discriminate. }
      destruct (N.eqb c 123); [discriminate|].
      destruct (N.eqb c 91); [discriminate|].
      apply scan_atom_error.
  - split.
    + intros s v r H. destruct s as [|c s]; [discriminate|].
      cbn [scan_once] in H.
      destruct (N.eqb c 34).
      { destruct (scanstring s) as [e | [t q]] eqn:E; [discriminate|].
        inv H. apply (scanstring_shorter _ _ _ _ (le_n _)) in E. simpl. lia. }
      destruct (N.eqb c 123).
      { apply (proj1 (JSONObject_fuel _ IH s)) in H. simpl. lia. }
      destruct (N.eqb c 91).
      { apply (proj1 (JSONArray_fuel _ IH s)) in H. simpl. lia. }
      now apply (scan_atom_shorter c s v r).
    + intros s. destruct s as [|c s]; [discriminate|].
      cbn [scan_once].
      destruct (N.eqb c 34).
      { destruct (scanstring s) as [e | [t q]] eqn:E; [|discriminate].
        intros X. inv X.
        apply (scanstring_error _ _ _ (le_n _)) in E. discriminate. }
      destruct (N.eqb c 123); [apply (JSONObject_fuel _ IH)|].
      destruct (N.eqb c 91); [apply (JSONArray_fuel _ IH)|].
      apply scan_atom_error.
Qed.

(** The fuel of the two loops of the decoder is never used up. *)
Lemma json_loads_fuel (depth : nat) (s : str) :
  json_loads depth s <> inl fuel_spent.
Proof.
  unfold json_loads. destruct (startswith [65279%N] s); [discriminate|].
  destruct (scan_once depth (skip_ws s)) as [e | [v r]] eqn:E.
  - intros X. inv X. now apply (proj2 (scan_once_fuel depth) (skip_ws s)).
  - destruct (skip_ws r); discriminate.
Qed.

(* ================================================================= *)
(** ** Properties of the extractor *)

Lemma validate_fold (l : list json) (acc : list action_item) :
  fold_left validate_step l acc = acc ++ List.map emitted (filter kept l).
Proof.
  revert acc. induction l as [|x l IH]; intros acc; simpl.
  - now rewrite app_nil_r.
  - rewrite IH. destruct x; simpl; try reflexivity.
    destruct (dict_has members (u "task")); simpl; [|reflexivity].
    now rewrite <- app_assoc.
Qed.

Lemma validate_spec (l : list json) :
  validate l = List.map emitted (filter kept l).
Proof. unfold validate. now rewrite validate_fold. Qed.

(** The body of the [try] statement once the model has answered. *)
Lemma extract_body_answered env t resp fr :
  initialize_gemini env = inr tt ->
  generate_content env (make_prompt t) = inr resp ->
  let payload := unwrap (strip resp) in
  let fr' := Frame (Some payload) (ui fr ++ [spinner]) in
  extract_body env t fr =
  match json_loads (recursion_headroom env) payload with
  | inl e => (inl e, fr')
  | inr v =>
      match py_iter v with
      | inl e => (inl e, fr')
      | inr items => (inr (validate items), fr')
      end
  end.
Proof.
  intros H1 H2. unfold extract_body, bind, lift, show, assign, ret.
  rewrite H1, H2. cbn [ui response_text].
  destruct (json_loads _ _) as [e|v]; [reflexivity|].
  destruct (py_iter v); reflexivity.
Qed.

Lemma extract_nonempty env t fr :
  truthy t = true ->
  extract_action_items env t fr =
  try_except (extract_body env t)
    [ (isinstance_JSONDecodeError, on_json_error);
      (isinstance_Exception, on_error) ] fr.
Proof. intros H. unfold extract_action_items. now rewrite H. Qed.

Lemma handled_json msg fr :
  on_json_error (JSONDecodeError msg) fr =
  (inr [],
   Frame (response_text fr)
     (ui fr ++ [st_error parse_failed (JSONDecodeError msg)] ++
      match response_text fr with Some t => [st_code t] | None => [] end)).
Proof.
  unfold on_json_error, bind, show, ret. cbn [response_text ui].
  destruct (response_text fr); cbn [response_text ui].
  - now rewrite <- app_assoc.
  - now rewrite app_nil_r.
Qed.

Lemma raised_inside_body env t fr e :
  raised_inside env t e -> fst (extract_body env t fr) = inl e.
Proof.
  intros [e' H | e' H1 H2 | resp e' H1 H2 H3 | resp v e' H1 H2 H3 H4].
  - unfold extract_body, bind, lift. now rewrite H.
  - unfold extract_body, bind, lift, show. now rewrite H1, H2.
  - rewrite (extract_body_answered env t resp fr H1 H2). cbv zeta.
    now rewrite H3.
  - rewrite (extract_body_answered env t resp fr H1 H2). cbv zeta.
    now rewrite H3, H4.
Qed.

Lemma caught_and_shown env t fr e :
  truthy t = true ->
  fst (extract_body env t fr) = inl e ->
  fst (extract_action_items env t fr) = inr [] /\
  In (st_error (shown_as e) e) (ui (snd (extract_action_items env t fr))).
Proof.
  intros T H. rewrite extract_nonempty by exact T.
  unfold try_except.
  destruct (extract_body env t fr) as [[e'|v] fr']; [|discriminate].
  simpl in H. injection H as ->.
  destruct e as [msg | cls msg];
    cbn [find fst snd isinstance_JSONDecodeError isinstance_Exception
         shown_as].
  - rewrite handled_json. split; [reflexivity|].
    cbn [snd ui]. apply in_or_app. right. now left.
  - split; [reflexivity|].
    unfold on_error, bind, show, ret. cbn [snd ui].
    apply in_or_app. right. now left.
Qed.

Lemma extract_answered env t resp v items fr :
  truthy t = true ->
  initialize_gemini env = inr tt ->
  generate_content env (make_prompt t) = inr resp ->
  json_loads (recursion_headroom env) (unwrap (strip resp)) = inr v ->
  py_iter v = inr items ->
  extract_action_items env t fr =
  (inr (validate items),
   Frame (Some (unwrap (strip resp))) (ui fr ++ [spinner])).
Proof.
  intros T I G L P. rewrite extract_nonempty by exact T.
  unfold try_except. rewrite (extract_body_answered env t resp fr I G).
  cbv zeta. now rewrite L, P.
Qed.

Lemma validate_no_objects (l : list json) :
  Forall (fun x => kept x = false) l -> validate l = [].
Proof.
  intros H. rewrite validate_spec.
  induction H as [|x l Hx _ IH]; simpl; [reflexivity|]. now rewrite Hx.
Qed.

(** C1, counterexample.  The response [{"task": "Review PR"}] is
    well-formed JSON but not the array that was asked for.
    [extract_action_items] returns the empty list for it and shows the
    spinner and nothing else: there is no diagnostic. *)
Lemma malformed_without_diagnostic :
  json_loads 1000 (uq "{'task': 'Review PR'}") =
  inr (JObj [(u "task", JStr (u "Review PR"))]) /\
  extract_action_items (mocked (uq "{'task': 'Review PR'}")) (u "notes") fresh =
  (inr [], Frame (Some (uq "{'task': 'Review PR'}")) [spinner]).
Proof. split; vm_compute; reflexivity. Qed.

(** C1, amended.  Whatever the text and whatever the environment does,
    [extract_action_items] returns a list and raises nothing; the empty
    text gives the empty list and nothing is shown.  Whenever something
    is raised inside the [try] statement, by [initialize_gemini], by
    the call of the model, by [json.loads] on the payload or by the
    loop over a value that is not iterable, the result is the empty
    list and [st.error] has shown the exception.  One of these is the
    case or the payload has parsed into a value that is iterable; then
    nothing is raised, the result is what validation keeps and nothing
    but the spinner is shown, so that a response which is an object or
    a text gives the empty list without a diagnostic. *)
Theorem extract_never_raises env t fr :
  (exists items, fst (extract_action_items env t fr) = inr items) /\
  (truthy t = false -> extract_action_items env t fr = (inr [], fr)) /\
  (forall e,
      truthy t = true -> raised_inside env t e ->
      fst (extract_action_items env t fr) = inr [] /\
      In (st_error (shown_as e) e)
         (ui (snd (extract_action_items env t fr)))) /\
  ((exists e, raised_inside env t e) \/
   (exists resp v items,
       initialize_gemini env = inr tt /\
       generate_content env (make_prompt t) = inr resp /\
       json_loads (recursion_headroom env) (unwrap (strip resp)) = inr v /\
       py_iter v = inr items)) /\
  (forall resp v items,
      truthy t = true ->
      initialize_gemini env = inr tt ->
      generate_content env (make_prompt t) = inr resp ->
      json_loads (recursion_headroom env) (unwrap (strip resp)) = inr v ->
      py_iter v = inr items ->
      extract_action_items env t fr =
      (inr (validate items),
       Frame (Some (unwrap (strip resp))) (ui fr ++ [spinner])) /\
      ((forall elems, v <> JArr elems) -> validate items = [])).
Proof.
  split; [|split; [|split; [|split]]].
  - unfold extract_action_items.
    destruct (truthy t); simpl; [|eexists; reflexivity].
    unfold try_except.
    destruct (extract_body env t fr) as [[e|v] fr']; [|eexists; reflexivity].
    destruct e as [msg | cls msg];
      cbn [find fst snd isinstance_JSONDecodeError isinstance_Exception].
    + rewrite handled_json. eexists; reflexivity.
    + eexists; reflexivity.
  - intros T. unfold extract_action_items. now rewrite T.
  - intros e T R. apply caught_and_shown; [exact T|].
    now apply raised_inside_body.
  - destruct (initialize_gemini env) as [e | []] eqn:I;
      [left; exists e; now apply by_setup|].
    destruct (generate_content env (make_prompt t)) as [e | resp] eqn:G;
      [left; exists e; now apply by_call|].
    destruct (json_loads (recursion_headroom env) (unwrap (strip resp)))
      as [e | v] eqn:L;
      [left; exists e; now apply (by_parser env t resp)|].
    destruct (py_iter v) as [e | items] eqn:P;
      [left; exists e; now apply (by_loop env t resp v)|].
    right. exists resp, v, items. now rewrite L, P.
  - intros resp v items T I G L P.
    split; [now apply (extract_answered env t resp v)|].
    intros NA.
    destruct v as [| b | z | x | s | elems | members]; cbn [py_iter] in P;
      try discriminate; injection P as <-.
    + apply validate_no_objects, Forall_forall.
      intros x Hx. apply in_map_iff in Hx. destruct Hx as [c [<- _]].
      reflexivity.
    + now contradiction (NA elems).
    + apply validate_no_objects, Forall_forall.
      intros x Hx. apply in_map_iff in Hx. destruct Hx as [c [<- _]].
      reflexivity.
Qed.

Lemma extract_never_raises_witness :
  (fst (extract_action_items no_api_key (u "notes") fresh) = inr [] /\
   In (st_error call_failed missing_key)
      (ui (snd (extract_action_items no_api_key (u "notes") fresh)))) /\
  (fst (extract_action_items offline (u "notes") fresh) = inr [] /\
   In (st_error call_failed connection_error)
      (ui (snd (extract_action_items offline (u "notes") fresh)))) /\
  (fst (extract_action_items (mocked (u "not json at all")) (u "notes") fresh)
   = inr [] /\
   In (st_error parse_failed expecting_value)
      (ui (snd (extract_action_items (mocked (u "not json at all"))
                  (u "notes") fresh)))) /\
  (fst (extract_action_items (mocked (u "null")) (u "notes") fresh) = inr [] /\
   In (st_error call_failed (not_iterable "NoneType"))
      (ui (snd (extract_action_items (mocked (u "null")) (u "notes") fresh)))) /\
  extract_action_items (mocked (uq "'none today'")) (u "notes") fresh =
  (inr (validate (List.map (fun c => JStr [c]) (u "none today"))),
   Frame (Some (uq "'none today'")) [spinner]) /\
  validate (List.map (fun c => JStr [c]) (u "none today")) = [].
Proof.
  split; [|split; [|split; [|split]]].
  - apply (proj1 (proj2 (proj2
             (extract_never_raises no_api_key (u "notes") fresh)))
             missing_key eq_refl).
    apply by_setup. reflexivity.
  - apply (proj1 (proj2 (proj2
             (extract_never_raises offline (u "notes") fresh)))
             connection_error eq_refl).
    apply by_call; reflexivity.
  - apply (proj1 (proj2 (proj2
             (extract_never_raises (mocked (u "not json at all"))
                (u "notes") fresh)))
             expecting_value eq_refl).
    apply (by_parser _ _ (u "not json at all")); vm_compute; reflexivity.
  - apply (proj1 (proj2 (proj2
             (extract_never_raises (mocked (u "null")) (u "notes") fresh)))
             (not_iterable "NoneType") eq_refl).
    apply (by_loop _ _ (u "null") JNull); vm_compute; reflexivity.
  - destruct (proj2 (proj2 (proj2 (proj2
               (extract_never_raises (mocked (uq "'none today'"))
                  (u "notes") fresh))))
               (uq "'none today'") (JStr (u "none today"))
               (List.map (fun c => JStr [c]) (u "none today"))
               eq_refl eq_refl eq_refl) as [E V].
    + vm_compute. reflexivity.
    + reflexivity.
    + split; [exact E|]. apply V. intros elems. discriminate.
Defined.

(** C7.  When the payload parses as JSON and the value is not an array,
    [extract_action_items] returns the empty list: the keys of an
    object and the characters of a text are no objects and all are
    dropped, and the [TypeError] that a number, a boolean or [null]
    raises in the loop is caught and shown. *)
Theorem extract_non_array env t resp v :
  truthy t = true ->
  initialize_gemini env = inr tt ->
  generate_content env (make_prompt t) = inr resp ->
  json_loads (recursion_headroom env) (unwrap (strip resp)) = inr v ->
  (forall elems, v <> JArr elems) ->
  fst (extract_action_items env t fresh) = inr [] /\
  match py_iter v with
  | inr _ => ui (snd (extract_action_items env t fresh)) = [spinner]
  | inl e => ui (snd (extract_action_items env t fresh)) =
             [spinner; st_error call_failed e]
  end.
Proof.
  intros T I G L NA. rewrite extract_nonempty by exact T.
  unfold try_except. rewrite (extract_body_answered env t resp fresh I G).
  cbv zeta. rewrite L.
  destruct v as [| b | z | x | s | elems | members]; cbn [py_iter];
    try (split; reflexivity).
  - rewrite validate_no_objects; [split; reflexivity|].
    apply Forall_forall. intros x Hx. apply in_map_iff in Hx.
    destruct Hx as [c [<- _]]. reflexivity.
  - now contradiction (NA elems).
  - rewrite validate_no_objects; [split; reflexivity|].
    apply Forall_forall. intros x Hx. apply in_map_iff in Hx.
    destruct Hx as [c [<- _]]. reflexivity.
Qed.

Lemma extract_non_array_witness :
  (fst (extract_action_items (mocked (uq "{'task': 'Review PR'}"))
          (u "notes") fresh) = inr [] /\
   ui (snd (extract_action_items (mocked (uq "{'task': 'Review PR'}"))
              (u "notes") fresh)) = [spinner]) /\
  (fst (extract_action_items (mocked (u "42")) (u "notes") fresh) = inr [] /\
   ui (snd (extract_action_items (mocked (u "42")) (u "notes") fresh)) =
   [spinner; st_error call_failed (not_iterable "int")]).
Proof.
  split.
  - apply (extract_non_array (mocked (uq "{'task': 'Review PR'}")) (u "notes")
             (uq "{'task': 'Review PR'}")
             (JObj [(u "task", JStr (u "Review PR"))])).
    + reflexivity.
    + reflexivity.
    + reflexivity.
    + vm_compute. reflexivity.
    + intros elems. discriminate.
  - apply (extract_non_array (mocked (u "42")) (u "notes") (u "42") (JInt 42)).
    + reflexivity.
    + reflexivity.
    + reflexivity.
    + vm_compute. reflexivity.
    + intros elems. discriminate.
Defined.

(** C6, counterexample.  A payload of 1500 opening brackets is not
    parseable: [json.loads] raises [RecursionError], which is no
    [JSONDecodeError].  [extract_action_items] returns the empty list
    and [st.error] shows the exception under the words of the general
    clause; nothing shows the payload. *)
Lemma deep_payload_not_shown :
  json_loads 1000 deep_response = inl recursion_error /\
  extract_action_items (mocked deep_response) (u "notes") fresh =
  (inr [],
   Frame (Some deep_response)
         [ spinner; st_error call_failed recursion_error ]).
Proof. split; vm_compute; reflexivity. Qed.

(** C6, amended.  When [json.loads] rejects the payload with a
    [JSONDecodeError], [extract_action_items] returns the empty list
    and raises nothing; [st.error] shows the exception and [st.code]
    shows the payload that was rejected.  This is what happens with the
    response [not json at all].  When [json.loads] raises another
    exception on the payload, the empty list is returned and nothing
    is raised as well; [st.error] shows the exception under the words
    of the general clause and the payload is not shown. *)
Theorem extract_parse_failure :
  (forall env t resp msg,
      truthy t = true ->
      initialize_gemini env = inr tt ->
      generate_content env (make_prompt t) = inr resp ->
      json_loads (recursion_headroom env) (unwrap (strip resp))
      = inl (JSONDecodeError msg) ->
      extract_action_items env t fresh =
      (inr [],
       Frame (Some (unwrap (strip resp)))
             [ spinner;
               st_error parse_failed (JSONDecodeError msg);
               st_code (unwrap (strip resp)) ])) /\
  (forall t,
      truthy t = true ->
      extract_action_items (mocked (u "not json at all")) t fresh =
      (inr [],
       Frame (Some (u "not json at all"))
             [ spinner;
               st_error parse_failed expecting_value;
               st_code (u "not json at all") ])) /\
  (forall env t resp cls msg,
      truthy t = true ->
      initialize_gemini env = inr tt ->
      generate_content env (make_prompt t) = inr resp ->
      json_loads (recursion_headroom env) (unwrap (strip resp))
      = inl (PyException cls msg) ->
      extract_action_items env t fresh =
      (inr [],
       Frame (Some (unwrap (strip resp)))
             [ spinner; st_error call_failed (PyException cls msg) ])).
Proof.
  assert (forall env t r m,
   truthy t = true ->
   initialize_gemini env = inr tt ->
   generate_content env (make_prompt t) = inr r ->
   json_loads (recursion_headroom env) (unwrap (strip r))
     = inl (JSONDecodeError m) ->
   extract_action_items env t fresh =
   (inr [],
    Frame (Some (unwrap (strip r)))
          [ spinner;
            st_error parse_failed (JSONDecodeError m);
            st_code (unwrap (strip r)) ])) as K.
  { intros env t r m T I G L. rewrite extract_nonempty by exact T.
    unfold try_except. rewrite (extract_body_answered env t r fresh I G).
    cbv zeta. rewrite L.
    cbn [find fst snd isinstance_JSONDecodeError].
    rewrite handled_json. reflexivity. }
  split; [exact K|]. split.
  - intros t T.
    apply (K (mocked (u "not json at all")) t (u "not json at all")
             (u "Expecting value") T eq_refl eq_refl).
    vm_compute. reflexivity.
  - intros env t r cls m T I G L. rewrite extract_nonempty by exact T.
    unfold try_except. rewrite (extract_body_answered env t r fresh I G).
    cbv zeta. rewrite L. reflexivity.
Qed.

Lemma extract_parse_failure_witness :
  extract_action_items (mocked (u "[1, 2")) (u "notes") fresh =
  (inr [],
   Frame (Some (u "[1, 2"))
         [ spinner;
           st_error parse_failed expecting_comma;
           st_code (u "[1, 2") ]) /\
  extract_action_items (mocked (u "not json at all")) (u "notes") fresh =
  (inr [],
   Frame (Some (u "not json at all"))
         [ spinner;
           st_error parse_failed expecting_value;
           st_code (u "not json at all") ]) /\
  extract_action_items (mocked (repeat 91%N 1200)) (u "notes") fresh =
  (inr [],
   Frame (Some (unwrap (strip (repeat 91%N 1200))))
         [ spinner; st_error call_failed recursion_error ]).
Proof.
  split; [|split].
  - apply (proj1 extract_parse_failure (mocked (u "[1, 2")) (u "notes")
             (u "[1, 2") (u "Expecting ',' delimiter")).
    + reflexivity.
    + reflexivity.
    + reflexivity.
    + vm_compute. reflexivity.
  - apply (proj1 (proj2 extract_parse_failure) (u "notes")). reflexivity.
  - apply (proj2 (proj2 extract_parse_failure) (mocked (repeat 91%N 1200))
             (u "notes") (repeat 91%N 1200)
             (u "RecursionError") (u "maximum recursion depth exceeded")).
    + reflexivity.
    + reflexivity.
    + reflexivity.
    + vm_compute. reflexivity.
Defined.


Lemma startswith_length (sep s : str) :
  startswith sep s = true -> List.length sep <= List.length s.
Proof.
  revert s. induction sep as [|a sep IH]; intros s H; simpl; [lia|].
  destruct s as [|b s]; [discriminate|]. simpl in H.
  apply andb_prop in H. destruct H as [_ H]. apply IH in H. simpl. lia.
Qed.

Lemma startswith_app (sep x y : str) :
  startswith sep x = true -> startswith sep (x ++ y) = true.
Proof.
  revert x. induction sep as [|a sep IH]; intros x H; [reflexivity|].
  destruct x as [|b x]; [discriminate|]. simpl in *.
  apply andb_prop in H. destruct H as [H1 H2]. now rewrite H1, IH.
Qed.

Lemma startswith_shorter (p q s : str) :
  startswith (p ++ q) s = true -> startswith p s = true.
Proof.
  revert s. induction p as [|a p IH]; intros s H; [reflexivity|].
  destruct s as [|b s]; [discriminate|]. simpl in *.
  apply andb_prop in H. destruct H as [H1 H2]. now rewrite H1, IH.
Qed.

Lemma contains_occurs (sep s : str) :
  contains sep s = true <-> exists j, occurs_at sep s j.
Proof.
  unfold occurs_at. induction s as [|c s IH].
  - simpl. rewrite orb_false_r. split.
    + intros H. exists 0. exact H.
    + intros [j H]. now rewrite skipn_nil in H.
  - cbn [contains]. rewrite orb_true_iff, IH. split.
    + intros [H | [j H]]; [now exists 0 | now exists (S j)].
    + intros [[|j] H]; [now left | right; now exists j].
Qed.

Lemma contains_absent (sep s : str) :
  contains sep s = false <-> absent sep s.
Proof.
  split.
  - intros H j O. assert (contains sep s = true) by (apply contains_occurs; eauto).
    congruence.
  - intros H. destruct (contains sep s) eqn:E; [|reflexivity].
    apply contains_occurs in E. destruct E as [j O]. now apply H in O.
Qed.

Lemma split_from_skip (sep s : str) (n : nat) :
  n <= List.length s -> split_from sep s n = split_from sep (skipn n s) 0.
Proof.
  revert n. induction s as [|c s IH]; intros n H; simpl in H.
  - now replace n with 0 by lia.
  - destruct n as [|n]; [reflexivity|]. simpl. apply IH. lia.
Qed.

Lemma split_first (sep s : str) (i : nat) :
  sep <> [] -> first_occ sep s i ->
  split s sep = firstn i s :: split (skipn (i + List.length sep) s) sep.
Proof.
  intros NE. unfold split. revert s.
  induction i as [|i IH]; intros s [O F]; unfold occurs_at in O.
  - simpl in O. destruct s as [|c s].
    { destruct sep; [contradiction | discriminate]. }
    cbn [split_from firstn]. rewrite O. f_equal.
    pose proof (startswith_length _ _ O) as L. simpl in L.
    rewrite split_from_skip by lia.
    destruct sep as [|a sep]; [contradiction|].
    simpl. now rewrite Nat.sub_0_r.
  - destruct s as [|c s].
    { simpl in O. destruct sep; [contradiction | discriminate]. }
    assert (startswith sep (c :: s) = false) as Z.
    { destruct (startswith sep (c :: s)) eqn:E; [|reflexivity].
      exfalso. apply (F 0); [lia | exact E]. }
    cbn [split_from firstn]. rewrite Z.
    rewrite (IH s).
    + reflexivity.
    + split; [exact O|]. intros j Hj Oj. apply (F (S j)); [lia | exact Oj].
Qed.

Lemma split_absent (sep s : str) : absent sep s -> split s sep = [s].
Proof.
  unfold split. induction s as [|c s IH]; intros A; [reflexivity|].
  assert (startswith sep (c :: s) = false) as Z.
  { destruct (startswith sep (c :: s)) eqn:E; [|reflexivity].
    exfalso. now apply (A 0). }
  cbn [split_from]. rewrite Z, IH; [reflexivity|].
  intros j Oj. now apply (A (S j)).
Qed.

Lemma split_head (sep s q : str) :
  sep <> [] -> cut sep s q -> nth 0 (split s sep) [] = q.
Proof.
  intros NE [[i [F ->]] | [A ->]].
  - now rewrite (split_first sep s i NE F).
  - now rewrite split_absent.
Qed.

Lemma cut_absent (sep s q : str) : sep <> [] -> cut sep s q -> absent sep q.
Proof.
  intros NE [[i [[O F] ->]] | [A ->]]; [|exact A].
  intros j Oj. unfold occurs_at in Oj.
  pose proof (startswith_length _ _ Oj) as L.
  rewrite length_skipn, length_firstn in L.
  assert (1 <= List.length sep) by (destruct sep; [contradiction | simpl; lia]).
  apply (F j); [lia|]. unfold occurs_at.
  rewrite <- (firstn_skipn i s) at 1.
  rewrite skipn_app. now apply startswith_app.
Qed.

Lemma fence_json_length : List.length fence_json = 7.
Proof. reflexivity. Qed.

Lemma fence_length : List.length fence = 3.
Proof. reflexivity. Qed.

Lemma fence_json_nonempty : fence_json <> [].
Proof. discriminate. Qed.

Lemma fence_nonempty : fence <> [].
Proof. discriminate. Qed.

Lemma find_sub_first (sep s : str) (i : nat) :
  find_sub sep s = Some i -> first_occ sep s i.
Proof.
  revert i. induction s as [|c s IH]; intros i H.
  - simpl in H. destruct (startswith sep []) eqn:E; [|discriminate].
    inv H. split; [exact E | intros j Hj; lia].
  - cbn [find_sub] in H. destruct (startswith sep (c :: s)) eqn:E.
    + inv H. split; [exact E | intros j Hj; lia].
    + destruct (find_sub sep s) as [k|] eqn:F; [|discriminate].
      inv H. destruct (IH k eq_refl) as [O N]. split; [exact O|].
      intros [|j] Hj Oj.
      * unfold occurs_at in Oj. simpl in Oj. congruence.
      * apply (N j); [lia | exact Oj].
Qed.

Lemma find_sub_absent (sep s : str) :
  find_sub sep s = None -> absent sep s.
Proof.
  induction s as [|c s IH]; intros H j O; unfold occurs_at in O.
  - rewrite skipn_nil in O. simpl in H. now rewrite O in H.
  - cbn [find_sub] in H. destruct (startswith sep (c :: s)) eqn:E; [discriminate|].
    destruct (find_sub sep s) eqn:F; [discriminate|].
    destruct j as [|j]; [simpl in O; congruence|].
    now apply (IH eq_refl j).
Qed.



Lemma str_eqb_eq (a b : str) : str_eqb a b = true <-> a = b.
Proof.
  unfold str_eqb. destruct (list_eq_dec N.eq_dec a b); split;
    congruence || discriminate || auto.
Qed.

Lemma dict_has_in (d : list (str * json)) (k : str) :
  dict_has d k = true <-> In k (List.map fst d).
Proof.
  unfold dict_has. induction d as [|[k' v] d IH]; simpl.
  - split; [discriminate | contradiction].
  - destruct (str_eqb k k') eqn:E.
    + apply str_eqb_eq in E. subst. split; auto.
    + split.
      * intros H. right. now apply IH.
      * intros [H | H]; [|now apply IH].
        subst. assert (str_eqb k k = true) by now apply str_eqb_eq.
        congruence.
Qed.

(** C3.  Validation keeps exactly the elements that are objects with a
    key [task], in their order, each as the record of its [assignee] (or
    Unassigned), its [task], whatever its value, and its [priority]
    (or Medium), whatever its value.  The sample response with a first
    element without task yields the single item Review PR. *)
Theorem validation_keeps_tasks :
  (forall item,
      kept item = true <->
      exists d, item = JObj d /\ In (u "task") (List.map fst d)) /\
  (forall elems, validate elems = List.map emitted (filter kept elems)) /\
  (forall env t resp elems,
      truthy t = true ->
      initialize_gemini env = inr tt ->
      generate_content env (make_prompt t) = inr resp ->
      json_loads (recursion_headroom env) (unwrap (strip resp))
      = inr (JArr elems) ->
      fst (extract_action_items env t fresh) =
      inr (List.map emitted (filter kept elems))) /\
  (forall t,
      truthy t = true ->
      fst (extract_action_items
             (mocked (uq "[{'assignee':'Ann'},{'task':'Review PR','priority':'High'}]"))
             t fresh) =
      inr [ActionItem (JStr (u "Unassigned")) (JStr (u "Review PR"))
                      (JStr (u "High"))]) /\
  validate [ JObj [(u "task", JStr []); (u "priority", JStr (u "Urgent"))];
             JStr (u "task");
             JObj [(u "assignee", JNull); (u "task", JInt 7)] ] =
  [ ActionItem (JStr (u "Unassigned")) (JStr []) (JStr (u "Urgent"));
    ActionItem JNull (JInt 7) (JStr (u "Medium")) ].
Proof.
  split; [|split; [|split; [|split]]].
  - intros item. destruct item as [| b | z | x | s | elems | d]; simpl;
      try (split; [discriminate | intros [d [H _]]; discriminate]).
    rewrite dict_has_in. split.
    + intros H. exists d. auto.
    + intros [d' [H1 H2]]. now inv H1.
  - exact validate_spec.
  - intros env t resp elems T I G L. rewrite extract_nonempty by exact T.
    unfold try_except. rewrite (extract_body_answered env t resp fresh I G).
    cbv zeta. rewrite L. cbn [py_iter fst]. now rewrite validate_spec.
  - intros t T. rewrite extract_nonempty by exact T.
    unfold try_except.
    rewrite (extract_body_answered
               (mocked (uq "[{'assignee':'Ann'},{'task':'Review PR','priority':'High'}]"))
               t (uq "[{'assignee':'Ann'},{'task':'Review PR','priority':'High'}]")
               fresh eq_refl eq_refl).
    vm_compute. reflexivity.
  - vm_compute. reflexivity.
Qed.

Lemma validation_keeps_tasks_witness :
  fst (extract_action_items
         (mocked (uq "[{'task':'Call Ann'}, 3, {'priority':'Low'}]"))
         (u "notes") fresh) =
  inr [ActionItem (JStr (u "Unassigned")) (JStr (u "Call Ann"))
                  (JStr (u "Medium"))] /\
  fst (extract_action_items
         (mocked (uq "[{'assignee':'Ann'},{'task':'Review PR','priority':'High'}]"))
         (u "notes") fresh) =
  inr [ActionItem (JStr (u "Unassigned")) (JStr (u "Review PR"))
                  (JStr (u "High"))].
Proof.
  split.
  - apply (proj1 (proj2 (proj2 validation_keeps_tasks))
             (mocked (uq "[{'task':'Call Ann'}, 3, {'priority':'Low'}]"))
             (u "notes")
             (uq "[{'task':'Call Ann'}, 3, {'priority':'Low'}]")
             [ JObj [(u "task", JStr (u "Call Ann"))];
               JInt 3;
               JObj [(u "priority", JStr (u "Low"))] ]).
    + reflexivity.
    + reflexivity.
    + reflexivity.
    + vm_compute. reflexivity.
  - apply (proj1 (proj2 (proj2 (proj2 validation_keeps_tasks))) (u "notes")).
    reflexivity.
Defined.

(* ================================================================= *)
(** ** Properties of [extract_speakers] *)

Lemma str_ltb_irrefl (a : str) : str_ltb a a = false.
Proof.
  induction a as [|x a IH]; [reflexivity|]. simpl.
  now rewrite N.ltb_irrefl, N.eqb_refl.
Qed.

Lemma str_ltb_trans (a b c : str) :
  str_ltb a b = true -> str_ltb b c = true -> str_ltb a c = true.
Proof.
  revert b c. induction a as [|x a IH]; intros [|y b] [|z c] H1 H2;
    try discriminate; try reflexivity.
  simpl in *.
  destruct (N.ltb x y) eqn:Lxy.
  - apply N.ltb_lt in Lxy. destruct (N.ltb y z) eqn:Lyz.
    + apply N.ltb_lt in Lyz. assert (N.ltb x z = true) as -> by (apply N.ltb_lt; lia).
      reflexivity.
    + destruct (N.eqb y z) eqn:Eyz; [|discriminate].
      apply N.eqb_eq in Eyz. subst.
      assert (N.ltb x z = true) as -> by (apply N.ltb_lt; lia). reflexivity.
  - destruct (N.eqb x y) eqn:Exy; [|discriminate].
    apply N.eqb_eq in Exy. subst.
    destruct (N.ltb y z); [reflexivity|].
    destruct (N.eqb y z); [|discriminate]. now apply (IH b c).
Qed.

Lemma str_ltb_total (a b : str) :
  str_ltb a b = false -> a = b \/ str_ltb b a = true.
Proof.
  revert b. induction a as [|x a IH]; intros [|y b] H; simpl in *;
    try discriminate; auto.
  destruct (N.ltb x y) eqn:Lxy; [discriminate|]. apply N.ltb_ge in Lxy.
  destruct (N.eqb x y) eqn:Exy.
  - apply N.eqb_eq in Exy. subst. rewrite N.ltb_irrefl, N.eqb_refl.
    destruct (IH b H) as [-> | R]; auto.
  - apply N.eqb_neq in Exy.
    assert (N.ltb y x = true) as -> by (apply N.ltb_lt; lia). auto.
Qed.

Lemma insert_sorted_in (x y : str) (l : list str) :
  In y (insert_sorted x l) <-> y = x \/ In y l.
Proof.
  induction l as [|z l IH]; simpl; [intuition|].
  destruct (str_ltb z x); simpl; rewrite ?IH; intuition.
Qed.

Lemma sorted_in (y : str) (l : list str) : In y (sorted l) <-> In y l.
Proof.
  induction l as [|x l IH]; simpl; [tauto|].
  rewrite insert_sorted_in, IH. intuition.
Qed.

Lemma insert_sorted_ok (x : str) (l : list str) :
  StronglySorted str_lt l -> ~ In x l ->
  StronglySorted str_lt (insert_sorted x l).
Proof.
  induction l as [|y l IH]; intros S N; simpl.
  - constructor; constructor.
  - inversion S as [|? ? S' F]; subst.
    destruct (str_ltb y x) eqn:E.
    + constructor.
      * apply IH; [exact S'|]. intros I. apply N. now right.
      * apply Forall_forall. intros z Hz. apply insert_sorted_in in Hz.
        destruct Hz as [-> | Hz]; [exact E|].
        rewrite Forall_forall in F. now apply F.
    + assert (str_lt x y) as L.
      { destruct (str_ltb_total y x E) as [-> | L]; [|exact L].
        exfalso. apply N. now left. }
      constructor; [exact S|]. constructor; [exact L|].
      apply Forall_forall. intros z Hz. rewrite Forall_forall in F.
      apply (str_ltb_trans x y z L). now apply F.
Qed.

Lemma sorted_ok (l : list str) : NoDup l -> StronglySorted str_lt (sorted l).
Proof.
  induction 1 as [|x l N _ IH]; simpl; [constructor|].
  apply insert_sorted_ok; [exact IH|]. now rewrite sorted_in.
Qed.

Lemma set_add_in (s : list str) (x y : str) :
  In y (set_add s x) <-> y = x \/ In y s.
Proof.
  unfold set_add. destruct (existsb (str_eqb x) s) eqn:E.
  - split; [auto|]. intros [-> | H]; [|exact H].
    apply existsb_exists in E. destruct E as [z [Hz E]].
    apply str_eqb_eq in E. now subst.
  - rewrite in_app_iff. simpl. intuition.
Qed.

Lemma set_add_nodup (s : list str) (x : str) : NoDup s -> NoDup (set_add s x).
Proof.
  intros H. unfold set_add. destruct (existsb (str_eqb x) s) eqn:E; [exact H|].
  apply NoDup_app; [exact H | repeat constructor; auto |].
  intros y Hy Hx. destruct Hx as [Hx | []]. subst y.
  assert (existsb (str_eqb x) s = true); [|congruence].
  apply existsb_exists. exists x. split; [exact Hy | now apply str_eqb_eq].
Qed.

Lemma speakers_fold (l : list turn) (s : list str) :
  NoDup s ->
  let r := fold_left (fun s entry =>
                 if truthy (speaker entry) then set_add s (speaker entry) else s)
                     l s in
  NoDup r /\
  forall x, In x r <-> In x s \/ (x <> [] /\ exists t, In t l /\ speaker t = x).
Proof.
  revert s. induction l as [|t l IH]; intros s N; simpl.
  - split; [exact N|]. intros x. split; [auto|].
    intros [H | [_ [t [[] _]]]]. exact H.
  - destruct (truthy (speaker t)) eqn:T.
    + destruct (IH (set_add s (speaker t)) (set_add_nodup s _ N)) as [A B].
      split; [exact A|]. intros x. rewrite B, set_add_in. split.
      * intros [[-> | H] | [H1 [t' [H2 H3]]]]; auto.
        -- right. split; [destruct (speaker t); discriminate || discriminate|].
           exists t. auto.
        -- right. split; [exact H1|]. exists t'. auto.
      * intros [H | [H1 [t' [[<- | H2] H3]]]]; auto.
        right. split; [exact H1|]. eauto.
    + destruct (IH s N) as [A B]. split; [exact A|]. intros x. rewrite B. split.
      * intros [H | [H1 [t' [H2 H3]]]]; auto.
        right. split; [exact H1|]. exists t'. auto.
      * intros [H | [H1 [t' [[<- | H2] H3]]]]; auto.
        -- exfalso. subst x. destruct (speaker t); [now apply H1 | discriminate].
        -- right. split; [exact H1|]. eauto.
Qed.

Lemma extract_speakers_in (l : list turn) (x : str) :
  In x (extract_speakers l) <-> x <> [] /\ exists t, In t l /\ speaker t = x.
Proof.
  unfold extract_speakers.
  destruct (speakers_fold l [] (NoDup_nil _)) as [_ M]. cbv zeta in *.
  rewrite sorted_in, M. simpl. tauto.
Qed.

Lemma extract_speakers_ordered (l : list turn) :
  StronglySorted str_lt (extract_speakers l).
Proof.
  unfold extract_speakers.
  destruct (speakers_fold l [] (NoDup_nil _)) as [N _]. cbv zeta in *.
  exact (sorted_ok _ N).
Qed.

Lemma ordered_nodup (l : list str) : StronglySorted str_lt l -> NoDup l.
Proof.
  induction 1 as [|a r S IH F]; constructor; [|exact IH].
  intros I. rewrite Forall_forall in F. apply F in I.
  unfold str_lt in I. now rewrite str_ltb_irrefl in I.
Qed.

(** X1.  [extract_speakers] returns the names in
    strictly ascending order of their code points, so none of them
    twice; a name is in the result exactly when it is the speaker of
    some entry and is not the empty text. *)
Theorem extract_speakers_sorted (l : list turn) :
  StronglySorted str_lt (extract_speakers l) /\
  NoDup (extract_speakers l) /\
  forall x, In x (extract_speakers l) <->
            x <> [] /\ exists t, In t l /\ speaker t = x.
Proof.
  split; [apply extract_speakers_ordered|].
  split; [apply ordered_nodup, extract_speakers_ordered|].
  intros x. apply extract_speakers_in.
Qed.

(* ================================================================= *)
(** ** The turns of [parse_transcript] as blocks of lines *)

Lemma parse_line_see (st : pstate) (raw_line : str) :
  parse_line st raw_line =
  if truthy (strip raw_line) then see st (drop_timestamp (strip raw_line))
  else st.
Proof. unfold parse_line, see. now destruct (truthy (strip raw_line)). Qed.

Lemma fold_see (lines : list str) (st : pstate) :
  fold_left parse_line lines st =
  fold_left see
    (List.map drop_timestamp (filter truthy (List.map strip lines))) st.
Proof.
  revert st. induction lines as [|l lines IH]; intros st; [reflexivity|].
  cbn [fold_left List.map filter]. rewrite IH, parse_line_see.
  now destruct (truthy (strip l)).
Qed.

Lemma header_name (line name t : str) :
  header line = Some (name, t) -> truthy name = true.
Proof.
  unfold header. destruct (re_match speaker_pattern line) as [m|] eqn:E;
    [|discriminate].
  intros H. inv H. apply speaker_pattern_sound in E.
  destruct E as [c [g1 [ws [g2 [tail [_ [U [_ [_ [-> _]]]]]]]]]].
  destruct (strip_solid_head c g1 (upper_not_space c U)) as [r ->].
  reflexivity.
Qed.

Lemma see_header (st : pstate) (line name t : str) :
  header line = Some (name, t) ->
  see st line = PState (flush st) (Some name) [t].
Proof.
  unfold header, see. destruct (re_match speaker_pattern line); [|discriminate].
  intros H. now inv H.
Qed.

Lemma see_loose (st : pstate) (line : str) :
  header line = None ->
  see st line =
  if truthy_opt (current_speaker st)
  then PState (parsed st) (current_speaker st) (current_text st ++ [line])
  else if nonempty (parsed st)
  then PState (extend_last (parsed st) line) (current_speaker st)
              (current_text st)
  else PState (parsed st ++ [Turn (u "Unknown") line])
              (current_speaker st) (current_text st).
Proof.
  unfold header, see. now destruct (re_match speaker_pattern line).
Qed.

Lemma join_snoc (sep : str) (l : list str) (x : str) :
  l <> [] -> join sep (l ++ [x]) = join sep l ++ sep ++ x.
Proof.
  induction l as [|a l IH]; intros N; [contradiction|].
  destruct l as [|b l]; [reflexivity|].
  change (a ++ sep ++ join sep ((b :: l) ++ [x]) =
          (a ++ sep ++ join sep (b :: l)) ++ sep ++ x).
  rewrite IH by discriminate. now rewrite <- !app_assoc.
Qed.

(** The loop from a state with a speaker in progress. *)
Lemma blocks_speaking (lines : list str) :
  forall p sp ct,
    truthy sp = true -> ct <> [] ->
    flush (fold_left see lines (PState p (Some sp) ct)) =
    p ++ Turn sp (join (u " ") (ct ++ fst (fold_right attach ([], []) lines)))
      :: snd (fold_right attach ([], []) lines).
Proof.
  induction lines as [|l lines IH]; intros p sp ct T N.
  - cbn [fold_left fold_right fst snd]. unfold flush.
    cbn [current_speaker current_text parsed]. rewrite T, app_nil_r.
    now destruct ct.
  - cbn [fold_left fold_right]. unfold attach at 1 3.
    destruct (header l) as [[name t]|] eqn:H.
    + rewrite (see_header _ l name t H).
      rewrite IH by (try discriminate; now apply (header_name l name t)).
      cbn [fst snd]. unfold flush at 1.
      cbn [current_speaker current_text parsed]. rewrite T.
      assert (nonempty ct = true) as -> by (now destruct ct).
      cbn [andb]. rewrite app_nil_r, <- app_assoc. reflexivity.
    + rewrite (see_loose _ l H). cbn [current_speaker truthy_opt parsed current_text].
      rewrite T. rewrite IH; [|exact T | now destruct ct].
      cbn [fst snd]. now rewrite <- app_assoc.
Qed.

(** The loop after text that came before any header. *)
Lemma blocks_unknown (lines : list str) :
  forall ls0,
    ls0 <> [] ->
    flush (fold_left see lines
             (PState [Turn (u "Unknown") (join (u " ") ls0)] None [])) =
    Turn (u "Unknown")
         (join (u " ") (ls0 ++ fst (fold_right attach ([], []) lines)))
      :: snd (fold_right attach ([], []) lines).
Proof.
  induction lines as [|l lines IH]; intros ls0 N.
  - cbn [fold_left fold_right fst snd]. now rewrite app_nil_r.
  - cbn [fold_left fold_right]. unfold attach at 1 3.
    destruct (header l) as [[name t]|] eqn:H.
    + rewrite (see_header _ l name t H).
      rewrite blocks_speaking by (try discriminate; now apply (header_name l name t)).
      cbn [fst snd]. now rewrite app_nil_r.
    + rewrite (see_loose _ l H).
      cbn [current_speaker truthy_opt parsed current_text nonempty extend_last
           speaker text].
      rewrite <- join_snoc by exact N.
      rewrite IH by (now destruct ls0).
      cbn [fst snd]. now rewrite <- app_assoc.
Qed.

Lemma blocks_init (lines : list str) :
  flush (fold_left see lines init_pstate) = blocks lines.
Proof.
  unfold blocks. destruct lines as [|l lines]; [reflexivity|].
  cbn [fold_left fold_right]. unfold attach at 1.
  destruct (header l) as [[name t]|] eqn:H.
  - unfold init_pstate. rewrite (see_header _ l name t H).
    rewrite blocks_speaking by (try discriminate; now apply (header_name l name t)).
    reflexivity.
  - unfold init_pstate. rewrite (see_loose _ l H).
    cbn [current_speaker truthy_opt parsed current_text nonempty app].
    pose proof (blocks_unknown lines [l]) as K. cbn [join] in K.
    rewrite K by discriminate. reflexivity.
Qed.

(* ================================================================= *)
(** ** Speakers and texts of the blocks *)

Lemma attach_speakers (lines : list str) :
  List.map speaker (snd (fold_right attach ([], []) lines)) = header_names lines.
Proof.
  induction lines as [|l lines IH]; [reflexivity|].
  cbn [fold_right header_names flat_map]. unfold attach at 1.
  destruct (header l) as [[name t]|]; cbn [snd List.map speaker app];
    now rewrite IH.
Qed.

Lemma blocks_speakers (lines : list str) :
  List.map speaker (blocks lines) = leading_unknown lines ++ header_names lines.
Proof.
  unfold blocks. destruct lines as [|l lines]; [reflexivity|].
  pose proof (attach_speakers (l :: lines)) as A.
  cbn [fold_right leading_unknown] in *. unfold attach at 1 in A.
  unfold attach at 1.
  destruct (header l) as [[name t]|] eqn:H; cbn [fst snd] in *.
  - exact A.
  - cbn [List.map speaker app]. now rewrite A.
Qed.

Lemma join_cons (sep a : str) (l : list str) :
  l <> [] -> join sep (a :: l) = a ++ sep ++ join sep l.
Proof. destruct l; [contradiction | reflexivity]. Qed.

Lemma join_nested (sep a : str) (l t : list str) :
  join sep (join sep (a :: l) :: t) =
  join sep (a :: match l with [] => t | _ => join sep l :: t end).
Proof.
  destruct l as [|b l]; [reflexivity|].
  rewrite (join_cons sep a (b :: l)) by discriminate.
  rewrite (join_cons sep a (join sep (b :: l) :: t)) by discriminate.
  destruct t as [|c t].
  - reflexivity.
  - rewrite (join_cons sep (a ++ sep ++ join sep (b :: l))) by discriminate.
    rewrite (join_cons sep (join sep (b :: l))) by discriminate.
    now rewrite <- !app_assoc.
Qed.

Lemma pieces_attach (l : str) (acc : list str * list turn) :
  exists x,
    x = content l /\
    join (u " ") (pieces (attach l acc)) = join (u " ") (x :: pieces acc) /\
    pieces (attach l acc) <> [].
Proof.
  exists (content l). split; [reflexivity|].
  unfold attach, content, pieces. destruct acc as [loose turns].
  destruct (header l) as [[name t]|]; cbn [fst snd List.map text].
  - split; [|discriminate]. rewrite join_nested. now destruct loose.
  - split; [|discriminate]. rewrite join_nested. now destruct loose.
Qed.

Lemma pieces_content (lines : list str) :
  forall pre,
    join (u " ") (pre :: pieces (fold_right attach ([], []) lines)) =
    join (u " ") (pre :: List.map content lines).
Proof.
  induction lines as [|l lines IH]; intros pre; [reflexivity|].
  cbn [fold_right List.map].
  destruct (pieces_attach l (fold_right attach ([], []) lines))
    as [x [-> [J N]]].
  rewrite (join_cons _ pre) by exact N.
  rewrite (join_cons _ pre (content l :: _)) by discriminate.
  now rewrite J, IH.
Qed.

Lemma blocks_pieces (lines : list str) :
  List.map text (blocks lines) = pieces (fold_right attach ([], []) lines).
Proof.
  unfold blocks, pieces.
  destruct (fold_right attach ([], []) lines) as [[|a loose] turns]; reflexivity.
Qed.

Lemma blocks_text (lines : list str) :
  join (u " ") (List.map text (blocks lines)) =
  join (u " ") (List.map content lines).
Proof.
  rewrite blocks_pieces. destruct lines as [|l lines]; [reflexivity|].
  cbn [fold_right List.map].
  destruct (pieces_attach l (fold_right attach ([], []) lines))
    as [x [-> [J _]]].
  rewrite J. apply pieces_content.
Qed.

(* ================================================================= *)
(** ** The lines that are headers *)

(** A greedy run that takes all it can, when the rest of the pattern
    matches behind it. *)
Lemma many_all p (w s : str) n k x :
  forallb p w = true ->
  match s with [] => True | c :: _ => p c = false end ->
  k (n + List.length w) s = Some x ->
  many p (w ++ s) n k = Some x.
Proof.
  revert n. induction w as [|a w IH]; intros n W Hs K.
  - cbn [app]. cbn [List.length] in K. rewrite Nat.add_0_r in K.
    destruct s as [|c s]; [exact K|]. cbn [many]. now rewrite Hs.
  - cbn [app many]. cbn [forallb] in W. apply andb_prop in W.
    destruct W as [-> W]. rewrite (IH (S n) W Hs); [reflexivity|].
    cbn [List.length] in K. now rewrite Nat.add_succ_comm.
Qed.

Lemma colon_not_name : is_name_char colon = false.
Proof. vm_compute. reflexivity. Qed.

Lemma speaker_pattern_complete (c g0 : char) (g ws : str) (d : char) (t : str) :
  is_upper_az c = true -> is_name_char g0 = true ->
  forallb is_name_char g = true -> forallb is_space ws = true ->
  is_space d = false -> forallb is_dot (d :: t) = true ->
  exists m,
    re_match speaker_pattern (c :: g0 :: g ++ colon :: ws ++ d :: t) = Some m /\
    group m 1 = c :: g0 :: g /\ group m 2 = d :: t.
Proof.
  intros U G0 G W D T. cbn [forallb] in T. apply andb_prop in T.
  destruct T as [Td T].
  eexists. split.
  - unfold re_match, match_at, speaker_pattern, Some1.
    cbn [rmatch m_rest m_pos m_groups andb Nat.eqb]. rewrite U, G0.
    apply many_all; [exact G | exact colon_not_name|].
    cbn [rmatch m_rest m_pos m_groups]. rewrite colon_is_colon.
    apply many_all; [exact W | exact D|].
    cbn [rmatch m_rest m_pos m_groups]. rewrite Td.
    rewrite <- (app_nil_r t) at 1.
    apply many_all; [exact T | exact I|].
    cbn [rmatch m_rest m_pos m_groups]. reflexivity.
  - unfold group. cbn [m_groups m_pos m_rest Nat.eqb]. split.
    + apply (firstn_exact (c :: g0 :: g)). cbn [List.length]. lia.
    + apply firstn_all2. cbn [List.length]. lia.
Qed.

(** What a line that the pattern matches looks like. *)
Lemma speaker_pattern_shape (line : str) (m : mstate) :
  re_match speaker_pattern line = Some m ->
  exists c g0 g ws g2 tail,
    line = (c :: g0 :: g) ++ colon :: ws ++ g2 ++ tail /\
    is_upper_az c = true /\ is_name_char g0 = true /\
    forallb is_name_char g = true /\ forallb is_space ws = true /\
    g2 <> [] /\ (tail = [] \/ tail = [10%N]) /\
    group m 1 = c :: g0 :: g /\ group m 2 = g2.
Proof.
  intros H. apply match_at_sound in H. unfold speaker_pattern, Some1 in H.
  inv_matches. cbn [m_pos m_rest m_groups] in *. subst.
  match goal with H : is_colon ?c = true |- _ =>
    apply N.eqb_eq in H; subst c end.
  exists c2, c1, w1, w, (c0 :: w0), s0.
  unfold group. cbn [m_pos m_rest m_groups Nat.eqb].
  repeat (split; [first [reflexivity | assumption | discriminate]|]).
  split.
  - apply (firstn_exact (c2 :: c1 :: w1)). cbn [List.length]. lia.
  - apply (firstn_exact (c0 :: w0)). cbn [List.length]. lia.
Qed.

Lemma lstrip_spaces (ws s : str) :
  forallb is_space ws = true -> lstrip (ws ++ s) = lstrip s.
Proof.
  induction ws as [|a ws IH]; intros H; [reflexivity|].
  cbn [forallb] in H. apply andb_prop in H. destruct H as [A H].
  cbn [app lstrip]. rewrite A. now apply IH.
Qed.

Lemma strip_spaces (ws s : str) :
  forallb is_space ws = true -> strip (ws ++ s) = strip s.
Proof. intros H. unfold strip. now rewrite lstrip_spaces. Qed.

Lemma strip_lstrip (s : str) : strip (lstrip s) = strip s.
Proof.
  destruct (lstrip_split s) as [p [E P]]. rewrite E at 2.
  now rewrite strip_spaces.
Qed.

Lemma header_shape (line name txt : str) :
  forallb is_dot line = true -> ends_solid line ->
  (header line = Some (name, txt) <->
   exists c g rest,
     line = c :: g ++ colon :: rest /\
     is_upper_az c = true /\ g <> [] /\ forallb is_name_char g = true /\
     rest <> [] /\ name = strip (c :: g) /\ txt = strip rest).
Proof.
  intros D Hs. unfold header. split.
  - destruct (re_match speaker_pattern line) as [m|] eqn:E; [|discriminate].
    intros H. inv H. apply speaker_pattern_shape in E.
    destruct E as (c & g0 & g & ws & g2 & tail & L & U & G0 & G & W & N & T & -> & ->).
    assert (tail = []) as ->.
    { destruct T as [-> | ->]; [reflexivity|]. exfalso.
      rewrite forallb_forall in D.
      assert (In 10%N line) as I.
      { rewrite L. apply in_or_app. right. right.
        apply in_or_app. right. apply in_or_app. right. now left. }
      apply D in I. discriminate. }
    rewrite app_nil_r in L.
    exists c, (g0 :: g), (ws ++ g2).
    split; [exact L|]. split; [exact U|]. split; [discriminate|].
    split; [cbn [forallb]; now rewrite G0, G|].
    split; [destruct ws; [exact N | discriminate]|].
    split; [reflexivity|]. now rewrite strip_spaces.
  - intros (c & g & rest & L & U & N & G & R & -> & ->).
    destruct g as [|g0 g]; [contradiction|].
    cbn [forallb] in G. apply andb_prop in G. destruct G as [G0 G].
    destruct (lstrip_split rest) as [ws [E W]].
    assert (ends_solid rest) as SR.
    { rewrite L in Hs.
      change (c :: (g0 :: g) ++ colon :: rest)
        with ((c :: g0 :: g) ++ colon :: rest) in Hs.
      replace ((c :: g0 :: g) ++ colon :: rest)
        with (((c :: g0 :: g) ++ [colon]) ++ rest) in Hs
        by (now rewrite <- app_assoc).
      now apply ends_solid_suffix in Hs. }
    destruct (lstrip rest) as [|d t] eqn:LR.
    { exfalso. apply ends_solid_strip in SR. apply SR.
      unfold strip. now rewrite LR. }
    assert (forallb is_dot (d :: t) = true) as DT.
    { apply forallb_forall. intros x Hx. rewrite forallb_forall in D.
      apply D. rewrite L, E. right. apply in_or_app. right. right.
      apply in_or_app. now right. }
    destruct (speaker_pattern_complete c g0 g ws d t U G0 G W
                (lstrip_head rest d t LR) DT) as [m [M [G1 G2]]].
    rewrite L, E. cbn [app]. cbn [app] in M. rewrite M, G1, G2.
    rewrite <- LR at 1. rewrite strip_lstrip.
    rewrite <- E. reflexivity.
Qed.

(* ================================================================= *)
(** ** Properties of [parse_transcript] on whole texts *)

Lemma split_from_nonempty (sep s : str) (n : nat) : split_from sep s n <> [].
Proof.
  revert n. induction s as [|c s IH]; intros n; [discriminate|].
  cbn [split_from]. destruct n as [|n]; [|apply IH].
  destruct (startswith sep (c :: s)); [discriminate|].
  destruct (split_from sep s 0); discriminate.
Qed.

Lemma split_from_nl (c : char) (s : str) :
  split_from nl (c :: s) 0 =
  if N.eqb 10 c then [] :: split_from nl s 0
  else match split_from nl s 0 with
       | p :: ps => (c :: p) :: ps
       | [] => [[c]]
       end.
Proof.
  cbn [split_from]. unfold nl at 1. cbn [startswith].
  now destruct (N.eqb 10 c).
Qed.

(** Splitting at line breaks goes through a text piece by piece. *)
Lemma split_lines_app (a b : str) :
  split (a ++ nl ++ b) nl = split a nl ++ split b nl.
Proof.
  unfold split. induction a as [|c a IH].
  - reflexivity.
  - change ((c :: a) ++ nl ++ b) with (c :: (a ++ nl ++ b)).
    rewrite !split_from_nl, IH.
    destruct (N.eqb 10 c) eqn:E; [reflexivity|].
    pose proof (split_from_nonempty nl a 0) as N.
    destruct (split_from nl a 0) as [|p ps]; [contradiction | reflexivity].
Qed.

Lemma split_lines_dot (s : str) :
  Forall (fun l => forallb is_dot l = true) (split s nl).
Proof.
  unfold split. induction s as [|c s IH]; [repeat constructor|].
  rewrite split_from_nl.
  destruct (N.eqb 10 c) eqn:E.
  - constructor; [reflexivity | exact IH].
  - pose proof (split_from_nonempty nl s 0) as N.
    destruct (split_from nl s 0) as [|p ps]; [contradiction|].
    inv IH. constructor; [|assumption].
    cbn [forallb]. unfold is_dot at 1. rewrite N.eqb_sym, E. assumption.
Qed.

Lemma forallb_app_l {A} (p : A -> bool) (a b : list A) :
  forallb p (a ++ b) = true -> forallb p a = true.
Proof. rewrite forallb_app. intros H. now apply andb_prop in H. Qed.

Lemma forallb_app_r {A} (p : A -> bool) (a b : list A) :
  forallb p (a ++ b) = true -> forallb p b = true.
Proof. rewrite forallb_app. intros H. now apply andb_prop in H. Qed.

Lemma strip_dot (s : str) :
  forallb is_dot s = true -> forallb is_dot (strip s) = true.
Proof.
  intros H. destruct (strip_split s) as [p [q [E _]]]. rewrite E in H.
  apply forallb_app_r in H. now apply forallb_app_l in H.
Qed.

Lemma drop_timestamp_dot (line : str) :
  forallb is_dot line = true -> forallb is_dot (drop_timestamp line) = true.
Proof.
  intros H. unfold drop_timestamp.
  destruct (re_match timestamp_pattern line) as [m|] eqn:E; [|exact H].
  rewrite (sub_timestamp _ _ E).
  destruct (timestamp_pattern_sound _ _ E) as [pre [w [L _]]].
  apply strip_dot. rewrite L in H. apply forallb_app_r in H.
  cbn [forallb] in H. now apply andb_prop in H.
Qed.

Lemma seen_lines_ok (raw_text : str) :
  Forall (fun l => forallb is_dot l = true /\ ends_solid l)
         (seen_lines raw_text).
Proof.
  unfold seen_lines. pose proof (split_lines_dot raw_text) as D.
  induction D as [|l ls Hl _ IH]; [constructor|].
  cbn [List.map filter]. destruct (truthy (strip l)) eqn:T; [|exact IH].
  cbn [List.map]. constructor; [|exact IH]. split.
  - now apply drop_timestamp_dot, strip_dot.
  - now apply line_solid.
Qed.

Lemma seen_lines_app (a b : str) :
  seen_lines (a ++ nl ++ b) = seen_lines a ++ seen_lines b.
Proof.
  unfold seen_lines. rewrite split_lines_app.
  now rewrite List.map_app, filter_app, List.map_app.
Qed.

Lemma parse_blocks_eq (raw_text : str) :
  parse_transcript raw_text = blocks (seen_lines raw_text).
Proof.
  unfold parse_transcript, seen_lines, parse_lines.
  destruct raw_text as [|c r]; [reflexivity|].
  cbn [truthy negb]. now rewrite fold_see, blocks_init.
Qed.

Lemma attach_app (l1 l2 : list str) :
  fst (fold_right attach ([], []) l2) = [] ->
  fold_right attach ([], []) (l1 ++ l2) =
  (fst (fold_right attach ([], []) l1),
   snd (fold_right attach ([], []) l1) ++ snd (fold_right attach ([], []) l2)).
Proof.
  intros H. induction l1 as [|l l1 IH].
  - cbn [app fold_right fst snd].
    destruct (fold_right attach ([], []) l2) as [x y]. cbn [fst snd] in *.
    now subst x.
  - cbn [app fold_right]. rewrite IH. unfold attach.
    destruct (header l) as [[name t]|]; reflexivity.
Qed.

Lemma attach_headed (lines : list str) :
  leading_unknown lines = [] -> fst (fold_right attach ([], []) lines) = [].
Proof.
  destruct lines as [|l lines]; [reflexivity|].
  cbn [leading_unknown fold_right]. unfold attach.
  destruct (header l) as [[name t]|]; [reflexivity | discriminate].
Qed.

Lemma blocks_app (l1 l2 : list str) :
  leading_unknown l2 = [] -> blocks (l1 ++ l2) = blocks l1 ++ blocks l2.
Proof.
  intros H. apply attach_headed in H. unfold blocks.
  rewrite (attach_app l1 l2 H).
  destruct (fold_right attach ([], []) l2) as [loose2 turns2].
  cbn [fst snd] in *. subst loose2.
  destruct (fold_right attach ([], []) l1) as [[|x loose] turns]; reflexivity.
Qed.

(** X2.  The speakers of the turns [parse_transcript]
    returns are, in this order, the names of the header lines of the
    text, one turn for each header line, also when the same name comes
    again; the turn of Unknown comes before them exactly when the first
    line that is not blank is no header. *)
Theorem parse_speakers (raw_text : str) :
  List.map speaker (parse_transcript raw_text) =
  leading_unknown (seen_lines raw_text) ++ header_names (seen_lines raw_text).
Proof. rewrite parse_blocks_eq. apply blocks_speakers. Qed.

(** X3.  No text is lost and none is added: the texts of the
    turns, joined with spaces, are the contents of the lines that are
    not blank, joined with spaces, where the content of a header line
    is what stands behind the name and the colon, trimmed. *)
Theorem parse_text (raw_text : str) :
  join (u " ") (List.map text (parse_transcript raw_text)) =
  join (u " ") (List.map content (seen_lines raw_text)).
Proof. rewrite parse_blocks_eq. apply blocks_text. Qed.

(** X4.  A transcript can be parsed in two parts: when
    the first line of [b] that is not blank is a header, or [b] has no
    such line, the turns of [a], a line break and [b] are the turns of
    [a] followed by the turns of [b]. *)
Theorem parse_concat (a b : str) :
  leading_unknown (seen_lines b) = [] ->
  parse_transcript (a ++ nl ++ b) = parse_transcript a ++ parse_transcript b.
Proof.
  intros H. rewrite !parse_blocks_eq, seen_lines_app. now apply blocks_app.
Qed.

Lemma parse_concat_witness :
  leading_unknown (seen_lines (u "Bob: I disagree.")) = [] /\
  parse_transcript (u "00:01 Alice: Hello." ++ nl ++ u "Bob: I disagree.") =
  [Turn (u "Alice") (u "Hello."); Turn (u "Bob") (u "I disagree.")].
Proof.
  split; [vm_compute; reflexivity|].
  rewrite (parse_concat (u "00:01 Alice: Hello.") (u "Bob: I disagree.")).
  - vm_compute. reflexivity.
  - vm_compute. reflexivity.
Defined.

Lemma drop_timestamp_head (line : str) :
  solid_head line -> solid_head (drop_timestamp line).
Proof.
  intros H. unfold drop_timestamp.
  destruct (re_match timestamp_pattern line) as [m|]; [|exact H].
  destruct (strip _) as [|c r] eqn:E; [exact I|].
  exact (strip_head _ c r E).
Qed.

Lemma strip_solid (s : str) : solid_head (strip s).
Proof.
  destruct (strip s) as [|c r] eqn:E; [exact I|]. exact (strip_head _ c r E).
Qed.

Lemma seen_lines_head (raw_text : str) :
  Forall solid_head (seen_lines raw_text).
Proof.
  unfold seen_lines.
  induction (split raw_text nl) as [|l ls IH]; [constructor|].
  cbn [List.map filter]. destruct (truthy (strip l)); [|exact IH].
  cbn [List.map]. constructor; [|exact IH].
  apply drop_timestamp_head, strip_solid.
Qed.

Lemma parse_ok (raw_text : str) : Forall turn_ok (parse_transcript raw_text).
Proof.
  unfold parse_transcript. destruct (truthy raw_text); cbn [negb]; [|constructor].
  apply flush_ok, fold_parse_ok, init_ok.
Qed.

Lemma drop_timestamp_none (line : str) :
  (forall ts rest, stamp ts -> line <> ts ++ rest) ->
  drop_timestamp line = line.
Proof.
  intros H. unfold drop_timestamp.
  destruct (re_match timestamp_pattern line) as [m|] eqn:E; [|reflexivity].
  exfalso.
  assert (match_at true timestamp_body line = Some m) as E' by exact E.
  destruct (timestamp_body_stamp true line m E') as [ts [S [L _]]].
  exact (H ts (m_rest m) S L).
Qed.

(** X5.  The loop of [parse_transcript] computes the
    blocks of the lines it works on: every header line opens a turn
    that takes the lines up to the next header, and the lines before
    the first header make one turn of Unknown.  The lines it works on
    are the lines of the text, trimmed, without the blank ones; a
    timestamp with a white space character behind it is taken from the
    start of a line and the rest is trimmed again, and a line that
    does not start so is taken as it is. *)
Theorem parse_is_blocks (raw_text : str) :
  parse_transcript raw_text = blocks (seen_lines raw_text) /\
  seen_lines raw_text =
  List.map drop_timestamp
           (filter (fun l => negb (str_eqb l []))
                   (List.map strip (split raw_text nl))) /\
  (forall ts rest, stamp ts -> drop_timestamp (ts ++ rest) = strip rest) /\
  (forall line,
      (forall ts rest, stamp ts -> line <> ts ++ rest) ->
      drop_timestamp line = line).
Proof.
  split; [apply parse_blocks_eq|]. split; [|split].
  - unfold seen_lines. f_equal. apply filter_ext. intros l. now destruct l.
  - exact drop_timestamp_stamp.
  - exact drop_timestamp_none.
Qed.

Lemma parse_is_blocks_witness :
  parse_transcript (u "9:05 Alice: Hi." ++ nl ++ u "  all good  ") =
  blocks [u "Alice: Hi."; u "all good"] /\
  drop_timestamp (u "Call me at 9:05 please") = u "Call me at 9:05 please".
Proof.
  pose proof (parse_is_blocks (u "9:05 Alice: Hi." ++ nl ++ u "  all good  "))
    as [P [_ [_ D]]].
  split.
  - rewrite P. vm_compute. reflexivity.
  - apply D. intros ts rest S E.
    destruct (stamp_match ts rest true S) as [m [M _]].
    rewrite <- E in M. vm_compute in M. discriminate.
Defined.

(** X6.  A line the loop works on is not empty, has
    no white space at its ends and no line break.  It is a header
    exactly when it is an upper-case letter from A to Z, then one or
    more letters from a to z or A to Z or white space characters, then
    a colon, then anything; the name is what stands before the first
    colon and the text what stands behind it, both trimmed. *)
Theorem header_iff_shape (raw_text line name txt : str) :
  In line (seen_lines raw_text) ->
  solid_head line /\ ends_solid line /\ forallb is_dot line = true /\
  (header line = Some (name, txt) <->
   exists c g rest,
     line = c :: g ++ colon :: rest /\
     is_upper_az c = true /\ g <> [] /\ forallb is_name_char g = true /\
     rest <> [] /\ name = strip (c :: g) /\ txt = strip rest).
Proof.
  intros H.
  pose proof (seen_lines_ok raw_text) as A.
  pose proof (seen_lines_head raw_text) as B.
  rewrite Forall_forall in A, B. destruct (A line H) as [D E].
  split; [now apply B|]. split; [exact E|]. split; [exact D|].
  now apply header_shape.
Qed.

Lemma header_iff_shape_witness :
  In (u "Alice Smith: Let us start.")
     (seen_lines (u "00:01 Alice Smith: Let us start.")) /\
  header (u "Alice Smith: Let us start.") =
  Some (u "Alice Smith", u "Let us start.").
Proof.
  assert (In (u "Alice Smith: Let us start.")
             (seen_lines (u "00:01 Alice Smith: Let us start."))) as I
      by (vm_compute; left; reflexivity).
  split; [exact I|].
  apply (header_iff_shape (u "00:01 Alice Smith: Let us start.")
           (u "Alice Smith: Let us start.")
           (u "Alice Smith") (u "Let us start.") I).
  exists 65%N, (u "lice Smith"), (u " Let us start.").
  repeat split; try (vm_compute; reflexivity); discriminate.
Defined.

(** X7.  [extract_speakers] on the turns of
    [parse_transcript] gives, in ascending order and each once, the
    names of the header lines, and Unknown when the text starts with
    lines that belong to no speaker; it gives no name exactly when
    there is no turn. *)
Theorem speakers_of_parse (raw_text : str) :
  StronglySorted str_lt (extract_speakers (parse_transcript raw_text)) /\
  NoDup (extract_speakers (parse_transcript raw_text)) /\
  (forall x, In x (extract_speakers (parse_transcript raw_text)) <->
             In x (leading_unknown (seen_lines raw_text) ++
                   header_names (seen_lines raw_text))) /\
  (extract_speakers (parse_transcript raw_text) = [] <->
   parse_transcript raw_text = []).
Proof.
  assert (forall x, In x (extract_speakers (parse_transcript raw_text)) <->
                    In x (List.map speaker (parse_transcript raw_text))) as K.
  { intros x. rewrite extract_speakers_in, in_map_iff. split.
    - intros [_ [t [I E]]]. exists t. auto.
    - intros [t [E I]]. split; [|exists t; auto].
      pose proof (parse_ok raw_text) as O. rewrite Forall_forall in O.
      destruct (O t I) as [N _]. now rewrite <- E. }
  split; [apply extract_speakers_ordered|].
  split; [apply ordered_nodup, extract_speakers_ordered|].
  split.
  - intros x. rewrite K, parse_blocks_eq, blocks_speakers. reflexivity.
  - split; intros H.
    + destruct (parse_transcript raw_text) as [|t ts]; [reflexivity|].
      exfalso. assert (In (speaker t) []) as X; [|exact X].
      rewrite <- H. apply K. now left.
    + now rewrite H.
Qed.

(* ================================================================= *)
(** ** Further properties of [clean_transcript] *)

Lemma rstrip_fixed (s : str) : s = [] \/ ends_solid s -> rstrip s = s.
Proof.
  intros [-> | [r [c [-> H]]]]; [reflexivity|].
  unfold rstrip. rewrite rev_app_distr. cbn [rev app lstrip]. rewrite H.
  change (rev (c :: rev r) = r ++ [c]). cbn [rev]. now rewrite rev_involutive.
Qed.

Lemma strip_fixed (s : str) :
  solid_head s -> s = [] \/ ends_solid s -> strip s = s.
Proof.
  intros H E. unfold strip.
  assert (lstrip s = s) as ->; [|now apply rstrip_fixed].
  destruct s as [|c r]; [reflexivity|]. cbn in H. cbn [lstrip]. now rewrite H.
Qed.

Lemma strip_idem (s : str) : strip (strip s) = strip s.
Proof.
  apply strip_fixed; [apply strip_solid|].
  destruct (strip s) as [|c r] eqn:E; [now left | right].
  rewrite <- E. apply strip_ends_solid. rewrite E. discriminate.
Qed.

Lemma tidy_space (s : str) (c : char) :
  tidy s = true -> In c s -> is_space c = true -> c = 32%N.
Proof.
  induction s as [|a s IH]; intros T I W; [contradiction|].
  cbn [tidy] in T. apply andb_prop in T. destruct T as [T1 T2].
  destruct I as [-> | I]; [|now apply IH].
  rewrite W in T1. apply andb_prop in T1. destruct T1 as [T1 _].
  now apply N.eqb_eq in T1.
Qed.

Lemma sub_from_in (r : regex) (repl s : str) :
  forall b skip c,
    In c (sub_from r repl s b skip) -> In c s \/ In c repl.
Proof.
  induction s as [|a s IH]; intros b skip c H.
  - cbn [sub_from] in H. destruct skip; [|contradiction].
    destruct (match_at b r []); [now right | contradiction].
  - cbn [sub_from] in H. destruct skip as [|n].
    + destruct (match_at b r (a :: s)) as [m|].
      * destruct (m_pos m) as [|k].
        -- apply in_app_or in H. destruct H as [H | [-> | H]];
             [now right | left; now left |].
           apply IH in H. destruct H; [left; now right | now right].
        -- apply in_app_or in H. destruct H as [H | H]; [now right|].
           apply IH in H. destruct H; [left; now right | now right].
      * destruct H as [-> | H]; [left; now left|].
        apply IH in H. destruct H; [left; now right | now right].
    + apply IH in H. destruct H; [left; now right | now right].
Qed.

Lemma strip_in (s : str) (c : char) : In c (strip s) -> In c s.
Proof.
  intros H. destruct (strip_split s) as [p [q [E _]]]. rewrite E.
  apply in_or_app. right. apply in_or_app. now left.
Qed.

Lemma clean_in (t : str) (c : char) :
  In c (clean_transcript t) -> c = 32%N \/ In c t.
Proof.
  rewrite clean_unfold. unfold clean_passes. intros H. apply strip_in in H.
  rewrite tidy_replace in H
    by exact (proj1 (collapse_tidy (re_sub timestamp_body [] t) true 0
                       (or_introl eq_refl))).
  apply sub_from_in in H. destruct H as [H | [<- | []]]; [|now left].
  apply sub_from_in in H. destruct H as [H | []]. now right.
Qed.

(** The passes on white space leave the other characters alone. *)
Lemma filter_spaces (p : str) :
  forallb is_space p = true -> filter is_solid p = [].
Proof.
  induction p as [|c p IH]; [reflexivity|]. cbn [forallb filter].
  intros H. apply andb_prop in H. destruct H as [H1 H2].
  unfold is_solid at 1. rewrite H1. now apply IH.
Qed.

Lemma strip_solids (s : str) : filter is_solid (strip s) = filter is_solid s.
Proof.
  destruct (strip_split s) as [p [q [E [P Q]]]]. rewrite E at 2.
  rewrite !filter_app, (filter_spaces p P), (filter_spaces q Q).
  now rewrite app_nil_r.
Qed.

Lemma lead_spaces (s : str) : forallb is_space (firstn (lead s) s) = true.
Proof.
  induction s as [|c s IH]; [reflexivity|]. cbn [lead].
  destruct (is_space c) eqn:E; [|reflexivity].
  cbn [firstn forallb]. now rewrite E.
Qed.

Lemma filter_solid_cons (c : char) (s : str) :
  filter is_solid (c :: s) =
  if is_space c then filter is_solid s else c :: filter is_solid s.
Proof. cbn [filter]. unfold is_solid at 1. now destruct (is_space c). Qed.

Lemma collapse_solids (s : str) :
  forall b skip,
    skip = 0 \/ skip = lead s ->
    filter is_solid (sub_from ws_run (u " ") s b skip) = filter is_solid s.
Proof.
  induction s as [|c s IH]; intros b skip H.
  - assert (skip = 0) as -> by (destruct H; [assumption | simpl in *; assumption]).
    reflexivity.
  - destruct skip as [|n].
    + cbn [sub_from]. rewrite ws_run_match.
      destruct (is_space c) eqn:E.
      * cbn [m_pos]. rewrite filter_app.
        rewrite (IH false (lead s) (or_intror eq_refl)).
        assert (filter is_solid (u " ") = []) as -> by (vm_compute; reflexivity).
        now rewrite filter_solid_cons, E.
      * rewrite !filter_solid_cons, E.
        now rewrite (IH false 0 (or_introl eq_refl)).
    + cbn [sub_from]. destruct H as [H | H]; [discriminate|].
      cbn [lead] in H. destruct (is_space c) eqn:E; [|discriminate].
      injection H as ->. rewrite (IH false (lead s) (or_intror eq_refl)).
      now rewrite filter_solid_cons, E.
Qed.

Lemma clean_solids (t : str) :
  filter is_solid (clean_transcript t) =
  filter is_solid (re_sub timestamp_body [] t).
Proof.
  rewrite clean_unfold. unfold clean_passes. rewrite strip_solids.
  rewrite tidy_replace
    by exact (proj1 (collapse_tidy (re_sub timestamp_body [] t) true 0
                       (or_introl eq_refl))).
  unfold re_sub. apply collapse_solids. now left.
Qed.

Lemma strip_ts_none (s : str) :
  no_stamp s -> forall b, sub_from timestamp_body [] s b 0 = s.
Proof.
  induction s as [|c s IH]; intros H b.
  - cbn [sub_from]. now rewrite timestamp_nil.
  - cbn [sub_from].
    destruct (match_at b timestamp_body (c :: s)) as [m|] eqn:M.
    + exfalso. destruct (timestamp_body_stamp b _ m M) as [ts [S [E _]]].
      apply (H [] ts (m_rest m)); [exact E | exact S].
    + f_equal. apply IH. intros pre ts post E.
      apply (H (c :: pre) ts post). now rewrite E.
Qed.

Lemma stamp_digit (ts : str) :
  stamp ts -> exists d r, ts = d :: r /\ is_digit d = true.
Proof.
  intros [t [w [C [_ ->]]]].
  destruct C as [h m1 m2 Hh _ _ | h m1 m2 s1 s2 Hh _ _ _ _];
    destruct Hh as [d Hd | d e Hd He]; eexists; eexists;
    (split; [reflexivity | exact Hd]).
Qed.

Lemma no_digit_no_stamp (s : str) : no_digit s = true -> no_stamp s.
Proof.
  intros D pre ts post E S. destruct (stamp_digit ts S) as [d [r [-> Hd]]].
  unfold no_digit in D. rewrite forallb_forall in D.
  assert (In d s) as I.
  { rewrite E. apply in_or_app. right. now left. }
  apply D in I. now rewrite Hd in I.
Qed.

Lemma collapse_fixed (s : str) :
  tidy s = true -> forall b, sub_from ws_run (u " ") s b 0 = s.
Proof.
  induction s as [|c s IH]; intros T b; [reflexivity|].
  cbn [tidy] in T. apply andb_prop in T. destruct T as [T1 T2].
  cbn [sub_from]. rewrite ws_run_match.
  destruct (is_space c) eqn:E.
  - apply andb_prop in T1. destruct T1 as [C H]. apply N.eqb_eq in C. subst c.
    assert (lead s = 0) as ->.
    { destruct s as [|d s]; [reflexivity|]. cbn [lead].
      apply negb_true_iff in H. now rewrite H. }
    cbn [m_pos]. now rewrite (IH T2).
  - now rewrite (IH T2).
Qed.

Lemma clean_fixed_point (s : str) :
  tidy s = true -> strip s = s -> no_stamp s -> clean_transcript s = s.
Proof.
  intros T S N. rewrite clean_unfold. unfold clean_passes, re_sub.
  rewrite (strip_ts_none s N), (collapse_fixed s T), (tidy_replace s T).
  exact S.
Qed.

Lemma extract_empty (env : environment) (fr : frame) :
  extract_action_items env [] fr = (inr [], fr).
Proof. reflexivity. Qed.

Lemma clean_empty (t : str) :
  clean_transcript t = [] <->
  forallb is_space (re_sub timestamp_body [] t) = true.
Proof.
  split; intros H.
  - pose proof (clean_solids t) as K. rewrite H in K. cbn [filter] in K.
    apply forallb_forall. intros c I.
    destruct (is_space c) eqn:E; [reflexivity|].
    assert (In c (filter is_solid (re_sub timestamp_body [] t))) as X.
    { apply filter_In. split; [exact I|]. unfold is_solid. now rewrite E. }
    rewrite <- K in X. contradiction.
  - pose proof (clean_solids t) as K. rewrite (filter_spaces _ H) in K.
    rewrite clean_unfold in *. unfold clean_passes in *.
    destruct (strip _) as [|c r] eqn:E; [reflexivity|].
    apply strip_head in E. rewrite filter_solid_cons, E in K. discriminate.
Qed.

Lemma stamp_free_no_stamp (s : str) : stamp_free s = true -> no_stamp s.
Proof.
  intros F pre. revert s F. induction pre as [|c pre IH]; intros s F ts post E S.
  - destruct (stamp_match ts post false S) as [m [M _]].
    cbn [app] in E. rewrite <- E in M.
    destruct s; cbn [stamp_free] in F; rewrite M in F; discriminate.
  - subst s. cbn [app stamp_free] in F.
    destruct (match_at false timestamp_body _); [discriminate|].
    exact (IH _ F ts post eq_refl S).
Qed.

Lemma space_not_digit (c : char) : is_space c = true -> is_digit c = false.
Proof.
  unfold is_space, in_ranges, space_table. cbn [existsb fst snd].
  unfold in_range. intros H.
  assert (c = 9 \/ c = 10 \/ c = 11 \/ c = 12 \/ c = 13 \/ c = 28 \/ c = 29 \/
          c = 30 \/ c = 31 \/ c = 32 \/ c = 133 \/ c = 160 \/ c = 5760 \/
          c = 8192 \/ c = 8193 \/ c = 8194 \/ c = 8195 \/ c = 8196 \/
          c = 8197 \/ c = 8198 \/ c = 8199 \/ c = 8200 \/ c = 8201 \/
          c = 8202 \/ c = 8232 \/ c = 8233 \/ c = 8239 \/ c = 8287 \/
          c = 12288)%N as K.
  { repeat (apply orb_prop in H; destruct H as [H | H]);
      try discriminate;
      apply andb_prop in H; destruct H as [H1 H2];
      apply N.leb_le in H1, H2; lia. }
  repeat (destruct K as [-> | K]; [vm_compute; reflexivity|]).
  subst. vm_compute. reflexivity.
Qed.

Lemma spaces_no_digit (s : str) : forallb is_space s = true -> no_digit s = true.
Proof.
  unfold no_digit. rewrite !forallb_forall. intros H c I.
  now rewrite (space_not_digit c (H c I)).
Qed.

(** What the handlers and the body show. *)
Lemma handlers_show (e : exn) (fr : frame) :
  exists evs,
    evs <> [] /\
    match find (fun cl => fst cl e)
               [ (isinstance_JSONDecodeError, on_json_error);
                 (isinstance_Exception, on_error) ] with
    | Some cl => fst (snd cl e fr) = inr [] /\
                 ui (snd (snd cl e fr)) = ui fr ++ evs
    | None => False
    end.
Proof.
  cbn [find fst snd]. destruct e as [msg | cls msg];
    cbn [isinstance_JSONDecodeError isinstance_Exception].
  - rewrite handled_json. cbn [fst snd ui]. eexists. split; [|split; reflexivity].
    discriminate.
  - unfold on_error, bind, show, ret. cbn [fst snd ui].
    eexists. split; [|split; reflexivity]. discriminate.
Qed.

Lemma body_shows (env : environment) (t : str) (fr : frame) :
  ui (snd (extract_body env t fr)) =
  ui fr ++ match initialize_gemini env with
           | inl _ => []
           | inr _ => [spinner]
           end.
Proof.
  unfold extract_body, bind, lift, show, assign, ret.
  destruct (initialize_gemini env) as [e|[]]; cbn [snd ui].
  - now rewrite app_nil_r.
  - destruct (generate_content env (make_prompt t)) as [e|resp];
      cbn [snd ui response_text]; [reflexivity|].
    destruct (json_loads _ _) as [e|v]; cbn [snd ui]; [reflexivity|].
    destruct (py_iter v); reflexivity.
Qed.

Lemma body_returns (env : environment) (t : str) (fr : frame)
      (items : list action_item) :
  fst (extract_body env t fr) = inr items -> initialize_gemini env = inr tt.
Proof.
  unfold extract_body, bind, lift. destruct (initialize_gemini env) as [e|[]];
    [discriminate | reflexivity].
Qed.

Lemma extract_shows (env : environment) (t : str) (fr : frame) :
  truthy t = true ->
  exists evs, evs <> [] /\
              ui (snd (extract_action_items env t fr)) = ui fr ++ evs.
Proof.
  intros T. rewrite extract_nonempty by exact T. unfold try_except.
  pose proof (body_shows env t fr) as B.
  destruct (extract_body env t fr) as [[e|items] fr'] eqn:E; cbn [snd] in B.
  - destruct (handlers_show e fr') as [evs [N H]].
    destruct (find _ _) as [cl|]; [|contradiction].
    destruct H as [_ H]. rewrite H, B, <- app_assoc.
    eexists. split; [|reflexivity].
    destruct (initialize_gemini env); cbn [app]; [exact N | discriminate].
  - pose proof (body_returns env t fr items) as I. rewrite E in I.
    rewrite (I eq_refl) in B. cbn [snd]. rewrite B.
    eexists. split; [|reflexivity]. discriminate.
Qed.

(** X8.  Every character of the output of
    [clean_transcript] is the space U+0020 or a character of the input
    that is not white space: line breaks, tabs and form feeds do not
    come through.  The passes on white space leave the other
    characters as the removal of the timestamps left them, in their
    order. *)
Theorem clean_characters (t : str) :
  (forall c, In c (clean_transcript t) ->
             c = 32%N \/ (is_space c = false /\ In c t)) /\
  filter is_solid (clean_transcript t) =
  filter is_solid (re_sub timestamp_body [] t).
Proof.
  split; [|apply clean_solids].
  intros c I. destruct (is_space c) eqn:E.
  - left. exact (tidy_space _ c (clean_tidy t) I E).
  - destruct (clean_in t c I) as [-> | H]; [now left | right; auto].
Qed.

Lemma clean_characters_witness :
  In 107%N (clean_transcript (u "ok" ++ nl ++ u "10:30 go")) /\
  (107%N = 32%N \/
   (is_space 107%N = false /\ In 107%N (u "ok" ++ nl ++ u "10:30 go"))).
Proof.
  assert (In 107%N (clean_transcript (u "ok" ++ nl ++ u "10:30 go"))) as I
      by (vm_compute; right; left; reflexivity).
  split; [exact I|].
  exact (proj1 (clean_characters (u "ok" ++ nl ++ u "10:30 go")) 107%N I).
Defined.

(** X9.  A text that is clean already is left as it is: a
    text whose white space is single spaces, without white space at its
    ends, in which no timestamp followed by white space starts. *)
Theorem clean_fixed (s : str) :
  tidy s = true -> strip s = s -> no_stamp s -> clean_transcript s = s.
Proof. apply clean_fixed_point. Qed.

Lemma clean_fixed_witness :
  clean_transcript (u "Call Bob at 10:30") = u "Call Bob at 10:30".
Proof.
  apply (clean_fixed (u "Call Bob at 10:30")).
  - vm_compute. reflexivity.
  - vm_compute. reflexivity.
  - apply stamp_free_no_stamp. vm_compute. reflexivity.
Defined.

(** X10.  On a text without digits, cleaning a second
    time changes nothing, and cleaning keeps every character that is
    not white space. *)
Theorem clean_idempotent (t : str) :
  no_digit t = true ->
  clean_transcript (clean_transcript t) = clean_transcript t /\
  filter is_solid (clean_transcript t) = filter is_solid t.
Proof.
  intros D. split.
  - apply clean_fixed_point.
    + apply clean_tidy.
    + rewrite clean_unfold. unfold clean_passes. apply strip_idem.
    + apply no_digit_no_stamp. unfold no_digit in *.
      rewrite forallb_forall in *. intros c I.
      destruct (clean_in t c I) as [-> | H]; [vm_compute; reflexivity|].
      now apply D.
  - rewrite clean_solids. unfold re_sub.
    now rewrite (strip_ts_none t (no_digit_no_stamp t D)).
Qed.

Lemma clean_idempotent_witness :
  no_digit (u "  Alice:  ship   it ") = true /\
  clean_transcript (clean_transcript (u "  Alice:  ship   it ")) =
  clean_transcript (u "  Alice:  ship   it ").
Proof.
  split; [vm_compute; reflexivity|].
  apply (clean_idempotent (u "  Alice:  ship   it ")). vm_compute. reflexivity.
Defined.

(** X11.  The button of step 3 cleans the
    transcript and extracts from the cleaned text.  It returns the
    empty list without showing anything, so without asking the model,
    exactly when the transcript is white space once the timestamps are
    removed; this is the case of a transcript of white space only. *)
Theorem process_skips_blank (env : environment) (content : str) (fr : frame) :
  (process_with_gemini env content fr = (inr [], fr) <->
   forallb is_space (re_sub timestamp_body [] content) = true) /\
  (forallb is_space content = true ->
   process_with_gemini env content fr = (inr [], fr)).
Proof.
  assert (forallb is_space (re_sub timestamp_body [] content) = true ->
          process_with_gemini env content fr = (inr [], fr)) as K.
  { intros H. unfold process_with_gemini. cbv zeta.
    apply clean_empty in H. rewrite H. reflexivity. }
  split; [split; [|exact K]|].
  - intros H. apply clean_empty. unfold process_with_gemini in H. cbv zeta in H.
    destruct (clean_transcript content) as [|c r] eqn:E; [reflexivity|].
    exfalso. destruct (extract_shows env (c :: r) fr eq_refl) as [evs [N U]].
    rewrite H in U. cbn [snd] in U.
    rewrite <- (app_nil_r (ui fr)) in U at 1. apply app_inv_head in U.
    now subst evs.
  - intros H. apply K. unfold re_sub.
    rewrite (strip_ts_none content
               (no_digit_no_stamp content (spaces_no_digit content H))).
    exact H.
Qed.

Lemma process_skips_blank_witness :
  forallb is_space (u "   ") = true /\
  process_with_gemini offline (u "   ") fresh = (inr [], fresh) /\
  process_with_gemini offline (u "10:30 ") fresh = (inr [], fresh).
Proof.
  split; [vm_compute; reflexivity|]. split.
  - apply (proj2 (process_skips_blank offline (u "   ") fresh)).
    vm_compute. reflexivity.
  - apply (proj1 (process_skips_blank offline (u "10:30 ") fresh)).
    vm_compute. reflexivity.
Defined.

(* ================================================================= *)
(** ** Further properties of [unwrap] *)

Lemma cut_exists (sep s : str) : exists q, cut sep s q.
Proof.
  destruct (find_sub sep s) as [i|] eqn:E.
  - exists (firstn i s). left. exists i. split; [|reflexivity].
    now apply find_sub_first.
  - exists s. right. split; [|reflexivity]. now apply find_sub_absent.
Qed.

Lemma contains_first (sep s : str) :
  contains sep s = true -> exists i, first_occ sep s i.
Proof.
  intros H. destruct (find_sub sep s) as [i|] eqn:E.
  - exists i. now apply find_sub_first.
  - apply find_sub_absent, contains_absent in E. congruence.
Qed.

Lemma fence_in_json (s : str) : absent fence s -> absent fence_json s.
Proof.
  intros A j O. apply (A j). unfold occurs_at in *.
  now apply (startswith_shorter fence (u "json")).
Qed.

(** The three cases of [unwrap]. *)
Lemma unwrap_labeled (r : str) (i : nat) (q p : str) :
  first_occ fence_json r i ->
  cut fence_json (skipn (i + 7) r) q ->
  cut fence q p ->
  unwrap r = strip p.
Proof.
  intros F Q P. unfold unwrap.
  assert (contains fence_json r = true) as ->
      by (apply contains_occurs; exists i; apply F).
  rewrite (split_first fence_json r i fence_json_nonempty F).
  cbn [nth]. rewrite fence_json_length.
  rewrite (split_head fence_json _ q fence_json_nonempty Q).
  now rewrite (split_head fence _ p fence_nonempty P).
Qed.

Lemma unwrap_plain (r : str) (i : nat) (p : str) :
  absent fence_json r ->
  first_occ fence r i ->
  cut fence (skipn (i + 3) r) p ->
  unwrap r = strip p.
Proof.
  intros A F P. unfold unwrap.
  apply contains_absent in A. rewrite A.
  assert (contains fence r = true) as ->
      by (apply contains_occurs; exists i; apply F).
  rewrite (split_first fence r i fence_nonempty F).
  cbn [nth]. rewrite fence_length.
  rewrite (split_head fence _ p fence_nonempty P).
  rewrite (split_head fence p p fence_nonempty); [reflexivity|].
  right. split; [|reflexivity]. exact (cut_absent fence _ p fence_nonempty P).
Qed.

Lemma unwrap_bare (r : str) : absent fence r -> unwrap r = r.
Proof.
  intros A. unfold unwrap.
  pose proof (fence_in_json r A) as J.
  apply contains_absent in J. rewrite J.
  apply contains_absent in A. now rewrite A.
Qed.

Lemma occurs_shift (sep a b : str) (j : nat) :
  occurs_at sep b j -> occurs_at sep (a ++ b) (List.length a + j).
Proof.
  unfold occurs_at. intros H.
  rewrite skipn_app.
  replace (List.length a + j - List.length a) with j by lia.
  rewrite skipn_all2 by lia. exact H.
Qed.

Lemma occurs_prefix (sep a b : str) (j : nat) :
  occurs_at sep a j -> occurs_at sep (a ++ b) j.
Proof.
  unfold occurs_at. intros H. rewrite skipn_app. now apply startswith_app.
Qed.

Lemma absent_middle (sep a b c : str) :
  absent sep (a ++ b ++ c) -> absent sep b.
Proof.
  intros A j O. apply (A (List.length a + j)).
  apply occurs_shift. now apply occurs_prefix.
Qed.

Lemma absent_strip (sep s : str) : absent sep s -> absent sep (strip s).
Proof.
  intros A. destruct (strip_split s) as [p [q [E _]]]. rewrite E in A.
  exact (absent_middle sep p (strip s) q A).
Qed.

Lemma unwrap_shape (r : str) :
  (absent fence r /\ unwrap r = r) \/
  (exists p, absent fence p /\ unwrap r = strip p).
Proof.
  destruct (contains fence r) eqn:C.
  - right. destruct (contains fence_json r) eqn:J.
    + destruct (contains_first _ _ J) as [i F].
      destruct (cut_exists fence_json (skipn (i + 7) r)) as [q Q].
      destruct (cut_exists fence q) as [p P].
      exists p. split; [exact (cut_absent fence q p fence_nonempty P)|].
      exact (unwrap_labeled r i q p F Q P).
    + destruct (contains_first _ _ C) as [i F].
      destruct (cut_exists fence (skipn (i + 3) r)) as [p P].
      apply contains_absent in J.
      exists p. split; [exact (cut_absent fence _ p fence_nonempty P)|].
      exact (unwrap_plain r i p J F P).
  - left. apply contains_absent in C. split; [exact C|]. now apply unwrap_bare.
Qed.

Lemma unwrap_absent (r : str) : absent fence (unwrap r).
Proof.
  destruct (unwrap_shape r) as [[A ->] | [p [A ->]]]; [exact A|].
  now apply absent_strip.
Qed.

(** X12.  What [unwrap] returns contains no fence, so
    unwrapping it again changes nothing; and the payload that
    [extract_action_items] reads, unwrapped from the trimmed response,
    has no white space at its ends. *)
Theorem unwrap_no_fence (r : str) :
  absent fence (unwrap r) /\
  contains fence (unwrap r) = false /\
  unwrap (unwrap r) = unwrap r /\
  strip (unwrap (strip r)) = unwrap (strip r).
Proof.
  pose proof (unwrap_absent r) as A.
  split; [exact A|]. split; [now apply contains_absent|].
  split; [now apply unwrap_bare|].
  destruct (unwrap_shape (strip r)) as [[_ ->] | [p [_ ->]]]; apply strip_idem.
Qed.

Lemma startswith_refl (sep rest : str) : startswith sep (sep ++ rest) = true.
Proof.
  induction sep as [|a sep IH]; [reflexivity|].
  cbn [app startswith]. now rewrite N.eqb_refl, IH.
Qed.

Lemma startswith_nth (sep s : str) (i : nat) (c : char) :
  startswith sep s = true -> nth_error sep i = Some c -> nth_error s i = Some c.
Proof.
  revert s i. induction sep as [|a sep IH]; intros s i H N.
  - destruct i; discriminate.
  - destruct s as [|b s]; [discriminate|]. cbn [startswith] in H.
    apply andb_prop in H. destruct H as [H1 H2]. apply N.eqb_eq in H1. subst b.
    destruct i as [|i]; [exact N|]. cbn [nth_error] in *. now apply IH.
Qed.

Lemma occurs_nth (sep s : str) (j i : nat) (c : char) :
  occurs_at sep s j -> nth_error sep i = Some c -> nth_error s (j + i) = Some c.
Proof.
  unfold occurs_at. intros O N.
  pose proof (startswith_nth sep (skipn j s) i c O N) as K.
  now rewrite nth_error_skipn in K.
Qed.

Lemma no_tick_nth (s : str) (j : nat) :
  no_tick s = true -> nth_error s j <> Some tick.
Proof.
  intros T H. apply nth_error_In in H. unfold no_tick in T.
  rewrite forallb_forall in T. apply T in H. now rewrite N.eqb_refl in H.
Qed.

Lemma first_behind (tl pre rest : str) :
  no_tick pre = true ->
  first_occ (tick :: tl) (pre ++ (tick :: tl) ++ rest) (List.length pre).
Proof.
  intros T. split.
  - rewrite <- (Nat.add_0_r (List.length pre)). apply occurs_shift.
    unfold occurs_at. cbn [skipn]. apply startswith_refl.
  - intros j L O.
    pose proof (occurs_nth _ _ j 0 tick O eq_refl) as K.
    rewrite Nat.add_0_r, nth_error_app1 in K by exact L.
    exact (no_tick_nth pre j T K).
Qed.

Lemma skip_behind (pre sep rest : str) :
  skipn (List.length pre + List.length sep) (pre ++ sep ++ rest) = rest.
Proof.
  rewrite app_assoc, <- length_app.
  now rewrite skipn_app, skipn_all, Nat.sub_diag.
Qed.

Lemma no_tick_absent (s : str) : no_tick s = true -> absent fence s.
Proof.
  intros T j O. pose proof (occurs_nth fence s j 0 tick O eq_refl) as K.
  exact (no_tick_nth s _ T K).
Qed.

(** The block up to the first fence. *)
Lemma cut_block (body x : str) :
  no_tick body = true -> cut fence (body ++ fence ++ x) body.
Proof.
  intros T. left. exists (List.length body). split.
  - exact (first_behind (u "``") body x T).
  - now rewrite firstn_app, firstn_all, Nat.sub_diag, app_nil_r.
Qed.

Lemma cut_labeled (body post q : str) :
  no_tick body = true ->
  hd_error post <> Some tick ->
  cut fence_json (body ++ fence ++ post) q ->
  cut fence q body.
Proof.
  intros T P [[k [[O F] ->]] | [A ->]]; [|now apply cut_block].
  assert (List.length body <= k) as L1.
  { destruct (le_lt_dec (List.length body) k) as [L | L]; [exact L|].
    exfalso. pose proof (occurs_nth _ _ k 0 tick O eq_refl) as K.
    rewrite Nat.add_0_r, nth_error_app1 in K by exact L.
    exact (no_tick_nth body k T K). }
  assert (nth_error (body ++ fence ++ post) (List.length body + 3)
          = hd_error post) as Hp.
  { rewrite nth_error_app2 by lia.
    replace (List.length body + 3 - List.length body) with 3 by lia.
    now destruct post. }
  assert (k = List.length body \/ List.length body + 3 <= k) as [-> | L2].
  { destruct (Nat.eq_dec k (List.length body)) as [E | E]; [now left|].
    destruct (Nat.eq_dec k (List.length body + 1)) as [E1 | E1].
    - exfalso. pose proof (occurs_nth _ _ k 2 tick O eq_refl) as K.
      replace (k + 2) with (List.length body + 3) in K by lia.
      rewrite Hp in K. contradiction.
    - destruct (Nat.eq_dec k (List.length body + 2)) as [E2 | E2].
      + exfalso. pose proof (occurs_nth _ _ k 1 tick O eq_refl) as K.
        replace (k + 1) with (List.length body + 3) in K by lia.
        rewrite Hp in K. contradiction.
      + right. lia. }
  - rewrite firstn_app, firstn_all, Nat.sub_diag, app_nil_r.
    right. split; [now apply no_tick_absent | reflexivity].
  - rewrite firstn_app, firstn_all2 by lia.
    rewrite firstn_app, firstn_all2 by (cbn [List.length fence]; unfold fence; cbn; lia).
    now apply cut_block.
Qed.

(** X13.  A response with text around one fenced
    block yields the block, trimmed: with the fence labeled json when
    no backquote stands before the block, in it, or right behind its
    closing fence; with the plain fence when no backquote stands before
    the block or in it and the response has no labeled fence. *)
Theorem unwrap_fenced_block (pre body post : str) :
  no_tick pre = true -> no_tick body = true ->
  (hd_error post <> Some tick ->
   unwrap (pre ++ fence_json ++ body ++ fence ++ post) = strip body) /\
  (contains fence_json (pre ++ fence ++ body ++ fence ++ post) = false ->
   unwrap (pre ++ fence ++ body ++ fence ++ post) = strip body).
Proof.
  intros Tp Tb. split.
  - intros P.
    destruct (cut_exists fence_json (body ++ fence ++ post)) as [q Q].
    apply (unwrap_labeled _ (List.length pre) q body).
    + exact (first_behind (u "``json") pre _ Tp).
    + rewrite <- fence_json_length, skip_behind. exact Q.
    + exact (cut_labeled body post q Tb P Q).
  - intros J. apply contains_absent in J.
    apply (unwrap_plain _ (List.length pre) body J).
    + exact (first_behind (u "``") pre _ Tp).
    + rewrite <- fence_length, skip_behind. now apply cut_block.
Qed.

Lemma unwrap_fenced_block_witness :
  unwrap (u "Here you go: ```json [] ``` Anything else?") = u "[]" /\
  unwrap (u "Result: ``` [1] ``` done") = u "[1]".
Proof.
  split.
  - apply (proj1 (unwrap_fenced_block (u "Here you go: ") (u " [] ")
                    (u " Anything else?") eq_refl eq_refl)).
    discriminate.
  - apply (proj2 (unwrap_fenced_block (u "Result: ") (u " [1] ")
                    (u " done") eq_refl eq_refl)).
    vm_compute. reflexivity.
Defined.

(* ================================================================= *)
(** ** Properties of the board *)

Lemma pykey_eqb_eq (a b : pykey) : pykey_eqb a b = true <-> a = b.
Proof.
  destruct a, b; cbn [pykey_eqb]; try (split; [discriminate | congruence]);
    try (split; reflexivity).
  - rewrite Z.eqb_eq. split; congruence.
  - rewrite Bool.eqb_true_iff. split; congruence.
  - rewrite str_eqb_eq. split; congruence.
Qed.

Lemma pykey_eqb_refl (a : pykey) : pykey_eqb a a = true.
Proof. now apply pykey_eqb_eq. Qed.

Lemma pykey_eqb_neq (a b : pykey) : pykey_eqb a b = false <-> a <> b.
Proof.
  split.
  - intros H E. apply pykey_eqb_eq in E. congruence.
  - intros H. destruct (pykey_eqb a b) eqn:E; [|reflexivity].
    apply pykey_eqb_eq in E. contradiction.
Qed.

Lemma existsb_key (k : pykey) (l : list pykey) :
  existsb (pykey_eqb k) l = true <-> In k l.
Proof.
  rewrite existsb_exists. split.
  - intros [x [I E]]. apply pykey_eqb_eq in E. now subst.
  - intros I. exists k. split; [exact I | apply pykey_eqb_refl].
Qed.

Lemma existsb_key_false (k : pykey) (l : list pykey) :
  existsb (pykey_eqb k) l = false <-> ~ In k l.
Proof.
  rewrite <- existsb_key. destruct (existsb (pykey_eqb k) l);
    split; congruence.
Qed.

Lemma first_seen_app (ks : list pykey) (k : pykey) :
  first_seen (ks ++ [k]) =
  if existsb (pykey_eqb k) (first_seen ks) then first_seen ks
  else first_seen ks ++ [k].
Proof. unfold first_seen. now rewrite fold_left_app. Qed.

Lemma first_seen_in (ks : list pykey) (k : pykey) :
  In k (first_seen ks) <-> In k ks.
Proof.
  revert k. induction ks as [|x ks IH] using rev_ind; intros k; [reflexivity|].
  rewrite first_seen_app, in_app_iff.
  destruct (existsb (pykey_eqb x) (first_seen ks)) eqn:E.
  - rewrite IH. apply existsb_key, IH in E. cbn [In].
    split; [tauto|]. intros [H | [<- | []]]; assumption.
  - rewrite in_app_iff, IH. reflexivity.
Qed.

Lemma first_seen_nodup (ks : list pykey) : NoDup (first_seen ks).
Proof.
  induction ks as [|x ks IH] using rev_ind; [constructor|].
  rewrite first_seen_app.
  destruct (existsb (pykey_eqb x) (first_seen ks)) eqn:E; [exact IH|].
  apply existsb_key_false in E.
  apply NoDup_app; [exact IH | repeat constructor; intros [] | ].
  intros y Hy [<- | []]. contradiction.
Qed.

(** Dictionaries. *)
Lemma pd_keys_set {V} (d : pydict V) (k : pykey) (key : json) (v : V) :
  List.map fst (pd_set d k key v) =
  if existsb (pykey_eqb k) (List.map fst d) then List.map fst d
  else List.map fst d ++ [k].
Proof.
  induction d as [|[k' [key' v']] d IH]; [reflexivity|].
  cbn [pd_set List.map fst existsb].
  destruct (pykey_eqb k k'); [reflexivity|]. cbn [orb List.map fst].
  rewrite IH. now destruct (existsb _ _).
Qed.

Lemma pd_lookup_set {V} (d : pydict V) (k k' : pykey) (key : json) (v : V) :
  pd_lookup (pd_set d k key v) k' =
  if pykey_eqb k' k then Some v else pd_lookup d k'.
Proof.
  induction d as [|[k1 [key1 v1]] d IH]; cbn [pd_set pd_lookup].
  - reflexivity.
  - destruct (pykey_eqb k k1) eqn:E; cbn [pd_lookup].
    + apply pykey_eqb_eq in E. subst k1. now destruct (pykey_eqb k' k).
    + rewrite IH. destruct (pykey_eqb k' k1) eqn:E1; [|reflexivity].
      apply pykey_eqb_eq in E1. subst k1.
      destruct (pykey_eqb k' k) eqn:E2; [|reflexivity].
      apply pykey_eqb_eq in E2. subst. rewrite pykey_eqb_refl in E. discriminate.
Qed.

Lemma pd_lookup_map {V} (f : pykey -> json * V) (ks : list pykey) (k : pykey) :
  pd_lookup (List.map (fun k' => (k', f k')) ks) k =
  if existsb (pykey_eqb k) ks then Some (snd (f k)) else None.
Proof.
  induction ks as [|k' ks IH]; [reflexivity|]. cbn [List.map pd_lookup existsb].
  destruct (f k') as [key v] eqn:F.
  destruct (pykey_eqb k k') eqn:E; [|exact IH].
  apply pykey_eqb_eq in E. subst k'. now rewrite F.
Qed.

Lemma pd_set_new {V} (f : pykey -> json * V) (ks : list pykey) (k : pykey)
      (key : json) (v : V) :
  ~ In k ks ->
  pd_set (List.map (fun k' => (k', f k')) ks) k key v =
  List.map (fun k' => (k', f k')) ks ++ [(k, (key, v))].
Proof.
  induction ks as [|k' ks IH]; intros N; [reflexivity|].
  cbn [List.map pd_set app]. destruct (f k') as [key' v'].
  assert (pykey_eqb k k' = false) as ->.
  { apply pykey_eqb_neq. intros ->. apply N. now left. }
  rewrite IH; [reflexivity|]. intros I. apply N. now right.
Qed.

Lemma pd_set_old {V} (f : pykey -> json * V) (ks : list pykey) (k : pykey)
      (key : json) (v : V) :
  NoDup ks -> In k ks ->
  pd_set (List.map (fun k' => (k', f k')) ks) k key v =
  List.map (fun k' => if pykey_eqb k k' then (k', (fst (f k'), v))
                      else (k', f k')) ks.
Proof.
  induction ks as [|k' ks IH]; intros N I; [contradiction|].
  cbn [List.map pd_set]. destruct (f k') as [key' v'] eqn:F.
  apply NoDup_cons_iff in N. destruct N as [N1 N2].
  destruct (pykey_eqb k k') eqn:E.
  - apply pykey_eqb_eq in E. subst k'. cbn [fst]. f_equal.
    apply map_ext_in. intros x Hx.
    assert (pykey_eqb k x = false) as ->; [|reflexivity].
    apply pykey_eqb_neq. intros ->. contradiction.
  - f_equal. apply IH; [exact N2|]. destruct I as [-> | I]; [|exact I].
    rewrite pykey_eqb_refl in E. discriminate.
Qed.

Lemma hashable_hash (v : json) :
  hashable v = true -> py_hash v = inr (key_of v).
Proof. unfold key_of. destruct v; try discriminate; reflexivity. Qed.

Lemma unhashable_hash (v : json) :
  hashable v = false -> exists cls, py_hash v = inl (unhashable cls).
Proof. destruct v; try discriminate; intros _; eexists; reflexivity. Qed.

(** The tasks of a key. *)
Lemma with_key_app (k : pykey) (done : list task_dict) (t : task_dict) :
  with_key k (done ++ [t]) =
  with_key k done ++ (if pykey_eqb (akey t) k then [t] else []).
Proof. unfold with_key. now rewrite filter_app. Qed.

Lemma with_key_nil (k : pykey) (tasks : list task_dict) :
  ~ In k (List.map akey tasks) -> with_key k tasks = [].
Proof.
  intros N. unfold with_key. induction tasks as [|t tasks IH]; [reflexivity|].
  cbn [filter]. destruct (pykey_eqb (akey t) k) eqn:E.
  - apply pykey_eqb_eq in E. exfalso. apply N. left. exact E.
  - apply IH. intros I. apply N. now right.
Qed.

Lemma with_key_cons (k : pykey) (tasks : list task_dict) :
  In k (List.map akey tasks) ->
  exists t r, with_key k tasks = t :: r /\ akey t = k.
Proof.
  intros I. unfold with_key. induction tasks as [|t tasks IH]; [contradiction|].
  cbn [filter]. destruct (pykey_eqb (akey t) k) eqn:E.
  - apply pykey_eqb_eq in E. eauto.
  - apply IH. destruct I as [I | I]; [|exact I].
    apply pykey_eqb_neq in E. contradiction.
Qed.

(** One more task in the columns. *)
Lemma columns_lookup (done : list task_dict) (k : pykey) :
  pd_lookup (columns done) k =
  if existsb (pykey_eqb k) (first_seen (List.map akey done))
  then Some (with_key k done) else None.
Proof.
  exact (pd_lookup_map
           (fun k' => (match with_key k' done with
                       | t :: _ => get_assignee t
                       | [] => JNull
                       end, with_key k' done))
           (first_seen (List.map akey done)) k).
Qed.

Lemma columns_keys (done : list task_dict) :
  List.map fst (columns done) = first_seen (List.map akey done).
Proof. unfold columns. rewrite List.map_map. cbn [column_of fst]. apply map_id. Qed.

Lemma columns_old (done : list task_dict) (t : task_dict) (key : json) :
  In (akey t) (first_seen (List.map akey done)) ->
  pd_set (columns done) (akey t) key (with_key (akey t) done ++ [t]) =
  columns (done ++ [t]).
Proof.
  intros E. set (k := akey t) in *.
  pose proof (first_seen_nodup (List.map akey done)) as ND.
  unfold columns at 1.
  change (List.map (column_of done) (first_seen (List.map akey done)))
    with (List.map
            (fun k' => (k', (match with_key k' done with
                             | t :: _ => get_assignee t
                             | [] => JNull
                             end, with_key k' done)))
            (first_seen (List.map akey done))).
  rewrite (pd_set_old _ _ k key _ ND E).
  unfold columns. rewrite List.map_app. cbn [List.map]. fold k.
  rewrite first_seen_app.
  assert (existsb (pykey_eqb k) (first_seen (List.map akey done)) = true) as ->
      by now apply existsb_key.
  apply map_ext_in. intros k' Hk'. unfold column_of.
  rewrite with_key_app. fold k. cbn [fst].
  destruct (pykey_eqb k k') eqn:E1.
  - apply pykey_eqb_eq in E1. subst k'.
    pose proof (proj1 (first_seen_in _ _) E) as E'.
    destruct (with_key_cons k done E') as [t0 [r [-> _]]]. reflexivity.
  - now rewrite app_nil_r.
Qed.

Lemma pd_lookup_last {V} (d : pydict V) (k : pykey) (key : json) (v : V) :
  ~ In k (List.map fst d) -> pd_lookup (d ++ [(k, (key, v))]) k = Some v.
Proof.
  induction d as [|[k1 [key1 v1]] d IH]; intros N.
  - cbn. now rewrite pykey_eqb_refl.
  - cbn [app pd_lookup]. assert (pykey_eqb k k1 = false) as ->.
    { apply pykey_eqb_neq. intros ->. apply N. now left. }
    apply IH. intros I. apply N. now right.
Qed.

Lemma pd_set_last {V} (d : pydict V) (k : pykey) (key key' : json) (v v' : V) :
  ~ In k (List.map fst d) ->
  pd_set (d ++ [(k, (key, v))]) k key' v' = d ++ [(k, (key, v'))].
Proof.
  induction d as [|[k1 [key1 v1]] d IH]; intros N.
  - cbn. now rewrite pykey_eqb_refl.
  - cbn [app pd_set]. assert (pykey_eqb k k1 = false) as ->.
    { apply pykey_eqb_neq. intros ->. apply N. now left. }
    rewrite IH; [reflexivity|]. intros I. apply N. now right.
Qed.

Lemma pd_set_fresh {V} (d : pydict V) (k : pykey) (key : json) (v : V) :
  ~ In k (List.map fst d) -> pd_set d k key v = d ++ [(k, (key, v))].
Proof.
  induction d as [|[k1 [key1 v1]] d IH]; intros N; [reflexivity|].
  cbn [app pd_set]. assert (pykey_eqb k k1 = false) as ->.
  { apply pykey_eqb_neq. intros ->. apply N. now left. }
  rewrite IH; [reflexivity|]. intros I. apply N. now right.
Qed.

Lemma columns_new (done : list task_dict) (t : task_dict) :
  ~ In (akey t) (first_seen (List.map akey done)) ->
  columns done ++ [(akey t, (get_assignee t, [t]))] = columns (done ++ [t]).
Proof.
  intros E. set (k := akey t) in *.
  unfold columns. rewrite (List.map_app akey). cbn [List.map]. fold k.
  rewrite first_seen_app.
  assert (existsb (pykey_eqb k) (first_seen (List.map akey done)) = false) as ->
      by now apply existsb_key_false.
  rewrite List.map_app. cbn [List.map]. f_equal.
  - apply map_ext_in. intros k' Hk'. unfold column_of.
    rewrite with_key_app. fold k.
    assert (pykey_eqb k k' = false) as ->.
    { apply pykey_eqb_neq. intros ->. contradiction. }
    now rewrite app_nil_r.
  - unfold column_of. rewrite with_key_app. fold k.
    rewrite pykey_eqb_refl.
    rewrite with_key_nil by (intros I; apply E; now apply first_seen_in).
    reflexivity.
Qed.

Lemma columns_step (done : list task_dict) (t : task_dict) :
  hashable (get_assignee t) = true ->
  group_step (columns done) t = inr (columns (done ++ [t])).
Proof.
  intros H. unfold group_step. rewrite (hashable_hash _ H).
  fold (akey t). cbv zeta. rewrite columns_lookup.
  destruct (existsb (pykey_eqb (akey t)) (first_seen (List.map akey done)))
    eqn:E.
  - unfold pd_item. rewrite columns_lookup, E.
    apply existsb_key in E. now rewrite columns_old.
  - apply existsb_key_false in E.
    assert (~ In (akey t) (List.map fst (columns done))) as N
        by now rewrite columns_keys.
    rewrite (pd_set_fresh _ _ _ _ N). unfold pd_item.
    rewrite (pd_lookup_last _ _ _ _ N), (pd_set_last _ _ _ _ _ _ N).
    cbn [app]. now rewrite columns_new.
Qed.

Lemma columns_fold (rest done : list task_dict) :
  forallb (fun t => hashable (get_assignee t)) rest = true ->
  fold_res group_step rest (columns done) = inr (columns (done ++ rest)).
Proof.
  revert done. induction rest as [|t rest IH]; intros done H.
  - now rewrite app_nil_r.
  - cbn [forallb] in H. apply andb_prop in H. destruct H as [H1 H2].
    cbn [fold_res]. rewrite (columns_step done t H1).
    rewrite (IH (done ++ [t]) H2). now rewrite <- app_assoc.
Qed.

Lemma columns_entry (tasks : list task_dict) (k : pykey) (a : json)
      (l : list task_dict) :
  In (k, (a, l)) (columns tasks) ->
  In k (List.map akey tasks) /\ l = with_key k tasks /\
  exists t r, l = t :: r /\ akey t = k /\ get_assignee t = a.
Proof.
  unfold columns. intros H. apply in_map_iff in H.
  destruct H as [k' [E I]]. unfold column_of in E.
  injection E as -> <- <-. apply (proj1 (first_seen_in _ _)) in I.
  split; [exact I|]. split; [reflexivity|].
  destruct (with_key_cons k tasks I) as [t [r [-> A]]]. eauto.
Qed.

Lemma with_key_incl (k : pykey) (tasks : list task_dict) (t : task_dict) :
  In t (with_key k tasks) -> In t tasks /\ akey t = k.
Proof.
  unfold with_key. intros H. apply filter_In in H.
  destruct H as [H E]. now apply pykey_eqb_eq in E.
Qed.

Lemma presentable_sub (k : pykey) (tasks : list task_dict) :
  forallb presentable tasks = true ->
  forallb presentable (with_key k tasks) = true.
Proof.
  rewrite !forallb_forall. intros H t I. apply H.
  now apply (with_key_incl k).
Qed.

(** What the board draws. *)
Lemma show_task_ok (idx : nat) (t : task_dict) (scr : list shown) :
  hashable (get_priority t) = true ->
  show_task idx t scr = (inr tt, scr ++ [card idx t]).
Proof.
  intros H. unfold show_task, and_then, raise_or, draw, card.
  now rewrite (hashable_hash _ H).
Qed.

Lemma show_tasks_ok (idx : nat) (l : list task_dict) :
  forallb presentable l = true ->
  forall scr, for_each l (show_task idx) scr =
              (inr tt, scr ++ List.map (card idx) l).
Proof.
  induction l as [|t l IH]; intros H scr.
  - cbn. now rewrite app_nil_r.
  - cbn [forallb] in H. apply andb_prop in H. destruct H as [H1 H2].
    unfold presentable in H1. apply andb_prop in H1. destruct H1 as [_ H1].
    cbn [for_each]. unfold and_then. rewrite (show_task_ok idx t scr H1).
    rewrite (IH H2). cbn [List.map]. now rewrite <- app_assoc.
Qed.

Lemma show_column_ok (d : pydict (list task_dict)) (idx : nat) (k : pykey)
      (a : json) (l : list task_dict) (scr : list shown) :
  py_hash a = inr k -> pd_lookup d k = Some l ->
  forallb presentable l = true ->
  show_column d (idx, a) scr =
  (inr tt, scr ++ column_widgets (idx, (k, (a, l)))).
Proof.
  intros H L P. unfold show_column, and_then, raise_or, draw, pd_item.
  rewrite H, L. rewrite (show_tasks_ok idx l P).
  unfold column_widgets. cbn [fst snd]. now rewrite <- !app_assoc.
Qed.

Lemma show_columns_ok (d cols : pydict (list task_dict)) :
  (forall k a l, In (k, (a, l)) cols ->
                 py_hash a = inr k /\ pd_lookup d k = Some l /\
                 forallb presentable l = true) ->
  forall s scr,
    for_each (combine (seq s (List.length cols))
                      (List.map (fun entry => fst (snd entry)) cols))
             (show_column d) scr =
    (inr tt,
     scr ++ List.concat (List.map column_widgets
                           (combine (seq s (List.length cols)) cols))).
Proof.
  induction cols as [|[k [a l]] cols IH]; intros H s scr.
  - cbn. now rewrite app_nil_r.
  - cbn [List.length seq List.map combine for_each fst snd List.concat].
    unfold and_then.
    destruct (H k a l (or_introl eq_refl)) as [H1 [H2 H3]].
    rewrite (show_column_ok d s k a l scr H1 H2 H3).
    rewrite IH by (intros k' a' l' I; apply H; now right).
    now rewrite <- app_assoc.
Qed.

Lemma columns_nonempty (tasks : list task_dict) :
  tasks <> [] -> columns tasks <> [].
Proof.
  intros N E. destruct tasks as [|t tasks]; [contradiction|].
  assert (In (akey t) (List.map fst (columns (t :: tasks)))) as I.
  { rewrite columns_keys. apply (proj2 (first_seen_in _ _)). now left. }
  now rewrite E in I.
Qed.

Lemma board_drawn (tasks : list task_dict) (allow_edit : bool)
      (scr : list shown) :
  tasks <> [] -> forallb presentable tasks = true ->
  display_kanban_board tasks allow_edit scr = (inr tt, scr ++ board tasks).
Proof.
  intros N P. unfold display_kanban_board.
  destruct tasks as [|t0 tasks0] eqn:T; [contradiction|]. rewrite <- T in *.
  assert (nonempty tasks = true) as -> by (now rewrite T). cbn [negb].
  unfold and_then at 1. unfold raise_or.
  assert (forallb (fun t => hashable (get_assignee t)) tasks = true) as A.
  { rewrite forallb_forall in *. intros t I. apply P in I.
    unfold presentable in I. now apply andb_prop in I. }
  pose proof (columns_fold tasks [] A) as F.
  change (columns []) with (@nil (pykey * (json * list task_dict))) in F.
  cbn [app] in F. rewrite F.
  pose proof (columns_nonempty tasks N) as C.
  destruct (columns tasks) as [|c cs] eqn:E; [contradiction|]. rewrite <- E in *.
  assert (nonempty (List.map (fun entry => fst (snd entry)) (columns tasks))
          = true) as -> by (now rewrite E).
  cbn [negb]. unfold and_then, draw. rewrite length_map.
  unfold enumerate. rewrite length_map.
  rewrite (show_columns_ok (columns tasks) (columns tasks)).
  - unfold board, enumerate. now rewrite <- app_assoc.
  - intros k a l I. pose proof (columns_entry tasks k a l I) as [I1 [-> [t [r [L [K Ga]]]]]].
    assert (In t tasks) as It.
    { apply (with_key_incl k). rewrite L. now left. }
    split; [|split].
    + rewrite <- Ga. rewrite hashable_hash; [now rewrite <- K|].
      rewrite forallb_forall in A. now apply A.
    + rewrite columns_lookup.
      assert (existsb (pykey_eqb k) (first_seen (List.map akey tasks)) = true)
        as -> by (apply existsb_key, (proj2 (first_seen_in _ _)); exact I1).
      reflexivity.
    + now apply presentable_sub.
Qed.

(** Every task is in the column of its key, and in no other. *)
Lemma concat_with_key (ks : list pykey) (tasks : list task_dict) :
  NoDup ks -> (forall t, In t tasks -> In (akey t) ks) ->
  Permutation (List.concat (List.map (fun k => with_key k tasks) ks)) tasks.
Proof.
  intros ND. induction tasks as [|t tasks IH]; intros C.
  - assert (List.concat (List.map (fun k => with_key k []) ks) = []) as ->;
      [|constructor].
    clear. induction ks as [|k ks IH]; [reflexivity|]. cbn. exact IH.
  - destruct (in_split _ _ (C t (or_introl eq_refl))) as [k1 [k2 E]].
    assert (forall k, k <> akey t ->
                      with_key k (t :: tasks) = with_key k tasks) as O.
    { intros k Hk. unfold with_key. cbn [filter].
      assert (pykey_eqb (akey t) k = false) as ->; [|reflexivity].
      apply pykey_eqb_neq. congruence. }
    assert (with_key (akey t) (t :: tasks) = t :: with_key (akey t) tasks) as Y.
    { unfold with_key. cbn [filter]. now rewrite pykey_eqb_refl. }
    rewrite E in ND. pose proof (NoDup_remove_2 _ _ _ ND) as NI.
    rewrite E. rewrite !List.map_app, !concat_app. cbn [List.map List.concat].
    rewrite Y.
    assert (List.map (fun k => with_key k (t :: tasks)) k1 =
            List.map (fun k => with_key k tasks) k1) as ->.
    { apply map_ext_in. intros k Hk. apply O. intros ->.
      apply NI. apply in_or_app. now left. }
    assert (List.map (fun k => with_key k (t :: tasks)) k2 =
            List.map (fun k => with_key k tasks) k2) as ->.
    { apply map_ext_in. intros k Hk. apply O. intros ->.
      apply NI. apply in_or_app. now right. }
    cbn [app]. apply Permutation_sym, Permutation_cons_app, Permutation_sym.
    specialize (IH (fun t' I => C t' (or_intror I))).
    rewrite E in IH.
    rewrite !List.map_app, !concat_app in IH. cbn [List.map List.concat] in IH.
    exact IH.
Qed.

Lemma columns_cover (tasks : list task_dict) :
  Permutation (List.concat (List.map (fun c => snd (snd c)) (columns tasks)))
              tasks.
Proof.
  unfold columns. rewrite List.map_map. cbn [column_of snd].
  apply concat_with_key; [apply first_seen_nodup|].
  intros t I. apply (proj2 (first_seen_in _ _)). now apply in_map.
Qed.

(** X14.  For tasks whose assignees and priorities can be
    keys, which texts, numbers, booleans and [None] can, the board
    draws one column for every assignee, in the order in which the
    assignees come first in the list; assignees that are equal as
    Python values, as 1 and 1.0 are, share a column, which is headed by
    the one that came first.  Under the header and the rule of a column
    stand the cards of the tasks of the assignee, in the order of the
    list.  Every task has its card in exactly one column. *)
Theorem kanban_groups (tasks : list task_dict) (allow_edit : bool)
        (scr : list shown) :
  tasks <> [] -> forallb presentable tasks = true ->
  display_kanban_board tasks allow_edit scr = (inr tt, scr ++ board tasks) /\
  List.map fst (columns tasks) = first_seen (List.map akey tasks) /\
  NoDup (List.map fst (columns tasks)) /\
  (forall k a l,
      In (k, (a, l)) (columns tasks) ->
      l = filter (fun t => pykey_eqb (key_of (get_assignee t)) k) tasks /\
      exists t r, l = t :: r /\ get_assignee t = a /\ py_hash a = inr k) /\
  Permutation (List.concat (List.map (fun c => snd (snd c)) (columns tasks)))
              tasks.
Proof.
  intros N P.
  split; [now apply board_drawn|].
  split; [apply columns_keys|].
  split; [rewrite columns_keys; apply first_seen_nodup|].
  split; [|apply columns_cover].
  intros k a l I.
  destruct (columns_entry tasks k a l I) as [_ [-> [t [r [L [K Ga]]]]]].
  split; [reflexivity|]. exists t, r. split; [exact L|]. split; [exact Ga|].
  rewrite <- Ga, <- K. apply hashable_hash.
  assert (In t tasks) as It.
  { apply (with_key_incl k). rewrite L. now left. }
  rewrite forallb_forall in P. apply P in It. unfold presentable in It.
  now apply andb_prop in It.
Qed.

Lemma kanban_groups_witness :
  sample_tasks <> [] /\
  forallb presentable sample_tasks = true /\
  display_kanban_board sample_tasks true [] =
  (inr tt,
   [ (None, w_columns 2);
     (Some 0, w_subheader [Text person; Value (JStr (u "Ann"))]);
     (Some 0, w_markdown [Text (u "---")]);
     (Some 0, w_card (u "#ff4444") red_circle (JStr (u "High"))
                     (JStr (u "Book room")));
     (Some 0, w_card (u "#44ff44") white_circle JNull (JStr (u "Call Bob")));
     (Some 1, w_subheader [Text person; Value (JInt 1)]);
     (Some 1, w_markdown [Text (u "---")]);
     (Some 1, w_card (u "#44ff44") green_circle (JStr (u "Low"))
                     (JStr (u "Send notes")));
     (Some 1, w_card (u "#ff4444") red_circle (JStr (u "High"))
                     (JStr (u "Pay"))) ]).
Proof.
  assert (sample_tasks <> []) as N by discriminate.
  assert (forallb presentable sample_tasks = true) as P
      by (vm_compute; reflexivity).
  split; [exact N|]. split; [exact P|].
  rewrite (proj1 (kanban_groups sample_tasks true [] N P)).
  vm_compute. reflexivity.
Defined.

(* ================================================================= *)
(** ** Properties of the summary *)

Lemma float_key_number (lexeme s : str) : float_key lexeme <> KStr s.
Proof.
  unfold float_key.
  repeat match goal with
         | |- context [if ?c then _ else _] => destruct c
         | |- context [let (_, _) := ?p in _] => destruct p
         | |- context [match ?x with _ => _ end] => destruct x
         end; discriminate.
Qed.

Lemma high_key (v : json) :
  hashable v = true ->
  pykey_eqb (KStr (u "High")) (key_of v) = eq_text v (u "High").
Proof.
  destruct v as [| b | z | x | s | elems | d]; try discriminate; intros _;
    unfold key_of; cbn [py_hash pykey_eqb eq_text]; try reflexivity.
  - destruct (float_key x) eqn:E; try reflexivity.
    now apply float_key_number in E.
  - destruct (str_eqb (u "High") s) eqn:E.
    + apply str_eqb_eq in E. subst s. reflexivity.
    + destruct (str_eqb s (u "High")) eqn:E2; [|reflexivity].
      apply str_eqb_eq in E2. subst s. discriminate.
Qed.

Lemma count_step_ok (ac pc : pydict nat) (t : task_dict) :
  presentable t = true ->
  count_step (ac, pc) t =
  inr (pd_set ac (akey t) (get_assignee t) (pd_get ac (akey t) 0 + 1),
       pd_set pc (key_of (get_priority t)) (get_priority t)
              (pd_get pc (key_of (get_priority t)) 0 + 1)).
Proof.
  intros P. unfold presentable in P. apply andb_prop in P. destruct P as [A B].
  unfold count_step. now rewrite (hashable_hash _ A), (hashable_hash _ B).
Qed.

Lemma count_fold (rest : list task_dict) :
  forall (done : list task_dict) (ac pc : pydict nat) (h : nat),
    List.map fst ac = first_seen (List.map akey done) ->
    pd_lookup pc (KStr (u "High")) = Some h ->
    forallb presentable rest = true ->
    exists ac' pc',
      fold_res count_step rest (ac, pc) = inr (ac', pc') /\
      List.map fst ac' = first_seen (List.map akey (done ++ rest)) /\
      pd_lookup pc' (KStr (u "High")) =
      Some (h + List.length (filter is_high rest)).
Proof.
  induction rest as [|t rest IH]; intros done ac pc h A H P.
  - exists ac, pc. cbn [fold_res filter List.length].
    now rewrite app_nil_r, Nat.add_0_r.
  - cbn [forallb] in P. apply andb_prop in P. destruct P as [P1 P2].
    cbn [fold_res]. rewrite (count_step_ok ac pc t P1).
    destruct (IH (done ++ [t])
                 (pd_set ac (akey t) (get_assignee t) (pd_get ac (akey t) 0 + 1))
                 (pd_set pc (key_of (get_priority t)) (get_priority t)
                         (pd_get pc (key_of (get_priority t)) 0 + 1))
                 (h + (if is_high t then 1 else 0)))
      as [ac' [pc' [F [A' H']]]].
    + rewrite pd_keys_set, A, List.map_app. cbn [List.map].
      now rewrite first_seen_app.
    + rewrite pd_lookup_set. unfold presentable in P1.
      apply andb_prop in P1. destruct P1 as [_ P1].
      rewrite (high_key _ P1). unfold is_high.
      destruct (eq_text (get_priority t) (u "High")) eqn:E.
      * assert (key_of (get_priority t) = KStr (u "High")) as ->.
        { pose proof (high_key _ P1) as K. rewrite E in K.
          apply pykey_eqb_eq in K. now symmetry. }
        unfold pd_get. rewrite H. reflexivity.
      * rewrite H. now rewrite Nat.add_0_r.
    + exact P2.
    + exists ac', pc'. split; [exact F|]. split.
      * now rewrite <- app_assoc in A'.
      * rewrite H'. cbn [filter]. destruct (is_high t); cbn [List.length];
          f_equal; lia.
Qed.

Lemma summary_drawn (tasks : list task_dict) (scr : list shown) :
  tasks <> [] -> forallb presentable tasks = true ->
  display_tasks_summary tasks scr = (inr tt, scr ++ summary tasks).
Proof.
  intros N P. unfold display_tasks_summary.
  assert (nonempty tasks = true) as -> by (destruct tasks; [contradiction | reflexivity]).
  cbn [negb]. unfold and_then at 1. unfold draw at 1.
  destruct (count_fold tasks [] no_assignees no_counts 0 eq_refl eq_refl P)
    as [ac [pc [F [A H]]]].
  unfold and_then at 1. unfold raise_or at 1. rewrite F.
  unfold and_then, draw, raise_or, pd_item. rewrite H.
  cbn [app] in A. rewrite <- columns_keys in A.
  apply (f_equal (@List.length pykey)) in A. rewrite !length_map in A.
  rewrite A. unfold summary. cbn [Nat.add].
  now rewrite <- !app_assoc.
Qed.

(** X15.  For tasks whose assignees and priorities can be
    keys, the summary shows its title and three metrics: the number of
    tasks, the number of assignees, which is the number of columns of
    the board, and the number of tasks whose priority is the text
    High. *)
Theorem summary_counts (tasks : list task_dict) (scr : list shown) :
  tasks <> [] -> forallb presentable tasks = true ->
  display_tasks_summary tasks scr =
  (inr tt,
   scr ++
   [ (None, w_subheader [Text (chart ++ u " Task Summary")]);
     (None, w_columns 3);
     (Some 0, w_metric (u "Total Tasks") (List.length tasks));
     (Some 1, w_metric (u "Assignees")
                       (List.length (first_seen (List.map akey tasks))));
     (Some 2, w_metric (u "High Priority")
                       (List.length (filter is_high tasks))) ]) /\
  snd (display_kanban_board tasks true []) =
  (None, w_columns (List.length (first_seen (List.map akey tasks))))
    :: List.concat (List.map column_widgets (enumerate (columns tasks))).
Proof.
  intros N P. split.
  - rewrite (summary_drawn tasks scr N P). unfold summary.
    now rewrite <- columns_keys, length_map.
  - rewrite (board_drawn tasks true [] N P). cbn [snd app]. unfold board.
    now rewrite <- columns_keys, length_map.
Qed.

Lemma summary_counts_witness :
  sample_tasks <> [] /\
  forallb presentable sample_tasks = true /\
  display_tasks_summary sample_tasks [] =
  (inr tt,
   [ (None, w_subheader [Text (chart ++ u " Task Summary")]);
     (None, w_columns 3);
     (Some 0, w_metric (u "Total Tasks") 4);
     (Some 1, w_metric (u "Assignees") 2);
     (Some 2, w_metric (u "High Priority") 2) ]).
Proof.
  assert (sample_tasks <> []) as N by discriminate.
  assert (forallb presentable sample_tasks = true) as P
      by (vm_compute; reflexivity).
  split; [exact N|]. split; [exact P|].
  rewrite (proj1 (summary_counts sample_tasks [] N P)).
  vm_compute. reflexivity.
Defined.

(* ================================================================= *)
(** ** Values that cannot be keys *)

Lemma group_step_raises (d : pydict (list task_dict)) (t : task_dict) :
  hashable (get_assignee t) = false ->
  exists cls, group_step d t = inl (unhashable cls).
Proof.
  intros H. unfold group_step.
  destruct (unhashable_hash _ H) as [cls ->]. now exists cls.
Qed.

Lemma group_step_returns (d : pydict (list task_dict)) (t : task_dict) :
  hashable (get_assignee t) = true -> exists d', group_step d t = inr d'.
Proof.
  intros H. unfold group_step. rewrite (hashable_hash _ H). cbv zeta.
  unfold pd_item.
  destruct (pd_lookup d (key_of (get_assignee t))) as [l|] eqn:E.
  - rewrite E. eauto.
  - rewrite pd_lookup_set, pykey_eqb_refl. eauto.
Qed.

Lemma fold_group_raises (tasks : list task_dict) :
  forallb (fun t => hashable (get_assignee t)) tasks = false ->
  forall d, exists cls, fold_res group_step tasks d = inl (unhashable cls).
Proof.
  induction tasks as [|t tasks IH]; intros H d; [discriminate|].
  cbn [forallb fold_res] in *.
  destruct (hashable (get_assignee t)) eqn:E.
  - destruct (group_step_returns d t E) as [d' ->]. now apply IH.
  - destruct (group_step_raises d t E) as [cls ->]. now exists cls.
Qed.

Lemma count_step_raises (ac pc : pydict nat) (t : task_dict) :
  presentable t = false ->
  exists cls, count_step (ac, pc) t = inl (unhashable cls).
Proof.
  intros H. unfold presentable in H. unfold count_step.
  destruct (hashable (get_assignee t)) eqn:A.
  - cbn [andb] in H. rewrite (hashable_hash _ A).
    destruct (unhashable_hash _ H) as [cls ->]. now exists cls.
  - destruct (unhashable_hash _ A) as [cls ->]. now exists cls.
Qed.

Lemma fold_count_raises (tasks : list task_dict) :
  forallb presentable tasks = false ->
  forall ac pc,
    exists cls, fold_res count_step tasks (ac, pc) = inl (unhashable cls).
Proof.
  induction tasks as [|t tasks IH]; intros H ac pc; [discriminate|].
  cbn [forallb fold_res] in *.
  destruct (presentable t) eqn:E.
  - rewrite (count_step_ok ac pc t E). now apply IH.
  - destruct (count_step_raises ac pc t E) as [cls ->]. now exists cls.
Qed.

Lemma summary_raises (tasks : list task_dict) (scr : list shown) :
  forallb presentable tasks = false ->
  exists cls,
    display_tasks_summary tasks scr =
    (inl (unhashable cls),
     scr ++ [(None, w_subheader [Text (chart ++ u " Task Summary")])]).
Proof.
  intros H. unfold display_tasks_summary.
  assert (nonempty tasks = true) as -> by (destruct tasks; [discriminate | reflexivity]).
  cbn [negb]. unfold and_then at 1. unfold draw at 1.
  destruct (fold_count_raises tasks H no_assignees no_counts) as [cls F].
  exists cls. unfold and_then at 1. unfold raise_or at 1. now rewrite F.
Qed.

(** X16.  An action item whose assignee or priority is
    a list or an object stops step 4: the summary raises [TypeError]
    after its title, so the board is not drawn.  The board raises it
    before it draws anything when an assignee is a list or an object.
    Validation lets such items through: they are what the model
    answered. *)
Theorem board_needs_keys :
  (forall tasks scr,
      forallb presentable tasks = false ->
      exists cls,
        show_board tasks scr =
        (inl (unhashable cls),
         scr ++ [ (None, w_header [Text (u "Step 4: Kanban Board")]);
                  (None, w_subheader [Text (chart ++ u " Task Summary")]) ])) /\
  (forall tasks allow_edit scr,
      forallb (fun t => hashable (get_assignee t)) tasks = false ->
      exists cls,
        display_kanban_board tasks allow_edit scr = (inl (unhashable cls), scr)) /\
  (forall elems x,
      In x elems -> kept x = true ->
      presentable (item_dict (emitted x)) = false ->
      forallb presentable (List.map item_dict (validate elems)) = false).
Proof.
  split; [|split].
  - intros tasks scr H. unfold show_board.
    assert (nonempty tasks = true) as -> by (destruct tasks; [discriminate | reflexivity]).
    unfold and_then at 1. unfold draw at 1.
    destruct (summary_raises tasks
                (scr ++ [(None, w_header [Text (u "Step 4: Kanban Board")])]) H)
      as [cls E].
    exists cls. unfold and_then at 1. rewrite E. now rewrite <- app_assoc.
  - intros tasks allow_edit scr H. unfold display_kanban_board.
    assert (nonempty tasks = true) as -> by (destruct tasks; [discriminate | reflexivity]).
    cbn [negb]. destruct (fold_group_raises tasks H []) as [cls F].
    exists cls. unfold and_then, raise_or. now rewrite F.
  - intros elems x I K P. rewrite validate_spec.
    destruct (forallb presentable _) eqn:E; [|reflexivity].
    rewrite forallb_forall in E.
    rewrite <- P. symmetry. apply E.
    apply in_map, in_map. apply filter_In. auto.
Qed.

Lemma board_needs_keys_witness :
  fst (extract_action_items (mocked shared_task_response) (u "notes") fresh) =
  inr [ActionItem (JArr [JStr (u "Ann"); JStr (u "Bob")])
                  (JStr (u "Call the client")) (JStr (u "Medium"))] /\
  exists cls,
    show_board
      [item_dict (ActionItem (JArr [JStr (u "Ann"); JStr (u "Bob")])
                             (JStr (u "Call the client")) (JStr (u "Medium")))]
      [] =
    (inl (unhashable cls),
     [ (None, w_header [Text (u "Step 4: Kanban Board")]);
       (None, w_subheader [Text (chart ++ u " Task Summary")]) ]).
Proof.
  split; [vm_compute; reflexivity|].
  apply (proj1 board_needs_keys
           [item_dict (ActionItem (JArr [JStr (u "Ann"); JStr (u "Bob")])
                                  (JStr (u "Call the client"))
                                  (JStr (u "Medium")))] []).
  vm_compute. reflexivity.
Defined.

Lemma item_assignee (a : action_item) : get_assignee (item_dict a) = assignee a.
Proof. reflexivity. Qed.

Lemma item_priority (a : action_item) : get_priority (item_dict a) = priority a.
Proof. reflexivity. Qed.

(** X17.  Step 4 draws nothing without action items.
    With action items whose assignees and priorities are texts,
    numbers, booleans or [None], as [extract_action_items] returns them
    when the model kept to the structure it was asked for, it draws
    its header, the summary, a rule and the board, and raises
    nothing. *)
Theorem show_board_draws (items : list action_item) (scr : list shown) :
  items <> [] ->
  forallb (fun a => hashable (assignee a) && hashable (priority a)) items
  = true ->
  show_board (List.map item_dict items) scr =
  (inr tt,
   scr ++ [(None, w_header [Text (u "Step 4: Kanban Board")])]
       ++ summary (List.map item_dict items)
       ++ [(None, w_markdown [Text (u "---")])]
       ++ board (List.map item_dict items)) /\
  show_board [] scr = (inr tt, scr).
Proof.
  intros N H. split; [|reflexivity].
  assert (List.map item_dict items <> []) as N'
      by (destruct items; [contradiction | discriminate]).
  assert (forallb presentable (List.map item_dict items) = true) as P.
  { rewrite forallb_forall in *. intros t I. apply in_map_iff in I.
    destruct I as [a [<- I]]. unfold presentable.
    rewrite item_assignee, item_priority. now apply H. }
  unfold show_board.
  assert (nonempty (List.map item_dict items) = true) as ->
      by (destruct (List.map item_dict items); [contradiction | reflexivity]).
  unfold and_then, draw.
  rewrite (summary_drawn _ _ N' P), (board_drawn _ true _ N' P).
  now rewrite <- !app_assoc.
Qed.

Lemma show_board_draws_witness :
  fst (show_board
         (List.map item_dict
            [ActionItem (JStr (u "Ann")) (JStr (u "Book room")) (JStr (u "High"))])
         []) = inr tt /\
  List.length
    (snd (show_board
            (List.map item_dict
               [ActionItem (JStr (u "Ann")) (JStr (u "Book room"))
                           (JStr (u "High"))])
            [])) = 11.
Proof.
  rewrite (proj1 (show_board_draws
                    [ActionItem (JStr (u "Ann")) (JStr (u "Book room"))
                                (JStr (u "High"))] []
                    ltac:(discriminate) eq_refl)).
  split; [reflexivity | vm_compute; reflexivity].
Defined.

(* ================================================================= *)
(** ** Saving the tasks and loading them *)

Lemma rows_fold (user_id : str) (l : list task_dict) (acc : list task_dict) :
  fold_left (fun rows task => rows ++ [task_row user_id task]) l acc =
  acc ++ List.map (task_row user_id) l.
Proof.
  revert acc. induction l as [|t l IH]; intros acc; cbn [fold_left List.map].
  - now rewrite app_nil_r.
  - rewrite IH. now rewrite <- app_assoc.
Qed.

Lemma save_tasks_run (db : supabase) (user_id : str)
      (tasks_list : list task_dict) (scr : list shown) :
  save_tasks db user_id tasks_list scr =
  match get_supabase_client db with
  | inl e => (inr false, scr ++ [(None, w_error [Text (u "Error saving tasks: "); Error e])])
  | inr _ =>
      match table_insert db (List.map (task_row user_id) tasks_list) with
      | inl e => (inr false, scr ++ [(None, w_error [Text (u "Error saving tasks: "); Error e])])
      | inr _ => (inr true, scr)
      end
  end.
Proof.
  unfold save_tasks, try_catch, and_then, raise_or, draw, pure.
  rewrite rows_fold. cbn [app].
  destruct (get_supabase_client db) as [e|[]]; [reflexivity|].
  destruct (table_insert db _) as [e|[]]; reflexivity.
Qed.

Lemma fetch_tasks_run (db : supabase) (user_id : str) (scr : list shown) :
  fetch_tasks db user_id scr =
  match get_supabase_client db with
  | inl e => (inr (JArr []),
              scr ++ [(None, w_error [Text (u "Error fetching tasks: "); Error e])])
  | inr _ =>
      match table_select db user_id with
      | inl e => (inr (JArr []),
                  scr ++ [(None, w_error [Text (u "Error fetching tasks: "); Error e])])
      | inr data => (inr (if py_truthy data then data else JArr []), scr)
      end
  end.
Proof.
  unfold fetch_tasks, try_catch, and_then, raise_or, draw, pure.
  destruct (get_supabase_client db) as [e|[]]; [reflexivity|].
  destruct (table_select db user_id) as [e|data]; reflexivity.
Qed.

Lemma row_back (user_id : str) (a : action_item) (r : json) :
  gives_back r (task_row user_id (item_dict a)) ->
  to_action_item r = inr (item_dict a).
Proof.
  intros [d [-> [A [T P]]]]. unfold to_action_item, py_get, dict_get.
  rewrite A, T, P. reflexivity.
Qed.

Lemma rows_back (user_id : str) (items : list action_item) (stored : list json) :
  Forall2 gives_back stored
          (List.map (task_row user_id) (List.map item_dict items)) ->
  map_res to_action_item stored = inr (List.map item_dict items) /\
  List.length stored = List.length items.
Proof.
  revert stored. induction items as [|a items IH]; intros stored H.
  - inversion H. split; reflexivity.
  - cbn [List.map] in H. inversion H as [|r row stored' rows' G F]; subst.
    destruct (IH stored' F) as [M L].
    cbn [map_res]. rewrite (row_back user_id a r G), M.
    split; [reflexivity | cbn [List.length]; now rewrite L].
Qed.

(** X18.  The items that [extract_action_items] returned
    come back as they were saved: when the button of step 5 saves the
    action items of the session and the table takes the rows, the
    button is told so; and when the table then gives these rows back
    for the user, with whatever columns it has added, the button that
    loads puts the same items into the session, whatever the session
    held before, and tells how many they are. *)
Theorem save_then_load (db : supabase) (user_id : str)
        (items : list action_item) (stored : list json) (s : session) :
  items <> [] ->
  action_items s = List.map item_dict items ->
  get_supabase_client db = inr tt ->
  table_insert db (List.map (task_row user_id) (List.map item_dict items))
  = inr tt ->
  table_select db user_id = inr (JArr stored) ->
  Forall2 gives_back stored
          (List.map (task_row user_id) (List.map item_dict items)) ->
  save_to_supabase db user_id s =
  (inr tt,
   Session (action_items s)
           (page s ++ [(None, w_success [Text ([9989%N] ++ u " Tasks saved to Supabase!")])])) /\
  forall s',
    load_saved_tasks db user_id s' =
    (inr tt,
     Session (List.map item_dict items)
             (page s' ++ [(None, w_success [ Text (u "Loaded ");
                                             Count (List.length items);
                                             Text (u " saved task(s)") ])])).
Proof.
  intros N A C I S G. split.
  - unfold save_to_supabase, and_then, on_page.
    rewrite save_tasks_run, C, A, I. reflexivity.
  - intros s'. destruct (rows_back user_id items stored G) as [M L].
    unfold load_saved_tasks, and_then, on_page.
    rewrite fetch_tasks_run, C, S.
    assert (py_truthy (JArr stored) = true) as T.
    { cbn [py_truthy]. destruct stored; [|reflexivity].
      destruct items; [contradiction | discriminate]. }
    rewrite T. cbn [action_items page]. rewrite T.
    unfold raise_or, set_action_items, draw. cbn [py_iter].
    rewrite M, L. reflexivity.
Qed.

Lemma save_then_load_witness :
  load_saved_tasks
    (sample_db
       [ JObj [ (u "id", JInt 7); (u "user_id", JStr (u "u1"));
                (u "assignee", JStr (u "Ann")); (u "task", JStr (u "Book room"));
                (u "priority", JStr (u "High")); (u "status", JStr (u "pending")) ] ])
    (u "u1") (Session [] []) =
  (inr tt,
   Session [item_dict (ActionItem (JStr (u "Ann")) (JStr (u "Book room"))
                                  (JStr (u "High")))]
           [(None, w_success [Text (u "Loaded "); Count 1;
                              Text (u " saved task(s)")])]).
Proof.
  apply (proj2 (save_then_load
                  (sample_db
                     [ JObj [ (u "id", JInt 7); (u "user_id", JStr (u "u1"));
                              (u "assignee", JStr (u "Ann"));
                              (u "task", JStr (u "Book room"));
                              (u "priority", JStr (u "High"));
                              (u "status", JStr (u "pending")) ] ])
                  (u "u1")
                  [ActionItem (JStr (u "Ann")) (JStr (u "Book room"))
                              (JStr (u "High"))]
                  [ JObj [ (u "id", JInt 7); (u "user_id", JStr (u "u1"));
                           (u "assignee", JStr (u "Ann"));
                           (u "task", JStr (u "Book room"));
                           (u "priority", JStr (u "High"));
                           (u "status", JStr (u "pending")) ] ]
                  (Session [item_dict (ActionItem (JStr (u "Ann"))
                                         (JStr (u "Book room"))
                                         (JStr (u "High")))] [])
                  ltac:(discriminate) eq_refl eq_refl eq_refl eq_refl
                  ltac:(repeat constructor; eexists; repeat split; reflexivity))).
Defined.

(** X19.  Neither button loses the action items of the
    session.  Saving leaves them as they are, whether the table takes
    the rows or the client or the insertion raises, in which case the
    exception is shown and the button reports the failure.  Loading
    leaves them as they are when the client or the selection raises,
    which is shown, and when the table has no rows for the user. *)
Theorem load_keeps_items (db : supabase) (user_id : str) (s : session) :
  (exists notes,
      save_to_supabase db user_id s =
      (inr tt, Session (action_items s) (page s ++ notes)) /\
      (fst (save_tasks db user_id (action_items s) (page s)) = inr true <->
       get_supabase_client db = inr tt /\
       table_insert db (List.map (task_row user_id) (action_items s)) = inr tt)) /\
  (forall e,
      get_supabase_client db = inl e \/
      (get_supabase_client db = inr tt /\ table_select db user_id = inl e) ->
      load_saved_tasks db user_id s =
      (inr tt,
       Session (action_items s)
               (page s ++
                [ (None, w_error [Text (u "Error fetching tasks: "); Error e]);
                  (None, w_info [Text (u "No saved tasks found.")]) ]))) /\
  (forall data,
      get_supabase_client db = inr tt ->
      table_select db user_id = inr data ->
      py_truthy data = false ->
      load_saved_tasks db user_id s =
      (inr tt,
       Session (action_items s)
               (page s ++ [(None, w_info [Text (u "No saved tasks found.")])]))).
Proof.
  split; [|split].
  - unfold save_to_supabase, and_then, on_page. rewrite save_tasks_run.
    destruct (get_supabase_client db) as [e|[]].
    + eexists. split; [cbn; now rewrite <- app_assoc|].
      split; [discriminate | intros [X _]; discriminate].
    + destruct (table_insert db _) as [e|[]].
      * eexists. split; [cbn; now rewrite <- app_assoc|].
        split; [discriminate | intros [_ X]; discriminate].
      * eexists. split; [reflexivity|]. split; auto.
  - intros e H. unfold load_saved_tasks, and_then, on_page.
    rewrite fetch_tasks_run.
    destruct H as [-> | [-> ->]]; cbn; now rewrite <- app_assoc.
  - intros data C S T. unfold load_saved_tasks, and_then, on_page.
    rewrite fetch_tasks_run, C, S, T. reflexivity.
Qed.

Lemma load_keeps_items_witness :
  load_saved_tasks no_db (u "u1")
    (Session [item_dict (ActionItem (JStr (u "Ann")) (JStr (u "Book room"))
                                    (JStr (u "High")))] []) =
  (inr tt,
   Session [item_dict (ActionItem (JStr (u "Ann")) (JStr (u "Book room"))
                                  (JStr (u "High")))]
           [ (None, w_error [Text (u "Error fetching tasks: ");
                             Error (PyException (u "ValueError")
                                      (u "Environment variable SUPABASE_URL is not set"))]);
             (None, w_info [Text (u "No saved tasks found.")]) ]).
Proof.
  apply (proj1 (proj2 (load_keeps_items no_db (u "u1")
                         (Session [item_dict (ActionItem (JStr (u "Ann"))
                                                (JStr (u "Book room"))
                                                (JStr (u "High")))] [])))).
  left. reflexivity.
Defined.

(* ================================================================= *)
(** ** Properties of the search in the drive *)

Lemma py_hash_key (v : json) (k : pykey) :
  py_hash v = inr k -> hashable v = true /\ key_of v = k.
Proof.
  intros H. unfold key_of. rewrite H.
  destruct v; try discriminate; split; reflexivity.
Qed.

Lemma keeps_pure {A} (v : A) : keeps (pure v).
Proof. intros s H. exact H. Qed.

Lemma keeps_raise_or {A} (r : res A) : keeps (raise_or r).
Proof. intros s H. exact H. Qed.

Lemma keeps_and_then {A B} (m : Run search_state A)
      (f : A -> Run search_state B) :
  keeps m -> (forall v, keeps (f v)) -> keeps (and_then m f).
Proof.
  intros Hm Hf s H. unfold and_then. specialize (Hm s H).
  destruct (m s) as [[e|v] s']; cbn [snd] in *; [exact Hm|].
  now apply Hf.
Qed.

Lemma keeps_try_catch {A} (body : Run search_state A)
      (handler : exn -> Run search_state A) :
  keeps body -> (forall e, keeps (handler e)) -> keeps (try_catch body handler).
Proof.
  intros Hb Hh s H. unfold try_catch. specialize (Hb s H).
  destruct (body s) as [[e|v] s']; cbn [snd] in *; [|exact Hb].
  now apply Hh.
Qed.

Lemma keeps_for_each {A} (l : list A) (body : A -> Run search_state unit) :
  (forall x, keeps (body x)) -> keeps (for_each l body).
Proof.
  intros Hb. induction l as [|x l IH]; cbn [for_each].
  - apply keeps_pure.
  - apply keeps_and_then; [apply Hb | intros _; exact IH].
Qed.

Lemma keeps_files_list (service : drive) (rq : request) :
  keeps (files_list service rq).
Proof. intros s H. exact H. Qed.

Lemma keeps_warn (body : list part) : keeps (warn body).
Proof. intros s H. exact H. Qed.

Lemma keeps_add_file (file : json) : keeps (add_file file).
Proof.
  intros s [M [N F]]. unfold add_file, and_then, raise_or.
  destruct (py_item file (u "id")) as [e|id] eqn:I; cbn [snd]; [now split|].
  destruct (py_hash id) as [e|k] eqn:K; cbn [snd]; [now split|].
  destruct (existsb (pykey_eqb k) (seen_file_ids s)) eqn:E; cbn [snd];
    [now split|].
  destruct (py_hash_key id k K) as [Hh Hk].
  apply existsb_key_false in E.
  split; [|split]; cbn [all_files seen_file_ids].
  - rewrite List.map_app, M. cbn [List.map]. unfold id_key. rewrite I.
    now rewrite Hk.
  - apply NoDup_app; [exact N | repeat constructor; intros [] |].
    intros y Hy [<- | []]. contradiction.
  - apply Forall_app. split; [exact F|]. constructor; [|constructor].
    exists id. auto.
Qed.

Lemma keeps_collect (results : json) : keeps (collect results).
Proof.
  unfold collect. apply keeps_and_then; [apply keeps_raise_or|]. intros found.
  apply keeps_and_then; [apply keeps_raise_or|]. intros files.
  apply keeps_for_each. apply keeps_add_file.
Qed.

Lemma keeps_global (service : drive) (mc sd ed : option str) :
  keeps (global_search service mc sd ed).
Proof.
  unfold global_search. apply keeps_try_catch.
  - apply keeps_and_then; [apply keeps_files_list|]. intros r.
    apply keeps_collect.
  - intros e. apply keeps_warn.
Qed.

Lemma keeps_folder (service : drive) (mc sd ed : option str) :
  keeps (folder_search service mc sd ed).
Proof.
  unfold folder_search. apply keeps_try_catch.
  - apply keeps_and_then; [apply keeps_files_list|]. intros r.
    apply keeps_and_then; [apply keeps_raise_or|]. intros folders.
    destruct (py_truthy folders); [|apply keeps_pure].
    apply keeps_and_then; [apply keeps_raise_or|]. intros folder.
    apply keeps_and_then; [apply keeps_raise_or|]. intros fid.
    apply keeps_and_then; [apply keeps_files_list|]. intros r2.
    apply keeps_collect.
  - intros e s H. destruct (negb (nonempty (all_files s))); exact H.
Qed.

Lemma calm_try_catch {S A} (body : Run S A) (handler : exn -> Run S A) :
  (forall e, calm (handler e)) -> calm (try_catch body handler).
Proof.
  intros Hh s. unfold try_catch.
  destruct (body s) as [[e|v] s']; [apply Hh | now exists v].
Qed.

Lemma calm_global (service : drive) (mc sd ed : option str) :
  calm (global_search service mc sd ed).
Proof.
  apply calm_try_catch. intros e s. now exists tt.
Qed.

Lemma calm_folder (service : drive) (mc sd ed : option str) :
  calm (folder_search service mc sd ed).
Proof.
  apply calm_try_catch. intros e s.
  destruct (negb (nonempty (all_files s))); now exists tt.
Qed.

Lemma search_files_ok (service : drive) (mc sd ed : option str)
      (s0 : search_state) :
  exists s,
    search_files service mc sd ed s0 = (inr (all_files s), s) /\ search_ok s.
Proof.
  unfold search_files.
  assert (search_ok (SearchState [] [] (sent s0) (drawn s0))) as H0.
  { repeat split; constructor. }
  set (s1 := SearchState [] [] (sent s0) (drawn s0)) in *.
  pose proof (keeps_global service mc sd ed s1 H0) as K1.
  destruct (calm_global service mc sd ed s1) as [[] C1].
  unfold and_then at 1.
  destruct (global_search service mc sd ed s1) as [r1 s2].
  cbn [fst snd] in *. subst r1.
  destruct (negb (nonempty (all_files s2)) || truthy_opt mc).
  - pose proof (keeps_folder service mc sd ed s2 K1) as K2.
    destruct (calm_folder service mc sd ed s2) as [[] C2].
    unfold and_then.
    destruct (folder_search service mc sd ed s2) as [r2 s3].
    cbn [fst snd] in *. subst r2. now exists s3.
  - now exists s2.
Qed.

(** X20.  Once the service is built, the search of
    [list_drive_files] returns a list and raises nothing, whatever the
    service answers or raises.  Every file in the list has an
    identifier, and no two files of the list have identifiers that are
    equal. *)
Theorem search_distinct (service : drive) (mc sd ed : option str)
        (s0 : search_state) :
  exists files s,
    search_files service mc sd ed s0 = (inr files, s) /\
    all_files s = files /\
    NoDup (List.map id_key files) /\
    Forall has_id files.
Proof.
  destruct (search_files_ok service mc sd ed s0) as [s [E [M [N F]]]].
  exists (all_files s), s. split; [exact E|]. split; [reflexivity|].
  split; [now rewrite M | exact F].
Qed.

Lemma add_files_run (found : list json) :
  forall s,
    search_ok s -> Forall has_id found ->
    for_each found add_file s =
    (inr tt,
     SearchState (extend (all_files s) found)
                 (List.map id_key (extend (all_files s) found))
                 (sent s) (drawn s)).
Proof.
  induction found as [|file found IH]; intros s H F.
  - destruct H as [M _]. destruct s as [a k r d]. cbn in *. now subst k.
  - inversion F as [|x l [id [I Hh]] F']; subst.
    pose proof (keeps_add_file file s H) as K.
    cbn [for_each]. unfold and_then at 1.
    assert (add_file file s =
            (inr tt,
             if existsb (pykey_eqb (id_key file)) (List.map id_key (all_files s))
             then s
             else SearchState (all_files s ++ [file])
                              (seen_file_ids s ++ [id_key file])
                              (sent s) (drawn s))) as E.
    { unfold add_file, and_then, raise_or. rewrite I, (hashable_hash _ Hh).
      destruct H as [-> _].
      assert (id_key file = key_of id) as -> by (unfold id_key; now rewrite I).
      now destruct (existsb _ _). }
    rewrite E in *. cbn [snd] in K. rewrite (IH _ K F').
    unfold extend. cbn [fold_left].
    destruct (existsb (pykey_eqb (id_key file)) (List.map id_key (all_files s)));
      reflexivity.
Qed.

Lemma collect_run (d : list (str * json)) (found : list json)
      (s : search_state) :
  dict_get d (u "files") (JArr []) = JArr found ->
  search_ok s -> Forall has_id found ->
  collect (JObj d) s =
  (inr tt,
   SearchState (extend (all_files s) found)
               (List.map id_key (extend (all_files s) found))
               (sent s) (drawn s)).
Proof.
  intros G H F. unfold collect, and_then, raise_or. cbn [py_get].
  rewrite G. cbn [py_iter]. now apply add_files_run.
Qed.

Lemma extend_ok (found : list json) (s : search_state) :
  search_ok s -> Forall has_id found ->
  search_ok (SearchState (extend (all_files s) found)
                         (List.map id_key (extend (all_files s) found))
                         (sent s) (drawn s)).
Proof.
  intros H F. pose proof (keeps_for_each found add_file keeps_add_file s H) as K.
  now rewrite (add_files_run found s H F) in K.
Qed.

Lemma extend_app (kept a b : list json) :
  extend kept (a ++ b) = extend (extend kept a) b.
Proof. unfold extend. apply fold_left_app. Qed.

Lemma global_search_run (service : drive) (mc sd ed : option str)
      (found : list json) (s : search_state) :
  answers service (global_request mc sd ed) found ->
  search_ok s -> Forall has_id found ->
  global_search service mc sd ed s =
  (inr tt,
   SearchState (extend (all_files s) found)
               (List.map id_key (extend (all_files s) found))
               (sent s ++ [global_request mc sd ed]) (drawn s)).
Proof.
  intros [d [E G]] H F. unfold global_search, try_catch, and_then, files_list.
  rewrite E.
  now rewrite (collect_run d found
                 (SearchState (all_files s) (seen_file_ids s)
                              (sent s ++ [global_request mc sd ed]) (drawn s))
                 G H F).
Qed.

Lemma folder_search_none (service : drive) (mc sd ed : option str)
      (s : search_state) :
  answers service folder_lookup [] ->
  folder_search service mc sd ed s =
  (inr tt,
   SearchState (all_files s) (seen_file_ids s) (sent s ++ [folder_lookup])
               (drawn s)).
Proof.
  intros [d [E G]]. unfold folder_search, try_catch, and_then, files_list.
  rewrite E. unfold raise_or. cbn [py_get]. rewrite G. reflexivity.
Qed.

Lemma folder_search_run (service : drive) (mc sd ed : option str)
      (folder : json) (others : list json) (fid : json) (found : list json)
      (s : search_state) :
  answers service folder_lookup (folder :: others) ->
  py_item folder (u "id") = inr fid ->
  answers service (folder_request fid mc sd ed) found ->
  search_ok s -> Forall has_id found ->
  folder_search service mc sd ed s =
  (inr tt,
   SearchState (extend (all_files s) found)
               (List.map id_key (extend (all_files s) found))
               (sent s ++ [folder_lookup; folder_request fid mc sd ed])
               (drawn s)).
Proof.
  intros [d [E G]] I [d2 [E2 G2]] H F.
  unfold folder_search, try_catch, and_then, files_list.
  rewrite E. unfold raise_or. cbn [py_get]. rewrite G.
  cbn [py_truthy nonempty py_first]. rewrite I.
  cbn [all_files seen_file_ids sent drawn]. rewrite E2.
  rewrite (collect_run d2 found
             (SearchState (all_files s) (seen_file_ids s)
                ((sent s ++ [folder_lookup])
                   ++ [folder_request fid mc sd ed]) (drawn s))
             G2 H F).
  cbn [all_files seen_file_ids sent drawn]. now rewrite <- app_assoc.
Qed.

(** X21.  When the service answers the search in all of
    the drive with files that have identifiers, the result is these
    files without those whose identifier has come before; and with no
    meeting code and at least one file this is all: no other request
    is sent.  With a meeting code, or with no file found, the folder
    Meet Recordings is looked up, and the files of the first folder of
    that name are added behind, without those whose identifier has come
    before; without such a folder the result stays as it is. *)
Theorem search_merges (service : drive) (mc sd ed : option str)
        (s0 : search_state) (found : list json) :
  answers service (global_request mc sd ed) found ->
  Forall has_id found ->
  (dedupe found <> [] -> truthy_opt mc = false ->
   search_files service mc sd ed s0 =
   (inr (dedupe found),
    SearchState (dedupe found) (List.map id_key (dedupe found))
                (sent s0 ++ [global_request mc sd ed]) (drawn s0))) /\
  (dedupe found = [] \/ truthy_opt mc = true ->
   (answers service folder_lookup [] ->
    search_files service mc sd ed s0 =
    (inr (dedupe found),
     SearchState (dedupe found) (List.map id_key (dedupe found))
                 (sent s0 ++ [global_request mc sd ed; folder_lookup])
                 (drawn s0))) /\
   (forall folder others fid found2,
       answers service folder_lookup (folder :: others) ->
       py_item folder (u "id") = inr fid ->
       answers service (folder_request fid mc sd ed) found2 ->
       Forall has_id found2 ->
       search_files service mc sd ed s0 =
       (inr (dedupe (found ++ found2)),
        SearchState (dedupe (found ++ found2))
                    (List.map id_key (dedupe (found ++ found2)))
                    (sent s0 ++ [global_request mc sd ed; folder_lookup;
                                 folder_request fid mc sd ed])
                    (drawn s0)))).
Proof.
  intros A F.
  assert (search_ok (SearchState [] [] (sent s0) (drawn s0))) as H0.
  { repeat split; constructor. }
  pose proof (global_search_run service mc sd ed found _ A H0 F) as G.
  cbn [all_files sent drawn] in G.
  change (extend [] found) with (dedupe found) in G.
  pose proof (extend_ok found _ H0 F) as H1.
  cbn [all_files sent drawn] in H1.
  change (extend [] found) with (dedupe found) in H1.
  split; [|split].
  - intros N M. unfold search_files, and_then. rewrite G.
    cbn [all_files]. rewrite M.
    destruct (dedupe found) as [|f fs] eqn:D; [contradiction|]. reflexivity.
  - intros A0. unfold search_files, and_then. rewrite G. cbn [all_files].
    assert (negb (nonempty (dedupe found)) || truthy_opt mc = true) as ->.
    { destruct H as [-> | ->]; [reflexivity | apply orb_true_r]. }
    rewrite (folder_search_none service mc sd ed _ A0).
    cbn [all_files seen_file_ids sent drawn]. now rewrite <- app_assoc.
  - intros folder others fid found2 A1 I A2 F2.
    unfold search_files, and_then. rewrite G. cbn [all_files].
    assert (negb (nonempty (dedupe found)) || truthy_opt mc = true) as ->.
    { destruct H as [-> | ->]; [reflexivity | apply orb_true_r]. }
    rewrite (folder_search_run service mc sd ed folder others fid found2
               (SearchState (dedupe found) (List.map id_key (dedupe found))
                            (sent s0 ++ [global_request mc sd ed]) (drawn s0))
               A1 I A2 H1 F2).
    cbn [all_files seen_file_ids sent drawn].
    change (dedupe (found ++ found2)) with (extend [] (found ++ found2)).
    rewrite extend_app. change (extend [] found) with (dedupe found).
    now rewrite <- app_assoc.
Qed.

Lemma search_merges_witness :
  search_files sample_drive None None None (SearchState [] [] [] []) =
  (inr [doc "a" "Kickoff"; doc "b" "Standup"],
   SearchState [doc "a" "Kickoff"; doc "b" "Standup"]
               [KStr (u "a"); KStr (u "b")]
               [global_request None None None] []) /\
  search_files sample_drive (Some (u "abc-defg-hij")) None None
               (SearchState [] [] [] []) =
  (inr [doc "a" "Kickoff"; doc "b" "Standup"; doc "c" "Retro"],
   SearchState [doc "a" "Kickoff"; doc "b" "Standup"; doc "c" "Retro"]
               [KStr (u "a"); KStr (u "b"); KStr (u "c")]
               [ global_request (Some (u "abc-defg-hij")) None None;
                 folder_lookup;
                 folder_request (JStr (u "f1")) (Some (u "abc-defg-hij"))
                                None None ]
               []).
Proof.
  assert (Forall has_id [doc "a" "Kickoff"; doc "b" "Standup"; doc "a" "Kickoff"])
    as F1 by (repeat constructor; eexists; split; reflexivity).
  assert (Forall has_id [doc "b" "Standup"; doc "c" "Retro"])
    as F2 by (repeat constructor; eexists; split; reflexivity).
  split.
  - apply (proj1 (search_merges sample_drive None None None
                    (SearchState [] [] [] [])
                    [doc "a" "Kickoff"; doc "b" "Standup"; doc "a" "Kickoff"]
                    ltac:(eexists; split; reflexivity) F1)).
    + vm_compute. discriminate.
    + reflexivity.
  - apply (proj2 (proj2 (search_merges sample_drive (Some (u "abc-defg-hij"))
                           None None (SearchState [] [] [] [])
                           [doc "a" "Kickoff"; doc "b" "Standup";
                            doc "a" "Kickoff"]
                           ltac:(eexists; split; reflexivity) F1)
                        ltac:(right; reflexivity))
             (doc "f1" "Meet Recordings") [] (JStr (u "f1"))
             [doc "b" "Standup"; doc "c" "Retro"]).
    + eexists; split; reflexivity.
    + reflexivity.
    + eexists; split; reflexivity.
    + exact F2.
Defined.

Lemma for_each_app {S A} (a b : list A) (body : A -> Run S unit) (s : S) :
  for_each (a ++ b) body s =
  (_ <~ for_each a body ;; for_each b body) s.
Proof.
  revert s. induction a as [|x a IH]; intros s; [reflexivity|].
  cbn [app for_each]. unfold and_then in *.
  destruct (body x s) as [[e|[]] s1]; [reflexivity|]. apply IH.
Qed.

Lemma global_search_stops (service : drive) (mc sd ed : option str)
      (good : list json) (bad : json) (rest : list json) (e : exn)
      (s : search_state) :
  answers service (global_request mc sd ed) (good ++ bad :: rest) ->
  Forall has_id good ->
  py_item bad (u "id") = inl e ->
  search_ok s ->
  global_search service mc sd ed s =
  (inr tt,
   SearchState (extend (all_files s) good)
               (List.map id_key (extend (all_files s) good))
               (sent s ++ [global_request mc sd ed])
               (drawn s ++ [(None, w_warning [Text (u "Global search failed: ");
                                              Error e])])).
Proof.
  intros [d [E G]] F B H.
  unfold global_search, try_catch, and_then at 1. unfold files_list. rewrite E.
  unfold collect, and_then at 1 2. unfold raise_or. cbn [py_get]. rewrite G.
  cbn [py_iter]. rewrite for_each_app. unfold and_then at 1.
  rewrite (add_files_run good
             (SearchState (all_files s) (seen_file_ids s)
                          (sent s ++ [global_request mc sd ed]) (drawn s))
             H F).
  cbn [for_each]. unfold and_then at 1. unfold add_file at 1.
  unfold and_then at 1. unfold raise_or at 1. rewrite B. reflexivity.
Qed.

(** X22.  A file without identifier in the
    answer to the search in all of the drive ends the loop over the
    files: the files before it are kept, those behind it are not looked
    at, and the exception is shown as a warning.  With no meeting code,
    when a file was kept, the result is the files kept, and the folder
    Meet Recordings is not searched. *)
Theorem search_stops_at_bad_file (service : drive) (mc sd ed : option str)
        (good : list json) (bad : json) (rest : list json) (e : exn)
        (s0 : search_state) :
  answers service (global_request mc sd ed) (good ++ bad :: rest) ->
  Forall has_id good ->
  py_item bad (u "id") = inl e ->
  dedupe good <> [] ->
  truthy_opt mc = false ->
  search_files service mc sd ed s0 =
  (inr (dedupe good),
   SearchState (dedupe good) (List.map id_key (dedupe good))
               (sent s0 ++ [global_request mc sd ed])
               (drawn s0 ++ [(None, w_warning [Text (u "Global search failed: ");
                                               Error e])])).
Proof.
  intros A F B N M.
  assert (search_ok (SearchState [] [] (sent s0) (drawn s0))) as H0.
  { repeat split; constructor. }
  unfold search_files, and_then.
  rewrite (global_search_stops service mc sd ed good bad rest e _ A F B H0).
  cbn [all_files sent drawn]. change (extend [] good) with (dedupe good).
  rewrite M. destruct (dedupe good); [contradiction | reflexivity].
Qed.

Lemma search_stops_at_bad_file_witness :
  search_files
    (Drive (fun _ =>
              inr (JObj [(u "files",
                          JArr [doc "a" "Kickoff";
                                JObj [(u "name", JStr (u "No id"))];
                                doc "b" "Standup"])])))
    None None None (SearchState [] [] [] []) =
  (inr [doc "a" "Kickoff"],
   SearchState [doc "a" "Kickoff"] [KStr (u "a")]
               [global_request None None None]
               [(None, w_warning [Text (u "Global search failed: ");
                                  Error (PyException (u "KeyError") (u "'id'"))])]).
Proof.
  apply (search_stops_at_bad_file
           (Drive (fun _ =>
                     inr (JObj [(u "files",
                                 JArr [doc "a" "Kickoff";
                                       JObj [(u "name", JStr (u "No id"))];
                                       doc "b" "Standup"])])))
           None None None
           [doc "a" "Kickoff"] (JObj [(u "name", JStr (u "No id"))])
           [doc "b" "Standup"] (PyException (u "KeyError") (u "'id'"))
           (SearchState [] [] [] [])).
  - eexists; split; reflexivity.
  - repeat constructor; eexists; split; reflexivity.
  - reflexivity.
  - vm_compute. discriminate.
  - reflexivity.
Defined.

(* ================================================================= *)
(** ** Properties of the search button *)

Lemma list_drive_files_built (api : drive_api) (service : drive)
      (mc sd ed : option str) (s0 : search_state) :
  build api = inr service ->
  exists s,
    list_drive_files api mc sd ed s0 = (inr (Some (all_files s)), s) /\
    search_ok s /\
    search_files service mc sd ed s0 = (inr (all_files s), s).
Proof.
  intros B. destruct (search_files_ok service mc sd ed s0) as [s [E H]].
  exists s. split; [|split; [exact H | exact E]].
  unfold list_drive_files, try_clauses, and_then, raise_or.
  rewrite B, E. reflexivity.
Qed.

Lemma list_drive_files_unexpected (api : drive_api) (e : exn)
      (mc sd ed : option str) (s : search_state) :
  build api = inl e -> isinstance_HttpError e = false ->
  list_drive_files api mc sd ed s =
  (inr None,
   SearchState (all_files s) (seen_file_ids s) (sent s)
               (drawn s ++ [(None, w_error [Text (cross ++ u " Unexpected error: ");
                                            Error e])])).
Proof.
  intros B H. unfold list_drive_files, try_clauses, and_then, raise_or.
  rewrite B. cbn [find fst snd]. rewrite H. reflexivity.
Qed.

Lemma fetch_transcripts_built (api : drive_api) (service : drive)
      (mc sd ed : option str) (s0 : search_state) :
  build api = inr service ->
  exists files s,
    fetch_transcripts api true mc sd ed s0 = (inr files, s) /\
    NoDup (List.map id_key files) /\ Forall has_id files /\
    fst (search_files service mc sd ed
           (SearchState (all_files s0) (seen_file_ids s0) (sent s0)
              (drawn s0 ++ [(None, w_spinner [Text (u "Searching for transcripts...")])])))
    = inr files.
Proof.
  intros B. unfold fetch_transcripts. cbn [negb].
  unfold and_then at 1. unfold note at 1.
  destruct (list_drive_files_built api service mc sd ed
              (SearchState (all_files s0) (seen_file_ids s0) (sent s0)
                 (drawn s0 ++ [(None, w_spinner [Text (u "Searching for transcripts...")])]))
              B) as [s [E [[M [N F]] Sf]]].
  unfold and_then at 1. rewrite E. rewrite Sf. cbn [fst].
  exists (all_files s).
  destruct (all_files s) as [|f fs] eqn:A.
  - cbn [nonempty]. unfold and_then, note, pure.
    destruct mc as [code|]; [destruct (truthy code)|];
      destruct (truthy_opt sd || truthy_opt ed);
      eexists; (split; [reflexivity|]); repeat split; constructor.
  - cbn [nonempty]. unfold and_then, note, pure.
    eexists. split; [reflexivity|].
    rewrite <- A in *. split; [now rewrite M|]. split; [exact F | reflexivity].
Qed.

(** X23.  No exception derived from [Exception] leaves
    the button that searches, whatever the service does: the button
    returns, or [st.rerun()] starts the script again; on the page
    where the button is, the one of a session without transcripts,
    the script is started again when transcripts were found and then
    only.  Without credentials
    the button leaves everything as it is and shows nothing.  With
    credentials and a service, the transcripts of the session become
    what the search of [list_drive_files] returns, files with
    identifiers no two of which are equal; the script is run again
    when there is such a file, and the button returns when there is
    none.  When [build] raises an exception that is no [HttpError],
    the transcripts stay as they are, the exception is shown behind
    the spinner and the button returns. *)
Theorem search_button (api : drive_api) (google_creds : bool)
        (meeting_code : str) (sd ed : option str) (pg : search_page) :
  (exists r pg',
      search_transcripts api google_creds meeting_code sd ed pg = (r, pg') /\
      (forall e, r <> inl (Raised e)) /\
      (transcripts pg = [] ->
       (r = inl RerunException <-> transcripts pg' <> []))) /\
  (google_creds = false ->
   search_transcripts api google_creds meeting_code sd ed pg
   = (inr tt, SearchPage (transcripts pg) (search pg))) /\
  (forall service,
      google_creds = true -> build api = inr service ->
      exists files s,
        search_transcripts api google_creds meeting_code sd ed pg
        = (if nonempty files then inl RerunException else inr tt,
           SearchPage files s) /\
        NoDup (List.map id_key files) /\ Forall has_id files /\
        fst (search_files service
               (if truthy meeting_code then Some (strip meeting_code) else None)
               sd ed
               (SearchState (all_files (search pg)) (seen_file_ids (search pg))
                  (sent (search pg))
                  (drawn (search pg)
                     ++ [(None, w_spinner [Text (u "Searching for transcripts...")])])))
        = inr files) /\
  (forall e,
      google_creds = true -> build api = inl e ->
      isinstance_HttpError e = false ->
      search_transcripts api google_creds meeting_code sd ed pg =
      (inr tt,
       SearchPage (transcripts pg)
         (SearchState (all_files (search pg)) (seen_file_ids (search pg))
            (sent (search pg))
            (drawn (search pg)
               ++ [ (None, w_spinner [Text (u "Searching for transcripts...")]);
                    (None, w_error [Text (cross ++ u " Unexpected error: ");
                                    Error e]) ])))).
Proof.
  split; [|split; [|split]].
  - unfold search_transcripts, except_Exception, next, script, on_search,
      set_transcripts, st_rerun, done.
    destruct (fetch_transcripts api google_creds _ sd ed (search pg))
      as [[e|files] s].
    + eexists _, _. split; [reflexivity|]. split; [discriminate|].
      intros E. cbn [transcripts].
      split; [discriminate | intros H; now contradiction H].
    + destruct files as [|f files]; cbn [nonempty search].
      * eexists _, _. split; [reflexivity|]. split; [discriminate|].
        intros _. cbn [transcripts].
        split; [discriminate | intros H; now contradiction H].
      * eexists _, _. split; [reflexivity|]. split; [discriminate|].
        intros _. cbn [transcripts]. split; [discriminate | reflexivity].
  - intros ->. reflexivity.
  - intros service -> B.
    destruct (fetch_transcripts_built api service
                (if truthy meeting_code then Some (strip meeting_code) else None)
                sd ed (search pg) B) as [files [s [E [N [F Sf]]]]].
    exists files, s. split; [|split; [|split]; assumption].
    unfold search_transcripts, except_Exception, next, script, on_search,
      set_transcripts, st_rerun, done.
    rewrite E. cbn [search]. now destruct (nonempty files).
  - intros e -> B H.
    unfold search_transcripts, except_Exception, next, script, on_search.
    unfold fetch_transcripts. cbn [negb]. unfold and_then at 1.
    unfold note at 1. unfold and_then at 1.
    rewrite (list_drive_files_unexpected api e _ sd ed _ B H).
    unfold raise_or, pure, done. cbn [all_files seen_file_ids sent drawn].
    now rewrite <- app_assoc.
Qed.

Lemma search_button_witness :
  (exists files s,
      search_transcripts (api_of sample_drive) true (u " abc-defg-hij ") None None
                         (SearchPage [] (SearchState [] [] [] []))
      = (if nonempty files then inl RerunException else inr tt,
         SearchPage files s) /\
      NoDup (List.map id_key files) /\ Forall has_id files /\
      (inr [doc "a" "Kickoff"; doc "b" "Standup"; doc "c" "Retro"]
       : res (list json)) = inr files) /\
  search_transcripts
    (failing_api (PyException (u "OSError") (u "no route to host")) (JStr []) 0)
    true (u "abc") None None
    (SearchPage [doc "a" "Kickoff"] (SearchState [] [] [] [])) =
  (inr tt,
   SearchPage [doc "a" "Kickoff"]
     (SearchState [] [] []
        [ (None, w_spinner [Text (u "Searching for transcripts...")]);
          (None, w_error [Text (cross ++ u " Unexpected error: ");
                          Error (PyException (u "OSError")
                                   (u "no route to host"))]) ])).
Proof.
  split.
  - apply (proj1 (proj2 (proj2 (search_button (api_of sample_drive) true
                                  (u " abc-defg-hij ") None None
                                  (SearchPage [] (SearchState [] [] [] [])))))
             sample_drive eq_refl eq_refl).
  - apply (proj2 (proj2 (proj2 (search_button
                                  (failing_api (PyException (u "OSError")
                                                  (u "no route to host"))
                                               (JStr []) 0)
                                  true (u "abc") None None
                                  (SearchPage [doc "a" "Kickoff"]
                                              (SearchState [] [] [] [])))))
             (PyException (u "OSError") (u "no route to host"))
             eq_refl eq_refl eq_refl).
Defined.

(** X24.  When [build] raises an [HttpError],
    [list_drive_files] returns [None] if the error has no details or
    its details are a list that starts with a dictionary.  If the
    details are a text that is not empty, the handler itself raises
    [AttributeError], which leaves [list_drive_files] and
    [fetch_transcripts]; the button that searches then shows nothing
    but the spinner. *)
Theorem http_error_details (api : drive_api) (e : exn)
        (mc sd ed : option str) (s : search_state) :
  build api = inl e -> isinstance_HttpError e = true ->
  (py_truthy (error_details api e) = false \/
   (exists d rest, error_details api e = JArr (JObj d :: rest)) ->
   exists s', list_drive_files api mc sd ed s = (inr None, s') /\
              all_files s' = all_files s /\ sent s' = sent s) /\
  (forall c r,
      error_details api e = JStr (c :: r) ->
      list_drive_files api mc sd ed s
      = (inl (no_attribute (JStr [c]) "get"), s) /\
      forall text pg,
        search_transcripts api true text sd ed pg =
        (inr tt,
         SearchPage (transcripts pg)
           (SearchState (all_files (search pg)) (seen_file_ids (search pg))
              (sent (search pg))
              (drawn (search pg)
                 ++ [(None, w_spinner [Text (u "Searching for transcripts...")])])))).
Proof.
  intros B H.
  assert (forall mc s, list_drive_files api mc sd ed s = on_http_error api e s)
    as L.
  { intros mc' s'. unfold list_drive_files, try_clauses, and_then, raise_or.
    rewrite B. cbn [find fst snd]. now rewrite H. }
  split.
  - intros D. rewrite L. unfold on_http_error, and_then, raise_or.
    destruct D as [D | [d [rest D]]].
    + rewrite D. cbn [py_get message_of dict_get dict_lookup].
      destruct (Z.eqb (resp_status api e) 403); eexists;
        (split; [reflexivity | split; reflexivity]).
    + rewrite D. cbn [py_truthy nonempty py_first py_get message_of].
      destruct (Z.eqb (resp_status api e) 403); eexists;
        (split; [reflexivity | split; reflexivity]).
  - intros c r D.
    assert (forall mc s, list_drive_files api mc sd ed s
                         = (inl (no_attribute (JStr [c]) "get"), s)) as K.
    { intros mc' s'. rewrite L. unfold on_http_error, and_then, raise_or.
      rewrite D. reflexivity. }
    split; [apply K|].
    intros text pg.
    unfold search_transcripts, except_Exception, next, script, on_search.
    unfold fetch_transcripts. cbn [negb]. unfold and_then at 1.
    unfold note at 1. unfold and_then at 1. rewrite K. reflexivity.
Qed.

Lemma http_error_details_witness :
  list_drive_files (failing_api quota_error (JStr (u "Rate Limit Exceeded")) 403)
                   None None None (SearchState [] [] [] []) =
  (inl (PyException (u "AttributeError")
          (u "'str' object has no attribute 'get'")),
   SearchState [] [] [] []) /\
  exists s',
    list_drive_files
      (failing_api quota_error
         (JArr [JObj [(u "reason", JStr (u "rateLimitExceeded"))]]) 403)
      None None None (SearchState [] [] [] []) = (inr None, s') /\
    all_files s' = [] /\ sent s' = [].
Proof.
  split.
  - apply (proj2 (http_error_details
                    (failing_api quota_error (JStr (u "Rate Limit Exceeded")) 403)
                    quota_error None None None (SearchState [] [] [] [])
                    eq_refl eq_refl)
             82%N (u "ate Limit Exceeded") eq_refl).
  - apply (proj1 (http_error_details
                    (failing_api quota_error
                       (JArr [JObj [(u "reason", JStr (u "rateLimitExceeded"))]])
                       403)
                    quota_error None None None (SearchState [] [] [] [])
                    eq_refl eq_refl)).
    right. eexists. eexists. reflexivity.
Defined.
